(** * A deep-Q agent for StarCraft II mini-games: decision and learning loop

    Shallow embedding of [src/BaseAgent.py] (class [BaseAgent]) and of
    [src/nico/assets/agents/BaseAgent.py] (class [CompassAgent]).

    Conventions of the embedding.
    - Python [int]s are [Z]; indices produced by [np.argmax],
      [np.random.randint] and [np.where] are [nat].
    - Python and tensor floating-point numbers are idealised as the real
      numbers [R]: rounding, overflow and NaN are not modelled.
    - A tensor of shape [(B)] is a [list R]; a tensor of shape [(B, n)] is a
      list of [B] rows.
    - A method that mutates [self] is a function from the agent record to an
      [outcome]: the value returned together with the agent afterwards, or
      the exception raised together with the agent as it was left.
    - Values drawn from numpy's random generator are explicit arguments. *)

From Stdlib Require Import Reals Lra Lia ZArith List Bool String.
From stdpp Require Import base list.
Import ListNotations.

Local Open Scope Z_scope.

(** ** numpy and torch primitives used by the agents *)

Module Numpy.

Section Argmax.
Context {A : Type}.
Variable gtb : A -> A -> bool.

(** [np.argmax] scans the flattened array once and keeps the position of
    the running maximum; a later element replaces it only when strictly
    greater. *)
Fixpoint argmax_from (best : A) (best_i i : nat) (l : list A) : nat :=
  match l with
  | [] => best_i
  | x :: t =>
      if gtb x best then argmax_from x i (S i) t
      else argmax_from best best_i (S i) t
  end.

(** [np.argmax] of an empty array raises [ValueError]. *)
Definition argmax (l : list A) : option nat :=
  match l with
  | [] => None
  | x :: t => Some (argmax_from x 0%nat 1%nat t)
  end.

(** Position [i] holds a greatest element of [l], and no earlier position
    does. *)
Definition first_max (l : list A) (i : nat) : Prop :=
  exists v, l !! i = Some v /\
    (forall j x, l !! j = Some x -> gtb x v = false) /\
    (forall j x, (j < i)%nat -> l !! j = Some x -> gtb v x = true).

End Argmax.

(** [np.where(v == c)] for a one-dimensional [v]: the positions, in
    increasing order, at which the comparison holds. *)
Fixpoint where_eq_from (i : nat) (c : Z) (v : list Z) : list nat :=
  match v with
  | [] => []
  | x :: t =>
      if Z.eqb x c then i :: where_eq_from (S i) c t
      else where_eq_from (S i) c t
  end.

Definition where_eq (c : Z) (v : list Z) : list nat := where_eq_from 0 c v.

(** Advanced indexing on the right of an assignment, [src[idx]]: the
    elements of [src] at the listed positions ([IndexError] when a position
    is out of range). *)
Fixpoint take_idx {A : Type} (src : list A) (idx : list nat)
  : option (list A) :=
  match idx with
  | [] => Some []
  | i :: t =>
      match src !! i, take_idx src t with
      | Some x, Some r => Some (x :: r)
      | _, _ => None
      end
  end.

(** Advanced indexing on the left of an assignment, [dst[idx] = vals]: the
    k-th value is stored at the k-th listed position. *)
Fixpoint put_idx {A : Type} (dst : list A) (idx : list nat) (vals : list A)
  : option (list A) :=
  match idx, vals with
  | [], [] => Some dst
  | i :: t, x :: r =>
      if (i <? length dst)%nat then put_idx (<[i := x]> dst) t r else None
  | _, _ => None
  end.

End Numpy.

(** ** The part of pysc2 the agents rely on *)

Module Pysc2.

(** Identifiers of [pysc2.lib.actions.FUNCTIONS]. *)
Definition no_op_id : Z := 0.
Definition select_army_id : Z := 7.
Definition Move_screen_id : Z := 331.

(** A function call handed to the environment. *)
Inductive FunctionCall : Type :=
| no_op
| select_army (select_add : string)
| Move_screen (queued : string) (x y : Z).

Definition function_id (fc : FunctionCall) : Z :=
  match fc with
  | no_op => no_op_id
  | select_army _ => select_army_id
  | Move_screen _ _ _ => Move_screen_id
  end.

(** [pysc2.env.environment.StepType]: FIRST = 0, MID = 1, LAST = 2. *)
Definition FIRST : Z := 0.
Definition MID : Z := 1.
Definition LAST : Z := 2.

End Pysc2.

(** Python exceptions that the modelled code can raise. *)
Inductive exn : Type :=
| ValueError
| ZeroDivisionError
| IndexError
| NameError
| RuntimeError.

(** The outcome of ['random'] / ['greedy'] in [epsilon_greedy]. *)
Inductive policy_choice : Type := random | greedy.

(** [np.random.choice(['random','greedy'], p=[eps, 1-eps])] with the uniform
    sample [u] of the generator: the cumulative distribution is [eps, 1] and
    the sample is located in it from the right, so ['random'] is returned
    exactly when [u < eps].  Negative probabilities raise [ValueError]. *)
Definition random_choice (u eps : R) : option policy_choice :=
  if Rle_dec 0 eps then
    if Rle_dec 0 (1 - eps) then
      if Rlt_dec u eps then Some random else Some greedy
    else None
  else None.

(** [np.random.randint(high)] with the raw draw [r] of the generator:
    [ValueError] unless [0 < high], otherwise a value of [0 .. high - 1]. *)
Definition randint (high : Z) (r : nat) : option nat :=
  if 0 <? high then Some (r mod Z.to_nat high)%nat else None.

(** Strict comparison of two tensor entries, as a boolean. *)
Definition Rgtb (a b : R) : bool := if Rlt_dec b a then true else false.

(** The exploration rate both agents assign to [self.epsilon] when
    [steps_done] is [n]. *)
Definition epsilon_at (e_start e_end e_decay : R) (n : Z) : R :=
  (e_end + (e_start - e_end) * exp (-1 * IZR n / e_decay))%R.

(** Index [i] is the argmax of [l] with ties going to the lowest index: it
    holds a greatest value, and every earlier value is strictly smaller. *)
Definition first_argmax (l : list R) (i : nat) : Prop :=
  exists v, l !! i = Some v /\
    (forall j x, l !! j = Some x -> (x <= v)%R) /\
    (forall j x, (j < i)%nat -> l !! j = Some x -> (x < v)%R).

(** ** Methods of a mutable object

    A method call on an object with state [St] either returns a value or
    raises; in both cases the object keeps the mutations made so far. *)

Inductive outcome (St A : Type) : Type :=
| Return (a : A) (s : St)
| Raise (e : exn) (s : St).
Arguments Return {St A} a s.
Arguments Raise {St A} e s.

Definition final {St A : Type} (o : outcome St A) : St :=
  match o with Return _ s => s | Raise _ s => s end.

Definition method (St A : Type) : Type := St -> outcome St A.

Definition ret {St A : Type} (a : A) : method St A := fun s => Return a s.

Definition bind {St A B : Type} (m : method St A) (k : A -> method St B)
  : method St B :=
  fun s => match m s with
           | Return a s' => k a s'
           | Raise e s' => Raise e s'
           end.

Definition modify {St : Type} (f : St -> St) : method St unit :=
  fun s => Return tt (f s).

Definition raise {St A : Type} (e : exn) : method St A := fun s => Raise e s.

Definition get {St A : Type} (f : St -> A) : method St A :=
  fun s => Return (f s) s.

(** An optional value, raising [e] when it is absent. *)
Definition try {St A : Type} (e : exn) (o : option A) : method St A :=
  match o with Some a => ret a | None => raise e end.

Notation "x <- m ;; k" := (bind m (fun x => k))
  (at level 100, m at next level, right associativity).
Notation "m ;;; k" := (bind m (fun _ => k))
  (at level 100, right associativity).

(** [m] leaves the attribute [f] as it found it, whether it returns or
    raises. *)
Definition preserves {St A X : Type} (f : St -> X) (m : method St A) : Prop :=
  forall s, f (final (m s)) = f s.

(** ** [src/BaseAgent.py]: class [BaseAgent] *)

Module BaseAgent.

(** [SMART_ACTIONS], the restricted action space. *)
Definition SMART_ACTIONS : list Z :=
  [Pysc2.no_op_id; Pysc2.select_army_id; Pysc2.Move_screen_id].

(** [AtariNet.DQN] and the optimizer built over it are imported, not
    defined, by the agent.  Their parameter state, the optimizer's state and
    the network input are abstract.
    - [forward theta x] is the forward pass of a DQN with parameters
      [theta] on one sample: the value vectors of the action, x-coordinate
      and y-coordinate heads.  A batch is passed through row by row.
    - [optimizer_step] is [loss.backward(); optimizer.step()] for the Adam
      optimizer that [_build_model] builds over [net.parameters()]: from the
      optimizer's state, the loss as a function of the online parameters and
      the current online parameters, the new optimizer state and online
      parameters. *)
Class AtariNet : Type := {
  params : Type;
  opt_state : Type;
  screen : Type;
  forward : params -> screen -> list R * list R * list R;
  optimizer_step :
    opt_state -> (params -> option R) -> params -> opt_state * params
}.

Section Model.

Context {model : AtariNet}.

Record agent : Type := mkAgent {
  net : params;
  target_net : params;
  optimizer : opt_state;
  screen_dim : Z;
  epsilon : R;
  eps_start : R;
  eps_end : R;
  eps_decay : R;
  steps_done : Z;
  gamma : R;
  timesteps : Z;
  update_cnt : Z;
  target_update_period : Z;
  update_status : option string;
  choice : option policy_choice;
  (* attributes of pysc2's base agent *)
  steps : Z;
  episodes : Z;
  reward : Z
}.

Definition set_net (v : params) (s : agent) : agent :=
  mkAgent v (target_net s) (optimizer s) (screen_dim s) (epsilon s)
    (eps_start s) (eps_end s) (eps_decay s) (steps_done s) (gamma s)
    (timesteps s) (update_cnt s) (target_update_period s)
    (update_status s) (choice s) (steps s) (episodes s) (reward s).

Definition set_target_net (v : params) (s : agent) : agent :=
  mkAgent (net s) v (optimizer s) (screen_dim s) (epsilon s)
    (eps_start s) (eps_end s) (eps_decay s) (steps_done s) (gamma s)
    (timesteps s) (update_cnt s) (target_update_period s)
    (update_status s) (choice s) (steps s) (episodes s) (reward s).

Definition set_optimizer (v : opt_state) (s : agent) : agent :=
  mkAgent (net s) (target_net s) v (screen_dim s) (epsilon s)
    (eps_start s) (eps_end s) (eps_decay s) (steps_done s) (gamma s)
    (timesteps s) (update_cnt s) (target_update_period s)
    (update_status s) (choice s) (steps s) (episodes s) (reward s).

Definition set_epsilon (v : R) (s : agent) : agent :=
  mkAgent (net s) (target_net s) (optimizer s) (screen_dim s) v
    (eps_start s) (eps_end s) (eps_decay s) (steps_done s) (gamma s)
    (timesteps s) (update_cnt s) (target_update_period s)
    (update_status s) (choice s) (steps s) (episodes s) (reward s).

Definition set_steps_done (v : Z) (s : agent) : agent :=
  mkAgent (net s) (target_net s) (optimizer s) (screen_dim s) (epsilon s)
    (eps_start s) (eps_end s) (eps_decay s) v (gamma s)
    (timesteps s) (update_cnt s) (target_update_period s)
    (update_status s) (choice s) (steps s) (episodes s) (reward s).

Definition set_timesteps (v : Z) (s : agent) : agent :=
  mkAgent (net s) (target_net s) (optimizer s) (screen_dim s) (epsilon s)
    (eps_start s) (eps_end s) (eps_decay s) (steps_done s) (gamma s)
    v (update_cnt s) (target_update_period s)
    (update_status s) (choice s) (steps s) (episodes s) (reward s).

Definition set_update_cnt (v : Z) (s : agent) : agent :=
  mkAgent (net s) (target_net s) (optimizer s) (screen_dim s) (epsilon s)
    (eps_start s) (eps_end s) (eps_decay s) (steps_done s) (gamma s)
    (timesteps s) v (target_update_period s)
    (update_status s) (choice s) (steps s) (episodes s) (reward s).

Definition set_update_status (v : option string) (s : agent) : agent :=
  mkAgent (net s) (target_net s) (optimizer s) (screen_dim s) (epsilon s)
    (eps_start s) (eps_end s) (eps_decay s) (steps_done s) (gamma s)
    (timesteps s) (update_cnt s) (target_update_period s)
    v (choice s) (steps s) (episodes s) (reward s).

Definition set_choice (v : option policy_choice) (s : agent) : agent :=
  mkAgent (net s) (target_net s) (optimizer s) (screen_dim s) (epsilon s)
    (eps_start s) (eps_end s) (eps_decay s) (steps_done s) (gamma s)
    (timesteps s) (update_cnt s) (target_update_period s)
    (update_status s) v (steps s) (episodes s) (reward s).

Definition set_steps (v : Z) (s : agent) : agent :=
  mkAgent (net s) (target_net s) (optimizer s) (screen_dim s) (epsilon s)
    (eps_start s) (eps_end s) (eps_decay s) (steps_done s) (gamma s)
    (timesteps s) (update_cnt s) (target_update_period s)
    (update_status s) (choice s) v (episodes s) (reward s).

Definition set_episodes (v : Z) (s : agent) : agent :=
  mkAgent (net s) (target_net s) (optimizer s) (screen_dim s) (epsilon s)
    (eps_start s) (eps_end s) (eps_decay s) (steps_done s) (gamma s)
    (timesteps s) (update_cnt s) (target_update_period s)
    (update_status s) (choice s) (steps s) v (reward s).

Definition set_reward (v : Z) (s : agent) : agent :=
  mkAgent (net s) (target_net s) (optimizer s) (screen_dim s) (epsilon s)
    (eps_start s) (eps_end s) (eps_decay s) (steps_done s) (gamma s)
    (timesteps s) (update_cnt s) (target_update_period s)
    (update_status s) (choice s) (steps s) (episodes s) v.

Local Abbreviation method := (method agent).

(** The part of an observation the agent reads. *)
Record observation : Type := mkObs {
  available_actions : list Z;
  player_relative : screen;
  obs_reward : Z
}.

(** The values numpy's generator yields during one [choose_action]. *)
Record draws : Type := mkDraws {
  u_choice : R;
  r_action : nat;
  r_x : nat;
  r_y : nat
}.

(** *** Action selection *)

Definition can_do (obs : observation) (action : Z) : bool :=
  existsb (Z.eqb action) (available_actions obs).

(** [get_action]; the result [None] is Python's [None], returned when no
    [return] statement is reached. *)
Definition get_action (obs : observation) (action x y : Z)
  : option Pysc2.FunctionCall :=
  if can_do obs action then
    if action =? Pysc2.Move_screen_id then
      Some (Pysc2.Move_screen "now" x y)
    else if action =? Pysc2.select_army_id then
      Some (Pysc2.select_army "select")
    else if action =? Pysc2.no_op_id then
      Some Pysc2.no_op
    else None
  else Some Pysc2.no_op.

Definition epsilon_greedy (u : R) : method policy_choice :=
  decay <- get eps_decay ;;
  if Req_dec_T decay 0 then raise ZeroDivisionError
  else
    modify (fun s =>
      set_epsilon
        (epsilon_at (eps_start s) (eps_end s) (eps_decay s) (steps_done s))
        s) ;;;
    modify (fun s => set_steps_done (steps_done s + 1) s) ;;;
    eps <- get epsilon ;;
    try ValueError (random_choice u eps).

Definition choose_action (obs : observation) (d : draws)
  : method (list (option Pysc2.FunctionCall) * nat * nat * nat) :=
  c <- epsilon_greedy (u_choice d) ;;
  modify (set_choice (Some c)) ;;;
  match c with
  | random =>
      action_idx <-
        try ValueError (randint (Z.of_nat (length SMART_ACTIONS))
                          (r_action d)) ;;
      dim <- get screen_dim ;;
      x_coord <- try ValueError (randint dim (r_x d)) ;;
      y_coord <- try ValueError (randint dim (r_y d)) ;;
      action <- try IndexError (SMART_ACTIONS !! action_idx) ;;
      ret ([get_action obs action (Z.of_nat x_coord) (Z.of_nat y_coord)],
           action_idx, x_coord, y_coord)
  | greedy =>
      theta <- get net ;;
      let '(action_q_values, x_coord_q_values, y_coord_q_values) :=
        forward theta (player_relative obs) in
      action_idx <- try ValueError (Numpy.argmax Rgtb action_q_values) ;;
      best_action <- try IndexError (SMART_ACTIONS !! action_idx) ;;
      x_coord <- try ValueError (Numpy.argmax Rgtb x_coord_q_values) ;;
      y_coord <- try ValueError (Numpy.argmax Rgtb y_coord_q_values) ;;
      ret ([get_action obs best_action
              (Z.of_nat x_coord) (Z.of_nat y_coord)],
           action_idx, x_coord, y_coord)
  end.

(** [step]: the base class counts the step and accumulates the reward,
    then the agent decides. *)
Definition step (obs : observation) (d : draws)
  : method (list (option Pysc2.FunctionCall) * nat * nat * nat) :=
  modify (fun s => set_steps (steps s + 1) s) ;;;
  modify (fun s => set_reward (reward s + obs_reward obs) s) ;;;
  modify (fun s => set_timesteps (timesteps s + 1) s) ;;;
  choose_action obs d.

Definition reset : method unit :=
  modify (fun s => set_episodes (episodes s + 1) s) ;;;
  modify (set_timesteps 0) ;;;
  modify (set_update_cnt 0).

(** *** Target network *)

(** [load_state_dict] copies the values of the online parameters: the
    two networks share nothing afterwards. *)
Definition update_target_net : method unit :=
  period <- get target_update_period ;;
  if period =? 0 then raise ZeroDivisionError
  else
    n <- get steps ;;
    if n mod period =? 0 then
      modify (fun s => set_target_net (net s) s) ;;;
      modify (fun s => set_update_cnt (update_cnt s + 1) s) ;;;
      modify (set_update_status (Some "Weights updated!"%string))
    else
      modify (set_update_status None).

(** *** Learning *)

(** One stored experience.  [optimize] receives the batch column by
    column ([batch.state], [batch.action], ...), every column holding one
    entry per sampled transition. *)
Record transition : Type := mkTransition {
  t_state : screen;
  t_action : nat;
  t_x_coord : nat;
  t_y_coord : nat;
  t_reward : R;
  t_step_type : Z;
  t_next_state : screen
}.

Definition head_action (o : list R * list R * list R) : list R := o.1.1.
Definition head_x (o : list R * list R * list R) : list R := o.1.2.
Definition head_y (o : list R * list R * list R) : list R := o.2.

(** [q.gather(1, idx)]: from row [i] the entry at column [idx[i]]. *)
Definition gather (q : list (list R)) (idx : list nat) : option (list R) :=
  mapM (fun p : list R * nat => p.1 !! p.2) (zip q idx).

(** The largest entry of one row. *)
Definition row_max (row : list R) : option R :=
  match row with
  | [] => None
  | x :: t => Some (fold_left Rmax t x)
  end.

(** [q.max(1)[0]]: the largest entry of every row. *)
Definition max_rows (q : list (list R)) : option (list R) :=
  mapM row_max q.

(** The temporal-difference target of one head: computed for the whole
    batch, then overwritten with the reward at the positions where the
    step type is 2. *)
Definition td_target (g : R) (next_values reward_batch : list R)
    (step_type_batch : list Z) : option (list R) :=
  let td := zip_with (fun nv r => (nv * g + r)%R)
              next_values reward_batch in
  let last := Numpy.where_eq 2 step_type_batch in
  vals ← Numpy.take_idx reward_batch last;
  Numpy.put_idx td last vals.

Definition Rsum (l : list R) : R := fold_right Rplus 0%R l.

(** [F.mse_loss]: the mean of the squared differences. *)
Definition mse_loss (input target : list R) : R :=
  (Rsum (zip_with (fun a b => (a - b) * (a - b)) input target)
   / INR (length input))%R.

(** The loss of a batch, for online parameters [theta] and target
    parameters [theta_target]. *)
Definition batch_loss (g : R) (theta theta_target : params)
    (batch : list transition) : option R :=
  match batch with
  | [] => None
  | _ :: _ =>
      let state_batch := map t_state batch in
      let action_batch := map t_action batch in
      let x_coord_batch := map t_x_coord batch in
      let y_coord_batch := map t_y_coord batch in
      let reward_batch := map t_reward batch in
      let step_type_batch := map t_step_type batch in
      let next_state_batch := map t_next_state batch in
      let out := map (forward theta) state_batch in
      state_action_values ← gather (map head_action out) action_batch;
      x_q_values ← gather (map head_x out) x_coord_batch;
      y_q_values ← gather (map head_y out) y_coord_batch;
      let next_out := map (forward theta_target) next_state_batch in
      next_state_values ← max_rows (map head_action next_out);
      next_x_q_values ← max_rows (map head_x next_out);
      next_y_q_values ← max_rows (map head_y next_out);
      td_target_actions ←
        td_target g next_state_values reward_batch step_type_batch;
      td_target_x_coord ←
        td_target g next_x_q_values reward_batch step_type_batch;
      td_target_y_coord ←
        td_target g next_y_q_values reward_batch step_type_batch;
      let q_values_cat :=
        state_action_values ++ x_q_values ++ y_q_values in
      let td_target_cat :=
        td_target_actions ++ td_target_x_coord ++ td_target_y_coord in
      Some (mse_loss q_values_cat td_target_cat)
  end.

(** [optimize]: nothing is mutated before the loss exists; then the
    optimizer updates the online network and the target network is
    synchronised when its period has come. *)
Definition optimize (batch : list transition) : method R :=
  g <- get gamma ;;
  theta <- get net ;;
  theta_target <- get target_net ;;
  loss <- try RuntimeError (batch_loss g theta theta_target batch) ;;
  opt <- get optimizer ;;
  let '(opt', theta') :=
    optimizer_step opt
      (fun th => batch_loss g th theta_target batch) theta in
  modify (set_optimizer opt') ;;;
  modify (set_net theta') ;;;
  update_target_net ;;;
  ret loss.

(** *** Notions used to state the properties of the agent *)

(** [m] is the maximum of [l]. *)
Definition is_max (m : R) (l : list R) : Prop :=
  m ∈ l /\ forall x, x ∈ l -> (x <= m)%R.

(** The predicted vector of one head as [batch_loss] gathers it: [h]
    selects the head and [ix] the column of chosen indices. *)
Definition head_predicted (theta : params) (batch : list transition)
    (h : list R * list R * list R -> list R) (ix : transition -> nat)
  : option (list R) :=
  gather (map h (map (forward theta) (map t_state batch))) (map ix batch).

(** The target vector of one head as [batch_loss] builds it. *)
Definition head_target (g : R) (theta_target : params)
    (batch : list transition) (h : list R * list R * list R -> list R)
  : option (list R) :=
  next_values ←
    max_rows (map h (map (forward theta_target) (map t_next_state batch)));
  td_target g next_values (map t_reward batch) (map t_step_type batch).

(** The predicted value of one head, in the spec's words: for every
    transition the online value at the chosen index. *)
Definition spec_predicted (theta : params) (batch : list transition)
    (h : list R * list R * list R -> list R) (ix : transition -> nat)
  : list R :=
  map (fun tr => nth (ix tr) (h (forward theta (t_state tr))) 0%R) batch.

(** The batches on which [optimize] computes a loss: not empty, every
    chosen index inside its head, and no empty head. *)
Definition well_formed (s : agent) (batch : list transition) : Prop :=
  batch <> [] /\
  forall tr, tr ∈ batch ->
    let q := forward (net s) (t_state tr) in
    let q' := forward (target_net s) (t_next_state tr) in
    ((t_action tr < length (head_action q))%nat /\
     (t_x_coord tr < length (head_x q))%nat /\
     (t_y_coord tr < length (head_y q))%nat) /\
    (head_action q' <> [] /\ head_x q' <> [] /\ head_y q' <> []).

(** The period of the target network has come. *)
Definition sync_due (s : agent) : bool :=
  negb (target_update_period s =? 0) &&
  (steps s mod target_update_period s =? 0).

(** A call of one of the agent's methods. *)
Inductive call : Type :=
| call_step (obs : observation) (d : draws)
| call_reset
| call_optimize (batch : list transition)
| call_update_target_net.

(** The agent after a call, whether it returned or raised. *)
Definition exec (c : call) (s : agent) : agent :=
  match c with
  | call_step obs d => final (step obs d s)
  | call_reset => final (reset s)
  | call_optimize batch => final (optimize batch s)
  | call_update_target_net => final (update_target_net s)
  end.

Definition run (cs : list call) (s : agent) : agent :=
  fold_left (fun s c => exec c s) cs s.

(** The call copies the online parameters into the target network: it is
    [update_target_net], or an [optimize] that reaches it, when the period
    has come. *)
Definition syncs (c : call) (s : agent) : bool :=
  match c with
  | call_update_target_net => sync_due s
  | call_optimize batch =>
      match batch_loss (gamma s) (net s) (target_net s) batch with
      | Some _ => sync_due s
      | None => false
      end
  | _ => false
  end.

(** No call of the sequence, started in [s], synchronises. *)
Fixpoint quiet (cs : list call) (s : agent) : Prop :=
  match cs with
  | [] => True
  | c :: t => syncs c s = false /\ quiet t (exec c s)
  end.

(** The agent after the decisions of [l], one observation and one set of
    random draws each. *)
Definition decisions (l : list (observation * draws)) (s : agent) : agent :=
  fold_left (fun s od => final (choose_action od.1 od.2 s)) l s.

End Model.

End BaseAgent.

(** ** [src/nico/assets/agents/BaseAgent.py]: class [CompassAgent] *)

Module CompassAgent.

(** A feature layer: rows (index [y]) of columns (index [x]). *)
Definition layer : Type := list (list Z).

(** [layer == v], the boolean mask of a comparison with a feature layer. *)
Definition eq_mask (v : Z) (l : layer) : list (list bool) :=
  map (map (fun c => c =? v)) l.

Fixpoint row_locs (y x : Z) (row : list bool) : list (Z * Z) :=
  match row with
  | [] => []
  | b :: t =>
      if b then (x, y) :: row_locs y (x + 1) t else row_locs y (x + 1) t
  end.

Fixpoint xy_locs_from (y : Z) (mask : list (list bool)) : list (Z * Z) :=
  match mask with
  | [] => []
  | row :: t => row_locs y 0 row ++ xy_locs_from (y + 1) t
  end.

(** [_xy_locs]: the [(x, y)] positions of the set entries of the mask, in
    the row-major order of [mask.nonzero()]. *)
Definition _xy_locs (mask : list (list bool)) : list (Z * Z) :=
  xy_locs_from 0 mask.

(** [np.round] of the quotient [num / den] for [0 < den]: to the nearest
    integer, a tie going to the even one. *)
Definition round_half_even (num den : Z) : Z :=
  let q := num / den in
  let r := num mod den in
  if 2 * r <? den then q
  else if den <? 2 * r then q + 1
  else if Z.even q then q else q + 1.

(** The value of [np.mean(locs, axis=0).round()]: the scalar [nan] for an
    empty list, otherwise an array of two whole numbers. *)
Inductive center : Type :=
| nan
| xy (x y : Z).

Definition Zsum (l : list Z) : Z := fold_right Z.add 0 l.

Definition mean_round (locs : list (Z * Z)) : center :=
  match locs with
  | [] => nan
  | _ :: _ =>
      let n := Z.of_nat (length locs) in
      xy (round_half_even (Zsum (map fst locs)) n)
         (round_half_even (Zsum (map snd locs)) n)
  end.

(** [math.hypot]. *)
Definition hypot (a b : R) : R := sqrt (a * a + b * b).

(** [calculate_distance].  The scalar [nan] is an instance of [float], the
    array is not.  Indexing the scalar ([beacon_center[0]]) raises
    [IndexError], modelled by [None]. *)
Definition calculate_distance (screen_player_relative screen_selected : layer)
  : option (center * center * R) :=
  let marine_center := mean_round (_xy_locs (eq_mask 1 screen_selected)) in
  let beacon_center :=
    mean_round (_xy_locs (eq_mask 3 screen_player_relative)) in
  let marine_center :=
    match marine_center with
    | nan => beacon_center
    | xy _ _ => marine_center
    end in
  match beacon_center, marine_center with
  | xy bx by_, xy mx my =>
      Some (beacon_center, marine_center,
            hypot (IZR (bx - mx)) (IZR (by_ - my)))
  | _, _ => None
  end.

(** [assets.RL.DQN_module] and [assets.smart_actions] are imported, not
    defined, by the agent: the state of the DQN module, its
    [predict_q_values], the [push] of its replay memory, and the list of
    action names [SMART_ACTIONS_SIMPLE_NAVIGATION]. *)
Class Assets : Type := {
  dqn : Type;
  predict_q_values : dqn -> layer -> list R;
  memory_push : dqn -> layer -> nat -> R -> layer -> dqn;
  SMART_ACTIONS : list string
}.

Section Model.

Context {assets : Assets}.

(** The exploration schedule. *)
Record exploration : Type := mkExploration {
  epsilon : R;
  eps_start : R;
  eps_end : R;
  eps_decay : R;
  steps_done : Z;
  choice : option policy_choice
}.

(** What [prepare_timestep] extracts from the current observation. *)
Record percept : Type := mkPercept {
  available_actions : list Z;
  feature_screen : layer;
  feature_screen2 : layer;
  state : layer;
  beacon_center : center;
  marine_center : center;
  distance : R
}.

(** What [store_transition] and [reward_shaping] extract from the next
    observation. *)
Record lookahead : Type := mkLookahead {
  env_reward : Z;
  feature_screen_next : layer;
  feature_screen_next2 : layer;
  beacon_center_next : center;
  marine_center_next : center;
  distance_next : R;
  reward_shaped : R;
  next_state : layer
}.

(** The attributes of the agent, grouped by the method that assigns
    them. An attribute read before its first assignment is not
    modelled. *)
Record agent : Type := mkAgent {
  DQN : dqn;
  action_dim : Z;
  action_idx : nat;
  schedule : exploration;
  now : percept;
  next : lookahead;
  timesteps : Z;
  (* attributes of pysc2's base agent *)
  steps : Z;
  episodes : Z;
  reward : Z
}.

Local Abbreviation method := (method agent).

Definition set_DQN (v : dqn) (s : agent) : agent :=
  mkAgent v (action_dim s) (action_idx s) (schedule s) (now s) (next s)
    (timesteps s) (steps s) (episodes s) (reward s).

Definition set_schedule (v : exploration) (s : agent) : agent :=
  mkAgent (DQN s) (action_dim s) (action_idx s) v (now s) (next s)
    (timesteps s) (steps s) (episodes s) (reward s).

Definition set_now (v : percept) (s : agent) : agent :=
  mkAgent (DQN s) (action_dim s) (action_idx s) (schedule s) v (next s)
    (timesteps s) (steps s) (episodes s) (reward s).

Definition set_next (v : lookahead) (s : agent) : agent :=
  mkAgent (DQN s) (action_dim s) (action_idx s) (schedule s) (now s) v
    (timesteps s) (steps s) (episodes s) (reward s).

Definition set_timesteps (v : Z) (s : agent) : agent :=
  mkAgent (DQN s) (action_dim s) (action_idx s) (schedule s) (now s)
    (next s) v (steps s) (episodes s) (reward s).

Definition set_steps (v : Z) (s : agent) : agent :=
  mkAgent (DQN s) (action_dim s) (action_idx s) (schedule s) (now s)
    (next s) (timesteps s) v (episodes s) (reward s).

Definition set_reward (v : Z) (s : agent) : agent :=
  mkAgent (DQN s) (action_dim s) (action_idx s) (schedule s) (now s)
    (next s) (timesteps s) (steps s) (episodes s) v.

Definition set_epsilon (v : R) (e : exploration) : exploration :=
  mkExploration v (eps_start e) (eps_end e) (eps_decay e) (steps_done e)
    (choice e).

Definition set_steps_done (v : Z) (e : exploration) : exploration :=
  mkExploration (epsilon e) (eps_start e) (eps_end e) (eps_decay e) v
    (choice e).

Definition set_choice (v : option policy_choice) (e : exploration)
  : exploration :=
  mkExploration (epsilon e) (eps_start e) (eps_end e) (eps_decay e)
    (steps_done e) v.

(** The part of an observation the agent reads. *)
Record observation : Type := mkObs {
  obs_available_actions : list Z;
  obs_player_relative : layer;
  obs_selected : layer;
  obs_reward : Z
}.

(** The value numpy's generator yields during one [choose_action]. *)
Record draws : Type := mkDraws {
  u_choice : R;
  r_action : nat
}.

(** *** Action selection *)

Definition prepare_timestep (obs : observation) : method unit :=
  modify (fun s => set_steps (steps s + 1) s) ;;;
  modify (fun s => set_reward (reward s + obs_reward obs) s) ;;;
  modify (fun s => set_timesteps (timesteps s + 1) s) ;;;
  modify (fun s =>
    set_now (mkPercept (obs_available_actions obs)
               (obs_player_relative obs) (obs_selected obs)
               (obs_player_relative obs)
               (beacon_center (now s)) (marine_center (now s))
               (distance (now s))) s) ;;;
  p <- get now ;;
  r <- try IndexError
         (calculate_distance (feature_screen p) (feature_screen2 p)) ;;
  let '(bc, mc, dist) := r in
  modify (set_now (mkPercept (available_actions p) (feature_screen p)
                     (feature_screen2 p) (state p) bc mc dist)).

Definition can_do (action : Z) : method bool :=
  get (fun s => existsb (Z.eqb action) (available_actions (now s))).

(** [c[i]] for a center: the scalar [nan] cannot be indexed. *)
Definition coord (c : center) (i : nat) : option Z :=
  match c, i with
  | xy x _, O => Some x
  | xy _ y, S O => Some y
  | _, _ => None
  end.

(** [Move_screen("now", c + (dx, dy))]. *)
Definition move_from (c : center) (dx dy : Z)
  : method (option Pysc2.FunctionCall) :=
  match c with
  | xy x y => ret (Some (Pysc2.Move_screen "now" (x + dx) (y + dy)))
  | nan => raise IndexError
  end.

(** One [if action is name: if not (blocked): return Move_screen(...)]
    statement, followed by the statements [rest].  The test [is] on two
    interned string constants is equality. *)
Definition direction (action name : string) (i : nat)
    (blocked : Z -> bool) (dx dy : Z)
    (rest : method (option Pysc2.FunctionCall))
  : method (option Pysc2.FunctionCall) :=
  if String.eqb action name then
    c <- get (fun s => marine_center (now s)) ;;
    v <- try IndexError (coord c i) ;;
    if negb (blocked v) then move_from c dx dy else rest
  else rest.

(** [translate_to_PYSC2_action]; the result [None] is Python's [None],
    returned when the end of the body is reached. *)
Definition translate_to_PYSC2_action (action : string)
  : method (option Pysc2.FunctionCall) :=
  ok <- can_do Pysc2.Move_screen_id ;;
  if ok : bool then
    direction action "left" 0 (fun v => v <=? 0) (-4) 0
      (direction action "up" 1 (fun v => v <=? 0) 0 (-4)
         (direction action "right" 0 (fun v => 83 <=? v) 4 0
            (direction action "down" 1 (fun v => 63 <=? v) 0 4
               (ret None))))
  else ret (Some Pysc2.no_op).

Definition epsilon_greedy (u : R) : method policy_choice :=
  e <- get schedule ;;
  if Req_dec_T (eps_decay e) 0 then raise ZeroDivisionError
  else
    modify (fun s =>
      set_schedule
        (set_epsilon
           (epsilon_at (eps_start (schedule s)) (eps_end (schedule s))
              (eps_decay (schedule s)) (steps_done (schedule s)))
           (schedule s)) s) ;;;
    modify (fun s =>
      set_schedule
        (set_steps_done (steps_done (schedule s) + 1) (schedule s)) s) ;;;
    eps <- get (fun s => epsilon (schedule s)) ;;
    try ValueError (random_choice u eps).

Definition is_random (c : policy_choice) : bool :=
  match c with random => true | greedy => false end.

(** [choose_action].  The module never binds the name [torch], so
    entering [with torch.no_grad()] raises [NameError]; the statements
    after it are kept as they are written. *)
Definition choose_action (agent_mode : string) (d : draws)
  : method (list (option Pysc2.FunctionCall) * nat) :=
  c <- epsilon_greedy (u_choice d) ;;
  modify (fun s => set_schedule (set_choice (Some c) (schedule s)) s) ;;;
  if is_random c && String.eqb agent_mode "learn" then
    dim <- get action_dim ;;
    idx <- try ValueError (randint dim (r_action d)) ;;
    action <- try IndexError (SMART_ACTIONS !! idx) ;;
    chosen_action <- translate_to_PYSC2_action action ;;
    ret ([chosen_action], idx)
  else
    raise (A := unit) NameError ;;;
    action_q_values <-
      get (fun s => predict_q_values (DQN s) (state (now s))) ;;
    idx <- try ValueError (Numpy.argmax Rgtb action_q_values) ;;
    best_action <- try IndexError (SMART_ACTIONS !! idx) ;;
    chosen_action <- translate_to_PYSC2_action best_action ;;
    ret ([chosen_action], idx).

(** *** Reward shaping and storage *)

Definition reward_shaping : method R :=
  n <- get next ;;
  r <- try IndexError
         (calculate_distance (feature_screen_next n)
            (feature_screen_next2 n)) ;;
  let '(bc, mc, dist) := r in
  modify (set_next (mkLookahead (env_reward n) (feature_screen_next n)
                      (feature_screen_next2 n) bc mc dist
                      (reward_shaped n) (next_state n))) ;;;
  d <- get (fun s => distance (now s)) ;;
  d_next <- get (fun s => distance_next (next s)) ;;
  let reward_shaped := (d - d_next)%R in
  let reward_shaped :=
    if Req_dec_T d 0 then 100%R else reward_shaped in
  ret reward_shaped.

Definition store_transition (next_obs : observation) : method unit :=
  modify (fun s =>
    set_next (mkLookahead (obs_reward next_obs)
                (obs_player_relative next_obs) (obs_selected next_obs)
                (beacon_center_next (next s))
                (marine_center_next (next s)) (distance_next (next s))
                (reward_shaped (next s)) (next_state (next s))) s) ;;;
  r <- reward_shaping ;;
  modify (fun s =>
    set_next (mkLookahead (env_reward (next s))
                (feature_screen_next (next s))
                (feature_screen_next2 (next s))
                (beacon_center_next (next s))
                (marine_center_next (next s)) (distance_next (next s))
                r (feature_screen_next (next s))) s) ;;;
  modify (fun s =>
    set_DQN (memory_push (DQN s) (state (now s)) (action_idx s)
               (reward_shaped (next s)) (next_state (next s))) s).

(** *** Notions used to state the properties of the agent *)

(** The agent after the decisions of [l]. *)
Definition decisions (l : list (string * draws)) (s : agent) : agent :=
  fold_left (fun s md => final (choose_action md.1 md.2 s)) l s.

(** The commanded direction would leave the screen. *)
Definition blocked (action : string) (x y : Z) : Prop :=
  (action = "left"%string /\ x <= 0) \/
  (action = "up"%string /\ y <= 0) \/
  (action = "right"%string /\ 83 <= x) \/
  (action = "down"%string /\ 63 <= y).

(** One transition as the main loop feeds it to the agent: the current
    observation to [prepare_timestep], the next one to [store_transition]. *)
Definition observe_transition (obs next_obs : observation) : method unit :=
  prepare_timestep obs ;;; store_transition next_obs.

(** The result of [reward_shaping] for the distances [d] and [d_next]. *)
Definition shaped (d d_next : R) : R :=
  if Req_dec_T d 0 then 100%R else (d - d_next)%R.

End Model.

End CompassAgent.

(** ** Worked instances *)

Module Examples.

(** A network with one real parameter, on screens that are one real
    number; its optimizer step moves the parameter by one. *)
Definition toy_forward (theta x : R) : list R * list R * list R :=
  ([theta; x; theta], [x; theta], [(theta + x)%R]).

Definition toy_optimizer_step (o : unit) (loss : R -> option R) (theta : R)
  : unit * R :=
  (o, (theta + 1)%R).

#[export] Instance toy_net : BaseAgent.AtariNet := {|
  BaseAgent.params := R;
  BaseAgent.opt_state := unit;
  BaseAgent.screen := R;
  BaseAgent.forward := toy_forward;
  BaseAgent.optimizer_step := toy_optimizer_step
|}.

(** A freshly built [BaseAgent] with target period 5: epsilon from 1 to
    0.05 with decay constant 8000, gamma 0.9. *)
Definition base_agent : BaseAgent.agent :=
  BaseAgent.mkAgent 0%R 0%R tt 84 1%R 1%R (5 / 100)%R 8000%R 0 (9 / 10)%R
    0 0 5 None None 0 0 0.

(** An observation in which [Move_screen] is not available. *)
Definition base_obs : BaseAgent.observation :=
  BaseAgent.mkObs [Pysc2.no_op_id; Pysc2.select_army_id] 1%R 0.

Definition base_draws : BaseAgent.draws :=
  BaseAgent.mkDraws (1 / 2)%R 2 10 20.

(** A terminal transition with reward 100 and a mid-episode transition with
    reward 1 whose next state has maximal action value 10. *)
Definition terminal : BaseAgent.transition :=
  BaseAgent.mkTransition 1%R 0 0 0 100%R Pysc2.LAST 7%R.

Definition midway : BaseAgent.transition :=
  BaseAgent.mkTransition 1%R 1 1 0 1%R Pysc2.MID 10%R.

Definition base_batch : list BaseAgent.transition := [terminal; midway].

(** A [CompassAgent] whose DQN module is trivial. *)
Definition toy_predict (q : unit) (l : CompassAgent.layer) : list R :=
  [0%R; 1%R; 1%R; 0%R].

Definition toy_push (q : unit) (st : CompassAgent.layer) (a : nat) (r : R)
    (st' : CompassAgent.layer) : unit := q.

Definition compass_actions : list string :=
  ["left"; "up"; "right"; "down"]%string.

#[export] Instance toy_assets : CompassAgent.Assets := {|
  CompassAgent.dqn := unit;
  CompassAgent.predict_q_values := toy_predict;
  CompassAgent.memory_push := toy_push;
  CompassAgent.SMART_ACTIONS := compass_actions
|}.

Definition compass_percept (avail : list Z) (mc : CompassAgent.center)
  : CompassAgent.percept :=
  CompassAgent.mkPercept avail [] [] [] CompassAgent.nan mc 0%R.

Definition compass_lookahead : CompassAgent.lookahead :=
  CompassAgent.mkLookahead 0 [] [] CompassAgent.nan CompassAgent.nan 0%R 0%R
    [].

(** The agent with exploration from [e_start] down to 0.05, standing at
    [mc] with the actions [avail] available. *)
Definition compass_agent (e_start : R) (avail : list Z)
    (mc : CompassAgent.center) : CompassAgent.agent :=
  CompassAgent.mkAgent tt 4 0
    (CompassAgent.mkExploration 1%R e_start (5 / 100)%R 8000%R 0 None)
    (compass_percept avail mc) compass_lookahead 0 0 0 0.

(** Observations of a 4 x 5 screen: the beacon (3) in the top-left corner,
    the selected marine (1) where stated. *)
Definition beacon_layer : CompassAgent.layer :=
  [[3; 0; 0; 0]; [0; 0; 0; 0]; [0; 0; 0; 0]; [0; 0; 0; 0]; [0; 0; 0; 0]].

Definition marine_at_3_4 : CompassAgent.layer :=
  [[0; 0; 0; 0]; [0; 0; 0; 0]; [0; 0; 0; 0]; [0; 0; 0; 0]; [0; 0; 0; 1]].

Definition marine_at_3_0 : CompassAgent.layer :=
  [[0; 0; 0; 1]; [0; 0; 0; 0]; [0; 0; 0; 0]; [0; 0; 0; 0]; [0; 0; 0; 0]].

Definition no_marine : CompassAgent.layer :=
  [[0; 0; 0; 0]; [0; 0; 0; 0]; [0; 0; 0; 0]; [0; 0; 0; 0]; [0; 0; 0; 0]].

Definition obs_far : CompassAgent.observation :=
  CompassAgent.mkObs [Pysc2.no_op_id; Pysc2.Move_screen_id]
    beacon_layer marine_at_3_4 0.

Definition obs_near : CompassAgent.observation :=
  CompassAgent.mkObs [Pysc2.no_op_id; Pysc2.Move_screen_id]
    beacon_layer marine_at_3_0 0.


End Examples.

(** ** [src/BaseAgent.py]: the unit helpers of [BaseAgent] *)

Module Units.

Section Units.

(** A unit of the observation; the helpers read its [unit_type] only. *)
Context {unit : Type}.
Variable unit_type : unit -> Z.

(** The part of an observation the unit helpers read. *)
Record observation : Type := mkObs {
  single_select : list unit;
  multi_select : list unit;
  feature_units : list unit
}.

(** [len(l) > 0 and l[0].unit_type == t]. *)
Definition first_has_type (l : list unit) (t : Z) : bool :=
  (0 <? length l)%nat &&
  match l with
  | u :: _ => unit_type u =? t
  | [] => false
  end.

Definition unit_type_is_selected (obs : observation) (t : Z) : bool :=
  if first_has_type (single_select obs) t then true
  else if first_has_type (multi_select obs) t then true
  else false.

Definition get_unit_by_type (obs : observation) (t : Z) : list unit :=
  List.filter (fun u => unit_type u =? t) (feature_units obs).

End Units.

End Units.

(** ** [src/BaseAgent.py]: what a sequence of calls does to [BaseAgent] *)

Module BaseAgentTraces.

Import BaseAgent.

Section Traces.

Context {model : AtariNet}.

(** The number of [step] calls, the number of [reset] calls and the sum of
    the rewards of the observations passed to [step]. *)
Definition is_step (c : call) : bool :=
  match c with call_step _ _ => true | _ => false end.

Definition is_reset (c : call) : bool :=
  match c with call_reset => true | _ => false end.

Definition count_steps (cs : list call) : Z :=
  Z.of_nat (length (List.filter is_step cs)).

Definition count_resets (cs : list call) : Z :=
  Z.of_nat (length (List.filter is_reset cs)).

Fixpoint step_rewards (cs : list call) : Z :=
  match cs with
  | [] => 0
  | call_step obs _ :: t => obs_reward obs + step_rewards t
  | _ :: t => step_rewards t
  end.

(** The number of calls of the sequence, started in [s], that
    synchronise the target network. *)
Fixpoint sync_count (cs : list call) (s : agent) : Z :=
  match cs with
  | [] => 0
  | c :: t => (if syncs c s then 1 else 0) + sync_count t (exec c s)
  end.

End Traces.

End BaseAgentTraces.

(** ** [src/nico/assets/agents/BaseAgent.py]: the policy of [CompassAgent] *)

Module CompassPolicy.

Import CompassAgent.

(** The rest of [assets.RL.DQN_module] that the policy uses:
    [update_target_net] and [save], as functions on the state of the
    module. *)
Class Persistence {assets : Assets} : Type := {
  dqn_update_target_net : dqn -> dqn;
  dqn_save : dqn -> string -> dqn
}.

Section Policy.

Context {assets : Assets} {persistence : Persistence}.

Definition set_action_idx (v : nat) (s : agent) : agent :=
  mkAgent (DQN s) (action_dim s) v (schedule s) (now s) (next s)
    (timesteps s) (steps s) (episodes s) (reward s).

Definition set_episodes (v : Z) (s : agent) : agent :=
  mkAgent (DQN s) (action_dim s) (action_idx s) (schedule s) (now s) (next s)
    (timesteps s) (steps s) v (reward s).

(** The value of [marine_center - beacon_center]: the scalar [nan] when
    both are, an array of two [nan] when one is, otherwise the array of the
    differences. *)
Inductive relative : Type :=
| rel_nan
| rel_nans
| rel_vec (dx dy : Z).

Definition center_sub (a b : center) : relative :=
  match a, b with
  | xy ax ay, xy bx by_ => rel_vec (ax - bx) (ay - by_)
  | nan, nan => rel_nan
  | _, _ => rel_nans
  end.

(** The indices [supervised_action] names. *)
Definition left : nat := 0.
Definition up : nat := 1.
Definition right : nat := 2.
Definition down : nat := 3.

(** The chain of [if] statements of [supervised_action] on the relative
    vector [(dx, dy)]: each statement whose condition holds assigns
    [action_idx]; [None] is the local variable left unassigned. *)
Definition supervised_index (dx dy : Z) (action_choice : bool)
    (last_action_idx : nat) : option nat :=
  let right_to_beacon := 0 <? dx in
  let left_to_beacon := dx <? 0 in
  let vertically_aligned := dx =? 0 in
  let below_beacon := 0 <? dy in
  let above_beacon := dy <? 0 in
  let horizontally_aligned := dy =? 0 in
  let pick (a b : nat) := if action_choice then a else b in
  let idx := None in
  let idx :=
    if horizontally_aligned && vertically_aligned
    then Some last_action_idx else idx in
  let idx := if horizontally_aligned && right_to_beacon then Some left else idx in
  let idx := if below_beacon && vertically_aligned then Some up else idx in
  let idx := if horizontally_aligned && left_to_beacon then Some right else idx in
  let idx := if above_beacon && vertically_aligned then Some down else idx in
  let idx := if above_beacon && left_to_beacon then Some (pick right down) else idx in
  let idx := if above_beacon && right_to_beacon then Some (pick left down) else idx in
  let idx := if below_beacon && right_to_beacon then Some (pick left up) else idx in
  let idx := if below_beacon && left_to_beacon then Some (pick right up) else idx in
  idx.

(** [supervised_action], with the value [action_choice] that
    [np.random.choice([True, False])] yields.  Indexing the scalar [nan]
    raises [IndexError]; on an array of [nan] no condition holds and reading
    the unassigned [action_idx] raises [UnboundLocalError], a
    [NameError]. *)
Definition supervised_action (action_choice : bool)
  : method agent (list (option Pysc2.FunctionCall) * nat) :=
  mc <- get (fun s => marine_center (now s)) ;;
  bc <- get (fun s => beacon_center (now s)) ;;
  match center_sub mc bc with
  | rel_nan => raise IndexError
  | rel_nans => raise NameError
  | rel_vec dx dy =>
      last_action_idx <- get action_idx ;;
      idx <- try NameError
               (supervised_index dx dy action_choice last_action_idx) ;;
      action <- try IndexError (SMART_ACTIONS !! idx) ;;
      chosen_action <- translate_to_PYSC2_action action ;;
      ret ([chosen_action], idx)
  end.

(** What [policy] returns: a list of function calls, or the string
    ['reset']. *)
Inductive policy_action : Type :=
| actions (l : list (option Pysc2.FunctionCall))
| reset_request.

(** The agent together with the attributes that only the policy uses. *)
Record trainer : Type := mkTrainer {
  core : agent;
  target_update_period : Z;
  supervised_episodes : Z;
  exp_path : string;
  action : policy_action
}.

Definition set_core (v : agent) (t : trainer) : trainer :=
  mkTrainer v (target_update_period t) (supervised_episodes t) (exp_path t)
    (action t).

Definition set_action (v : policy_action) (t : trainer) : trainer :=
  mkTrainer (core t) (target_update_period t) (supervised_episodes t)
    (exp_path t) v.

(** A method of the agent, run on the agent inside the trainer. *)
Definition lift {A : Type} (m : method agent A) : method trainer A :=
  fun t =>
    match m (core t) with
    | Return a s => Return a (set_core s t)
    | Raise e s => Raise e (set_core s t)
    end.

Definition _save_model (emergency : bool) : method trainer unit :=
  path <- get exp_path ;;
  let save_path :=
    if emergency then (path ++ "/model/emergency_model.pt")%string
    else (path ++ "/model/model.pt")%string in
  lift (modify (fun s => set_DQN (dqn_save (DQN s) save_path) s)).

(** [reset]: the base class counts the episode. *)
Definition reset : method trainer unit :=
  lift (modify (fun s => set_episodes (episodes s + 1) s)) ;;;
  lift (modify (set_timesteps 0)).

Definition update_target_network : method trainer unit :=
  n <- get (fun t => episodes (core t)) ;;
  period <- get target_update_period ;;
  (if period =? 0 then raise ZeroDivisionError
   else if n mod period =? 0 then
     lift (modify (fun s => set_DQN (dqn_update_target_net (DQN s)) s))
   else ret tt) ;;;
  reset.

(** [policy] on an observation with step type [step_type], with the draws
    of the random generator that the step may consume. *)
Definition policy (step_type : Z) (obs : observation) (d : draws)
    (action_choice : bool) : method trainer policy_action :=
  let first := step_type =? Pysc2.FIRST in
  let last := step_type =? Pysc2.LAST in
  lift (prepare_timestep obs) ;;;
  (if first
   then modify (set_action (actions [Some (Pysc2.select_army "select")]))
   else ret tt) ;;;
  (if last then
     _save_model false ;;;
     update_target_network ;;;
     modify (set_action reset_request)
   else ret tt) ;;;
  (if negb first && negb last then
     n <- get (fun t => episodes (core t)) ;;
     sup <- get supervised_episodes ;;
     r <- (if n <? sup then lift (supervised_action action_choice)
           else lift (choose_action "learn" d)) ;;
     modify (set_action (actions r.1)) ;;;
     lift (modify (set_action_idx r.2))
   else ret tt) ;;;
  get action.

End Policy.

End CompassPolicy.

(** ** [src/nico/assets/agents/BaseAgent.py]: a trajectory of
    [CompassAgent] *)

Module CompassTraces.

Import CompassAgent.

(** The distance [calculate_distance] finds in an observation. *)
Definition distance_of (obs : observation) : option R :=
  match calculate_distance (obs_player_relative obs) (obs_selected obs) with
  | Some (_, _, d) => Some d
  | None => None
  end.

(** The displacement [translate_to_PYSC2_action] adds to the marine center
    for the action names ['left'], ['up'], ['right'] and ['down'], by their
    index in [supervised_action]. *)
Definition displacement (idx : nat) : Z * Z :=
  match idx with
  | 0%nat => (-4, 0)
  | 1%nat => (0, -4)
  | 2%nat => (4, 0)
  | _ => (0, 4)
  end.

Section Traces.

Context {assets : Assets}.

(** The shaped rewards along a trajectory that starts with the observation
    [obs] and continues with [rest]: each observation is the next one of
    the transition before it and the current one of the transition after
    it.  [None] when a call raises. *)
Fixpoint rewards_along (obs : observation) (rest : list observation)
    (s : agent) : option (list R) :=
  match rest with
  | [] => Some []
  | next_obs :: t =>
      match observe_transition obs next_obs s with
      | Return _ s' =>
          rs ← rewards_along next_obs t s';
          Some (reward_shaped (next s') :: rs)
      | Raise _ _ => None
      end
  end.

End Traces.

End CompassTraces.

(** ** [src/hendrik/Ghost/Architectures.py]: the sizes of
    [PytorchTutorialDQN] *)

Module Architectures.

(** [_get_filter_dimension]: the quotient is a float, one is added and
    [int] cuts the fraction off towards zero; [(w - f + 2 * p) / s + 1] is
    the fraction [(w - f + 2 * p + s) / s].  A stride of 0 raises
    [ZeroDivisionError], modelled by [None]. *)
Definition _get_filter_dimension (w f p s : Z) : option Z :=
  if s =? 0 then None else Some (Z.quot (w - f + 2 * p + s) s).

(** [np.tile(x, k)]: [k] copies of [x], one after the other. *)
Definition tile {A : Type} (x : list A) (k : nat) : list A :=
  concat (replicate k x).

(** [np.repeat(y, k)]: every element of [y], [k] times in a row. *)
Definition repeat_each {A : Type} (y : list A) (k : nat) : list A :=
  flat_map (fun e => replicate k e) y.

(** [self.xy_space]: the transpose of the two rows [tile(x_space, len(y))]
    and [repeat(y_space, len(x))], a list of pairs. *)
Definition xy_space (x_space y_space : list Z) : list (Z * Z) :=
  zip (tile x_space (length y_space)) (repeat_each y_space (length x_space)).

(** The four convolutions of [__init__] on a screen of width 84. *)
Definition tmp_w : option Z :=
  w1 ← _get_filter_dimension 84 5 0 2;
  w2 ← _get_filter_dimension w1 3 0 2;
  w3 ← _get_filter_dimension w2 3 0 2;
  _get_filter_dimension w3 3 0 2.

End Architectures.

(** ** Further worked instances *)

Module Scenarios.

Import Examples.

(** A network whose action head has four outputs, one more than
    [SMART_ACTIONS] has entries, the greatest being the last. *)
Definition wide_forward (theta x : R) : list R * list R * list R :=
  ([0%R; 0%R; 0%R; 1%R], [x; theta], [(theta + x)%R]).

Definition wide_net : BaseAgent.AtariNet := {|
  BaseAgent.params := R;
  BaseAgent.opt_state := unit;
  BaseAgent.screen := R;
  BaseAgent.forward := wide_forward;
  BaseAgent.optimizer_step := toy_optimizer_step
|}.

(** A [BaseAgent] over [wide_net] whose exploration rate stays at 0.05. *)
Definition greedy_agent : BaseAgent.agent (model := wide_net) :=
  BaseAgent.mkAgent (model := wide_net) 0%R 0%R tt 84 1%R (5 / 100)%R
    (5 / 100)%R 8000%R 0 (9 / 10)%R 0 0 5 None None 0 0 0.

Definition wide_obs : BaseAgent.observation (model := wide_net) :=
  BaseAgent.mkObs (model := wide_net)
    [Pysc2.no_op_id; Pysc2.select_army_id] 1%R 0.

(** A DQN module that keeps the list of the operations applied to it,
    the latest first. *)
Definition logging_push (q : list string) (st : CompassAgent.layer)
    (a : nat) (r : R) (st' : CompassAgent.layer) : list string :=
  "push"%string :: q.

Definition logging_update_target_net (q : list string) : list string :=
  "update_target_net"%string :: q.

Definition logging_save (q : list string) (path : string) : list string :=
  ("save " ++ path)%string :: q.

Definition logging_assets : CompassAgent.Assets := {|
  CompassAgent.dqn := list string;
  CompassAgent.predict_q_values := fun _ _ => [0%R; 1%R; 1%R; 0%R];
  CompassAgent.memory_push := logging_push;
  CompassAgent.SMART_ACTIONS := compass_actions
|}.

Definition logging_persistence
  : CompassPolicy.Persistence (assets := logging_assets) :=
  @CompassPolicy.Build_Persistence logging_assets
    logging_update_target_net logging_save.

(** A trainer over the logging module, before its first episode, with the
    target period [period] and no supervised episodes. *)
Definition logging_trainer (period : Z)
  : CompassPolicy.trainer (assets := logging_assets) :=
  CompassPolicy.mkTrainer (assets := logging_assets)
    (CompassAgent.mkAgent (assets := logging_assets) [] 4 0
       (CompassAgent.mkExploration 1%R 1%R (5 / 100)%R 8000%R 0 None)
       (compass_percept [] CompassAgent.nan) compass_lookahead 0 0 0 0)
    period 0 "exp" (CompassPolicy.actions []).

(** An observation of the 4 x 5 screen without a beacon. *)
Definition obs_no_beacon : CompassAgent.observation :=
  CompassAgent.mkObs [Pysc2.no_op_id; Pysc2.Move_screen_id]
    no_marine marine_at_3_4 0.

Definition compass_draws : CompassAgent.draws :=
  CompassAgent.mkDraws (1 / 2)%R 0.

End Scenarios.

(** * Properties *)

(** ** numpy primitives *)

Module NumpyFacts.

Import Numpy.

Section Argmax.
Context {A : Type}.
Variable gtb : A -> A -> bool.

Local Abbreviation argmax_from := (argmax_from gtb).
Local Abbreviation argmax := (argmax gtb).
Local Abbreviation first_max := (first_max gtb).

Hypothesis gtb_irrefl : forall a, gtb a a = false.
Hypothesis gtb_trans :
  forall a b c, gtb a b = true -> gtb b c = true -> gtb a c = true.
Hypothesis gtb_neg_trans :
  forall a b c, gtb a b = false -> gtb b c = false -> gtb a c = false.

Lemma argmax_from_first_max (l pre : list A) (best : A) (best_i : nat) :
  pre !! best_i = Some best ->
  (forall j x, pre !! j = Some x -> gtb x best = false) ->
  (forall j x, (j < best_i)%nat -> pre !! j = Some x -> gtb best x = true) ->
  first_max (pre ++ l) (argmax_from best best_i (length pre) l).
Proof.
  revert pre best best_i.
  induction l as [| x t IH]; intros pre best best_i Hbest Hmax Hfirst.
  - simpl. rewrite app_nil_r. exists best. auto.
  - simpl. replace (pre ++ x :: t) with ((pre ++ [x]) ++ t)
      by (rewrite <- app_assoc; reflexivity).
    replace (S (length pre)) with (length (pre ++ [x]))
      by (rewrite length_app; simpl; lia).
    destruct (gtb x best) eqn:Hx.
    + apply IH.
      * rewrite lookup_app_r by lia. rewrite Nat.sub_diag. reflexivity.
      * intros j y Hj.
        destruct (lookup_app_Some pre [x] j y) as [Hsplit _].
        destruct (Hsplit Hj) as [Hpre | [_ Hlast]].
        -- destruct (gtb y x) eqn:Hyx; [| reflexivity].
           specialize (Hmax j y Hpre).
           rewrite (gtb_trans _ _ _ Hyx Hx) in Hmax. discriminate Hmax.
        -- destruct (j - length pre)%nat; simpl in Hlast; [| discriminate].
           injection Hlast as <-. apply gtb_irrefl.
      * intros j y Hlt Hj. rewrite lookup_app_l in Hj by exact Hlt.
        destruct (gtb x y) eqn:Hxy; [reflexivity |].
        rewrite (gtb_neg_trans _ _ _ Hxy (Hmax j y Hj)) in Hx.
        discriminate Hx.
    + apply IH.
      * rewrite lookup_app_l; [exact Hbest |].
        apply lookup_lt_Some in Hbest. exact Hbest.
      * intros j y Hj.
        destruct (lookup_app_Some pre [x] j y) as [Hsplit _].
        destruct (Hsplit Hj) as [Hpre | [_ Hlast]].
        -- apply (Hmax j y Hpre).
        -- destruct (j - length pre)%nat; simpl in Hlast; [| discriminate].
           injection Hlast as <-. exact Hx.
      * intros j y Hlt Hj. apply (Hfirst j y Hlt).
        apply lookup_lt_Some in Hbest.
        rewrite lookup_app_l in Hj by lia. exact Hj.
Qed.

Lemma argmax_first_max (l : list A) (i : nat) :
  argmax l = Some i -> first_max l i.
Proof.
  destruct l as [| x t]; [discriminate |].
  simpl. intros [= <-].
  apply (argmax_from_first_max t [x] x 0%nat).
  - reflexivity.
  - intros [| j] y Hj; simpl in Hj; [| discriminate].
    injection Hj as <-. apply gtb_irrefl.
  - intros j y Hlt. lia.
Qed.

Lemma argmax_nonempty (l : list A) : l <> [] -> exists i, argmax l = Some i.
Proof. destruct l; [congruence | eexists; reflexivity]. Qed.

End Argmax.

Lemma where_eq_from_spec (c : Z) (v : list Z) (i j : nat) :
  j ∈ where_eq_from i c v <-> (i <= j)%nat /\ v !! (j - i)%nat = Some c.
Proof.
  revert i. induction v as [| x t IH]; intros i; simpl.
  - split; [intros H; inversion H | intros [_ H]; discriminate H].
  - assert (Htail : j ∈ where_eq_from (S i) c t <->
                    (i < j)%nat /\ (x :: t) !! (j - i)%nat = Some c).
    { rewrite IH. split.
      - intros [Hle Hj]. split; [lia |].
        replace (j - i)%nat with (S (j - S i)) by lia. exact Hj.
      - intros [Hlt Hj]. split; [lia |].
        replace (j - i)%nat with (S (j - S i)) in Hj by lia. exact Hj. }
    destruct (Z.eqb_spec x c) as [-> | Hne].
    + rewrite elem_of_cons, Htail. split.
      * intros [-> | [Hlt Hj]]; [| split; [lia | exact Hj]].
        split; [lia |]. rewrite Nat.sub_diag. reflexivity.
      * intros [Hle Hj].
        destruct (decide (j = i)) as [-> | Hji]; [left; reflexivity |].
        right. split; [lia | exact Hj].
    + rewrite Htail. split.
      * intros [Hlt Hj]. split; [lia | exact Hj].
      * intros [Hle Hj]. split; [| exact Hj].
        destruct (decide (j = i)) as [-> | Hji]; [| lia].
        rewrite Nat.sub_diag in Hj. simpl in Hj. congruence.
Qed.

Lemma where_eq_spec (c : Z) (v : list Z) (j : nat) :
  j ∈ where_eq c v <-> v !! j = Some c.
Proof.
  unfold where_eq. rewrite where_eq_from_spec, Nat.sub_0_r.
  split; [intros [_ H]; exact H | intros H; split; [lia | exact H]].
Qed.

(** Reading the listed positions of [src] and storing them at the same
    positions of [dst] replaces exactly the listed entries of [dst] by those
    of [src]. *)
Lemma put_take_idx {A : Type} (src : list A) (idx : list nat) (dst : list A) :
  (forall i, i ∈ idx -> (i < length src)%nat /\ (i < length dst)%nat) ->
  exists vals r,
    take_idx src idx = Some vals /\ put_idx dst idx vals = Some r /\
    length r = length dst /\
    forall j, r !! j = if decide (j ∈ idx) then src !! j else dst !! j.
Proof.
  revert dst. induction idx as [| i t IH]; intros dst Hb.
  - exists [], dst. simpl. do 3 (split; [reflexivity |]).
    intros j. destruct (decide (j ∈ [])) as [Hin | _]; [inversion Hin | done].
  - destruct (Hb i) as [Hsrc Hdst]; [left |].
    destruct (lookup_lt_is_Some_2 src i Hsrc) as [x Hx].
    destruct (IH (<[i := x]> dst)) as (vals & r & Ht & Hp & Hlen & Hr).
    { intros k Hk. rewrite length_insert. apply Hb. right. exact Hk. }
    exists (x :: vals), r. simpl. rewrite Hx, Ht.
    destruct (Nat.ltb_spec i (length dst)) as [_ | Hge]; [| lia].
    rewrite length_insert in Hlen.
    split; [reflexivity |]. split; [exact Hp |]. split; [exact Hlen |].
    intros j. rewrite Hr.
    destruct (decide (j ∈ t)) as [Hjt | Hjt].
    + rewrite decide_True by (right; exact Hjt). reflexivity.
    + destruct (decide (j = i)) as [-> | Hji].
      * rewrite decide_True by left.
        rewrite list_lookup_insert_eq by exact Hdst. symmetry. exact Hx.
      * rewrite decide_False.
        -- apply list_lookup_insert_ne. congruence.
        -- rewrite elem_of_cons. tauto.
Qed.

End NumpyFacts.

(** ** Reasoning about methods *)

Lemma preserves_ret {St A X} (f : St -> X) (a : A) : preserves f (ret a).
Proof. intros s. reflexivity. Qed.

Lemma preserves_raise {St A X} (f : St -> X) (e : exn) :
  preserves f (raise (A := A) e).
Proof. intros s. reflexivity. Qed.

Lemma preserves_get {St A X} (f : St -> X) (g : St -> A) :
  preserves f (get g).
Proof. intros s. reflexivity. Qed.

Lemma preserves_try {St A X} (f : St -> X) (e : exn) (o : option A) :
  preserves f (try e o).
Proof. destruct o; intros s; reflexivity. Qed.

Lemma preserves_modify {St X} (f : St -> X) (g : St -> St) :
  (forall s, f (g s) = f s) -> preserves f (modify g).
Proof. intros H s. apply H. Qed.

Lemma preserves_bind {St A B X} (f : St -> X)
    (m : method St A) (k : A -> method St B) :
  preserves f m -> (forall a, preserves f (k a)) -> preserves f (bind m k).
Proof.
  intros Hm Hk s. unfold bind.
  specialize (Hm s). destruct (m s) as [a s1 | e s1]; simpl in *.
  - rewrite Hk. exact Hm.
  - exact Hm.
Qed.

Lemma bind_Return_inv {St A B} (m : method St A) (k : A -> method St B)
    (s s' : St) (b : B) :
  bind m k s = Return b s' ->
  exists a s1, m s = Return a s1 /\ k a s1 = Return b s'.
Proof.
  unfold bind. destruct (m s) as [a s1 | e s1]; intros H.
  - exists a, s1. split; [reflexivity | exact H].
  - discriminate H.
Qed.

Lemma try_Return_inv {St A} (e : exn) (o : option A) (s s' : St) (a : A) :
  try e o s = Return a s' -> o = Some a /\ s' = s.
Proof.
  destruct o as [x |]; simpl; unfold ret, raise; intros H.
  - inversion H. split; reflexivity.
  - discriminate H.
Qed.

Lemma final_bind {St A B} (m : method St A) (k : A -> method St B) (s : St) :
  final (bind m k s) =
  match m s with
  | Return a s1 => final (k a s1)
  | Raise _ s1 => s1
  end.
Proof. unfold bind. destruct (m s); reflexivity. Qed.

Create HintDb preserves.

(** Discharges [preserves f m] for a method built from the combinators and
    from the methods registered in the database [preserves]. *)
Ltac preserved :=
  repeat first
    [ apply preserves_ret | apply preserves_raise | apply preserves_get
    | apply preserves_try
    | solve [auto with preserves]
    | apply preserves_modify; intros; reflexivity
    | apply preserves_bind; [| intros ? ]
    | match goal with
      | |- preserves _ (if ?b then _ else _) => destruct b
      | |- preserves _ (match ?x with _ => _ end) => destruct x
      | |- preserves _ (let '(_, _) := ?x in _) => destruct x
      end ].

(** Reads a hypothesis [m s = Return a s'] back through the combinators. *)
Ltac method_inv :=
  repeat match goal with
    | H : bind _ _ _ = Return _ _ |- _ =>
        apply bind_Return_inv in H; destruct H as (? & ? & ? & H)
    | H : try _ _ _ = Return _ _ |- _ =>
        apply try_Return_inv in H; destruct H as [? ?]; subst
    | H : ret _ _ = Return _ _ |- _ => inversion H; subst; clear H
    | H : modify _ _ = Return _ _ |- _ => inversion H; subst; clear H
    | H : get _ _ = Return _ _ |- _ => inversion H; subst; clear H
    | H : raise _ _ = Return _ _ |- _ => discriminate H
    end.

(** *** The greedy index over real values *)

Lemma Rgtb_true (a b : R) : Rgtb a b = true <-> (b < a)%R.
Proof. unfold Rgtb. destruct (Rlt_dec b a); split; try done. Qed.

Lemma Rgtb_false (a b : R) : Rgtb a b = false <-> (a <= b)%R.
Proof. unfold Rgtb. destruct (Rlt_dec b a); split; try done; lra. Qed.

Lemma argmax_first_argmax (l : list R) (i : nat) :
  Numpy.argmax Rgtb l = Some i -> first_argmax l i.
Proof.
  intros H. apply NumpyFacts.argmax_first_max in H.
  - destruct H as (v & Hv & Hmax & Hfirst). exists v.
    split; [exact Hv |]. split.
    + intros j x Hj. apply Rgtb_false. exact (Hmax j x Hj).
    + intros j x Hlt Hj. apply Rgtb_true. exact (Hfirst j x Hlt Hj).
  - intros a. apply Rgtb_false. lra.
  - intros a b c. rewrite !Rgtb_true. lra.
  - intros a b c. rewrite !Rgtb_false. lra.
Qed.

(** The argmax with first-index ties is unique. *)
Lemma first_argmax_unique (l : list R) (i j : nat) :
  first_argmax l i -> first_argmax l j -> i = j.
Proof.
  intros (v & Hv & Hmax & Hfirst) (w & Hw & Hmax' & Hfirst').
  destruct (Nat.lt_total i j) as [Hlt | [Heq | Hgt]]; [| exact Heq |].
  - specialize (Hfirst' i v Hlt Hv). specialize (Hmax j w Hw). lra.
  - specialize (Hfirst j w Hgt Hw). specialize (Hmax' i v Hv). lra.
Qed.

(** ** [BaseAgent] *)

Module BaseAgentFacts.

Import BaseAgent.

Section Facts.

Context {model : AtariNet}.

Local Abbreviation method := (method agent).

(** *** Facts about action selection *)

Lemma can_do_In (obs : observation) (a : Z) :
  can_do obs a = true <-> In a (available_actions obs).
Proof.
  unfold can_do. rewrite existsb_exists. split.
  - intros (b & Hb & Hab). apply Z.eqb_eq in Hab. subst b. exact Hb.
  - intros Ha. exists a. split; [exact Ha | apply Z.eqb_refl].
Qed.

Lemma get_action_unavailable (obs : observation) (a x y : Z) :
  ~ In a (available_actions obs) -> get_action obs a x y = Some Pysc2.no_op.
Proof.
  intros Hn. unfold get_action.
  destruct (can_do obs a) eqn:Hc; [| reflexivity].
  apply can_do_In in Hc. contradiction.
Qed.

Lemma get_action_emits_available (obs : observation) (a x y : Z) :
  In a SMART_ACTIONS ->
  In Pysc2.no_op_id (available_actions obs) ->
  exists fc, get_action obs a x y = Some fc /\
             In (Pysc2.function_id fc) (available_actions obs).
Proof.
  intros Ha Hnoop. unfold get_action.
  destruct (can_do obs a) eqn:Hc.
  - apply can_do_In in Hc.
    destruct Ha as [<- | [<- | [<- | []]]]; simpl; eexists; split;
      try reflexivity; exact Hc.
  - eexists. split; [reflexivity | exact Hnoop].
Qed.

Lemma epsilon_greedy_final (u : R) (s : agent) :
  eps_decay s <> 0%R ->
  final (epsilon_greedy u s) =
  set_steps_done (steps_done s + 1)
    (set_epsilon
       (epsilon_at (eps_start s) (eps_end s) (eps_decay s) (steps_done s)) s).
Proof.
  intros Hd. unfold epsilon_greedy, bind, get, modify. simpl.
  destruct (Req_dec_T (eps_decay s) 0) as [H0 | _]; [contradiction |].
  simpl. destruct (random_choice u _); reflexivity.
Qed.

Lemma epsilon_greedy_Return (u : R) (s s' : agent) (c : policy_choice) :
  epsilon_greedy u s = Return c s' ->
  eps_decay s <> 0%R /\ s' = final (epsilon_greedy u s) /\
  random_choice u (epsilon s') = Some c.
Proof.
  intros H. split; [| split].
  - intros H0. unfold epsilon_greedy, bind, get in H.
    destruct (Req_dec_T (eps_decay s) 0); [discriminate H | contradiction].
  - rewrite H. reflexivity.
  - unfold epsilon_greedy, bind, get, modify in H.
    destruct (Req_dec_T (eps_decay s) 0); [discriminate H |].
    simpl in H.
    destruct (random_choice u _) eqn:Hc; simpl in H; inversion H; subst.
    exact Hc.
Qed.

Lemma epsilon_greedy_returns (u : R) (s : agent) :
  eps_decay s <> 0%R ->
  (0 <= epsilon_at (eps_start s) (eps_end s) (eps_decay s) (steps_done s)
   <= 1)%R ->
  exists c, epsilon_greedy u s = Return c (final (epsilon_greedy u s)).
Proof.
  intros Hd [Hlo Hhi]. unfold epsilon_greedy, bind, get, modify. simpl.
  destruct (Req_dec_T (eps_decay s) 0) as [H0 | _]; [contradiction |].
  simpl. unfold random_choice.
  destruct (Rle_dec 0 _) as [_ | Hn]; [| contradiction].
  destruct (Rle_dec 0 (1 - _)) as [_ | Hn]; [| exfalso; apply Hn; lra].
  destruct (Rlt_dec u _); eexists; reflexivity.
Qed.

(** Whatever follows [epsilon_greedy] inside [choose_action] leaves the
    schedule alone. *)
Lemma choose_action_steps_done (obs : observation) (d : draws) (s : agent) :
  eps_decay s <> 0%R ->
  steps_done (final (choose_action obs d s)) = (steps_done s + 1)%Z /\
  epsilon (final (choose_action obs d s)) =
    epsilon_at (eps_start s) (eps_end s) (eps_decay s) (steps_done s).
Proof.
  intros Hd. unfold choose_action. rewrite final_bind.
  pose proof (epsilon_greedy_final (u_choice d) s Hd) as Hf.
  destruct (epsilon_greedy (u_choice d) s) as [c s1 | e s1]; simpl in Hf.
  - match goal with |- context [final (?m s1)] =>
      assert (Hsd : preserves steps_done m) by preserved;
      assert (Heps : preserves epsilon m) by preserved
    end.
    rewrite Hsd, Heps, Hf. split; reflexivity.
  - rewrite Hf. split; reflexivity.
Qed.

Lemma choose_action_emits (obs : observation) (d : draws) (s s' : agent)
    (acts : list (option Pysc2.FunctionCall)) (ai x y : nat) :
  choose_action obs d s = Return (acts, ai, x, y) s' ->
  exists a, SMART_ACTIONS !! ai = Some a /\
            acts = [get_action obs a (Z.of_nat x) (Z.of_nat y)].
Proof.
  unfold choose_action. intros H. method_inv.
  match goal with c : policy_choice |- _ => destruct c end.
  - method_inv. eexists. split; [eassumption | reflexivity].
  - method_inv.
    match goal with
    | Hq : context [forward ?th ?o] |- _ =>
        destruct (forward th o) as [[qa qx] qy]
    end.
    method_inv. eexists. split; [eassumption | reflexivity].
Qed.

Lemma choose_action_greedy (obs : observation) (d : draws) (s s' : agent)
    (acts : list (option Pysc2.FunctionCall)) (ai x y : nat) :
  choose_action obs d s = Return (acts, ai, x, y) s' ->
  choice s' = Some greedy ->
  let q := forward (net s) (player_relative obs) in
  Numpy.argmax Rgtb (head_action q) = Some ai /\
  Numpy.argmax Rgtb (head_x q) = Some x /\
  Numpy.argmax Rgtb (head_y q) = Some y.
Proof.
  unfold choose_action. intros H Hc. method_inv.
  match goal with
  | He : epsilon_greedy _ _ = Return _ _ |- _ =>
      apply epsilon_greedy_Return in He; destruct He as (Hd & Hs & _);
      rewrite (epsilon_greedy_final _ _ Hd) in Hs; subst
  end.
  match goal with c : policy_choice |- _ => destruct c end.
  - method_inv. simpl in Hc. discriminate Hc.
  - method_inv. simpl in *.
    destruct (forward (net s) (player_relative obs)) as [[qa qx] qy].
    method_inv. simpl. auto.
Qed.

Lemma choose_action_greedy_returns (obs : observation) (d : draws) (s : agent) :
  eps_decay s <> 0%R ->
  let eps :=
    epsilon_at (eps_start s) (eps_end s) (eps_decay s) (steps_done s) in
  let q := forward (net s) (player_relative obs) in
  (0 <= eps <= 1)%R -> (eps <= u_choice d)%R ->
  head_action q <> [] -> (length (head_action q) <= 3)%nat ->
  head_x q <> [] -> head_y q <> [] ->
  exists acts ai x y s',
    choose_action obs d s = Return (acts, ai, x, y) s' /\
    choice s' = Some greedy.
Proof.
  intros Hd eps q [Hlo Hhi] Hu Ha Hlen Hx Hy.
  destruct (NumpyFacts.argmax_nonempty Rgtb _ Ha) as [ai Hai].
  destruct (NumpyFacts.argmax_nonempty Rgtb _ Hx) as [x Hxi].
  destruct (NumpyFacts.argmax_nonempty Rgtb _ Hy) as [y Hyi].
  assert (Hlt : (ai < length SMART_ACTIONS)%nat).
  { destruct (argmax_first_argmax _ _ Hai) as (v & Hv & _).
    apply lookup_lt_Some in Hv. simpl. lia. }
  destruct (lookup_lt_is_Some_2 _ _ Hlt) as [a Hsa].
  unfold choose_action, epsilon_greedy, bind, get, modify. simpl.
  destruct (Req_dec_T (eps_decay s) 0) as [H0 | _]; [contradiction |].
  simpl. fold eps. unfold random_choice.
  destruct (Rle_dec 0 eps) as [_ | Hn]; [| contradiction].
  destruct (Rle_dec 0 (1 - eps)) as [_ | Hn]; [| exfalso; apply Hn; lra].
  destruct (Rlt_dec (u_choice d) eps) as [Hlt' | _]; [lra |].
  simpl. fold q.
  destruct q as [[qa qx] qy]. unfold head_action, head_x, head_y in *.
  simpl in *. rewrite Hai. simpl. rewrite Hsa. simpl.
  rewrite Hxi. simpl. rewrite Hyi. simpl.
  do 5 eexists. split; reflexivity.
Qed.

(** *** Facts about the loss *)

Lemma fold_left_Rmax (t : list R) (x : R) :
  (fold_left Rmax t x = x \/ fold_left Rmax t x ∈ t) /\
  (x <= fold_left Rmax t x)%R /\
  (forall y, y ∈ t -> (y <= fold_left Rmax t x)%R).
Proof.
  revert x. induction t as [| a t IH]; intros x; simpl.
  - split; [left; reflexivity |]. split; [lra |].
    intros y Hy. inversion Hy.
  - destruct (IH (Rmax x a)) as (Hin & Hle & Hall).
    pose proof (Rmax_l x a) as Hl. pose proof (Rmax_r x a) as Hr.
    split; [| split].
    + destruct Hin as [Heq | Hin]; [| right; right; exact Hin].
      rewrite Heq. unfold Rmax. destruct (Rle_dec x a).
      * right. left.
      * left. reflexivity.
    + lra.
    + intros y Hy. apply elem_of_cons in Hy as [-> | Hy]; [lra |].
      apply Hall. exact Hy.
Qed.

Lemma row_max_is_max (row : list R) (m : R) :
  row_max row = Some m -> is_max m row.
Proof.
  destruct row as [| x t]; [discriminate |]. simpl. intros [= <-].
  destruct (fold_left_Rmax t x) as (Hin & Hle & Hall). split.
  - destruct Hin as [-> | Hin]; [left | right; exact Hin].
  - intros y Hy. apply elem_of_cons in Hy as [-> | Hy]; auto.
Qed.

Lemma max_rows_map {X : Type} (f : X -> list R) (l : list X) :
  (forall x, x ∈ l -> f x <> []) ->
  exists nv, max_rows (map f l) = Some nv /\ length nv = length l /\
    forall i x, l !! i = Some x ->
      exists m, nv !! i = Some m /\ is_max m (f x).
Proof.
  unfold max_rows. induction l as [| a l IH]; intros Hne.
  - exists []. split; [reflexivity |]. split; [reflexivity |].
    intros i x Hi. discriminate Hi.
  - destruct IH as (nv & Hnv & Hlen & Hspec).
    { intros x Hx. apply Hne. right. exact Hx. }
    destruct (row_max (f a)) as [m |] eqn:Hm.
    + exists (m :: nv). simpl. rewrite Hm. simpl. rewrite Hnv. simpl.
      split; [reflexivity |]. split; [lia |].
      intros [| i] x Hi; simpl in Hi.
      * injection Hi as <-. exists m. split; [reflexivity |].
        apply row_max_is_max. exact Hm.
      * apply Hspec. exact Hi.
    + exfalso. apply (Hne a); [left |].
      destruct (f a); [reflexivity | discriminate Hm].
Qed.

Lemma gather_map {X : Type} (f : X -> list R) (ix : X -> nat)
    (v : X -> R) (l : list X) :
  (forall x, x ∈ l -> f x !! ix x = Some (v x)) ->
  gather (map f l) (map ix l) = Some (map v l).
Proof.
  unfold gather. induction l as [| a l IH]; intros H; [reflexivity |].
  simpl. rewrite (H a) by left. simpl.
  rewrite IH by (intros x Hx; apply H; right; exact Hx). reflexivity.
Qed.

Lemma td_target_spec (g : R) (nv rw : list R) (st : list Z) :
  length nv = length rw -> length st = length rw ->
  exists td, td_target g nv rw st = Some td /\ length td = length rw /\
    forall i n x t,
      nv !! i = Some n -> rw !! i = Some x -> st !! i = Some t ->
      td !! i = Some (if t =? 2 then x else (n * g + x)%R).
Proof.
  intros Hnv Hst. unfold td_target.
  destruct (NumpyFacts.put_take_idx rw (Numpy.where_eq 2 st)
              (zip_with (fun nv0 r => (nv0 * g + r)%R) nv rw))
    as (vals & td & Ht & Hp & Hlen & Htd).
  { intros i Hi. apply NumpyFacts.where_eq_spec, lookup_lt_Some in Hi.
    rewrite length_zip_with. lia. }
  exists td. rewrite Ht. simpl. split; [exact Hp |].
  split; [rewrite Hlen, length_zip_with; lia |].
  intros i n x t Hn Hx Hti. rewrite Htd.
  destruct (decide (i ∈ Numpy.where_eq 2 st)) as [Hin | Hnin].
  - apply NumpyFacts.where_eq_spec in Hin.
    assert (t = 2) as -> by congruence. simpl. exact Hx.
  - destruct (Z.eqb_spec t 2) as [-> | Hne].
    + exfalso. apply Hnin, NumpyFacts.where_eq_spec. exact Hti.
    + rewrite lookup_zip_with, Hn. simpl. rewrite Hx. reflexivity.
Qed.

Lemma batch_loss_heads (g : R) (theta theta_target : params)
    (batch : list transition) :
  batch <> [] ->
  batch_loss g theta theta_target batch =
  (qa ← head_predicted theta batch head_action t_action;
   qx ← head_predicted theta batch head_x t_x_coord;
   qy ← head_predicted theta batch head_y t_y_coord;
   ta ← head_target g theta_target batch head_action;
   tx ← head_target g theta_target batch head_x;
   ty ← head_target g theta_target batch head_y;
   Some (mse_loss (qa ++ qx ++ qy) (ta ++ tx ++ ty))).
Proof.
  intros Hne. destruct batch as [| tr batch]; [congruence |].
  unfold batch_loss, head_predicted, head_target.
  generalize (tr :: batch). intros b.
  repeat match goal with
    | |- context [gather ?q ?i] =>
        destruct (gather q i); cbn [mbind option_bind]
    end; try reflexivity.
  repeat match goal with
    | |- context [max_rows ?q] =>
        destruct (max_rows q); cbn [mbind option_bind]
    end; try reflexivity;
  repeat match goal with
    | |- context [td_target ?a ?b ?c ?d] =>
        destruct (td_target a b c d); cbn [mbind option_bind]
    end; reflexivity.
Qed.

Lemma head_predicted_spec (theta : params) (batch : list transition)
    (h : list R * list R * list R -> list R) (ix : transition -> nat)
    (q : list R) :
  head_predicted theta batch h ix = Some q ->
  q = spec_predicted theta batch h ix.
Proof.
  unfold head_predicted, spec_predicted, gather. revert q.
  induction batch as [| tr batch IH]; intros q; simpl.
  - intros [= <-]. reflexivity.
  - destruct (h (forward theta (t_state tr)) !! ix tr) as [v |] eqn:Hv;
      simpl; [| discriminate].
    destruct (mapM _ _) as [r |]; simpl; [| discriminate].
    intros [= <-]. rewrite (nth_lookup_Some _ _ _ _ Hv).
    f_equal. apply IH. reflexivity.
Qed.

Lemma head_predicted_Some (theta : params) (batch : list transition)
    (h : list R * list R * list R -> list R) (ix : transition -> nat) :
  (forall tr, tr ∈ batch ->
     (ix tr < length (h (forward theta (t_state tr))))%nat) ->
  head_predicted theta batch h ix = Some (spec_predicted theta batch h ix).
Proof.
  intros Hb. unfold head_predicted, spec_predicted.
  rewrite !map_map.
  apply (gather_map (fun tr => h (forward theta (t_state tr))) ix).
  intros tr Htr. specialize (Hb tr Htr).
  destruct (nth_lookup_or_length (h (forward theta (t_state tr))) (ix tr) 0%R)
    as [Hv | Hge]; [exact Hv | lia].
Qed.


Lemma head_target_defined (g : R) (theta_target : params)
    (batch : list transition) (h : list R * list R * list R -> list R) :
  (forall tr, tr ∈ batch -> h (forward theta_target (t_next_state tr)) <> []) ->
  exists td, head_target g theta_target batch h = Some td.
Proof.
  intros Hne. unfold head_target.
  destruct (max_rows_map
              (fun tr => h (forward theta_target (t_next_state tr))) batch Hne)
    as (nv & Hnv & Hlen & _).
  rewrite !map_map. rewrite Hnv. cbn [mbind option_bind].
  destruct (td_target_spec g nv (map t_reward batch) (map t_step_type batch))
    as (td & Htd & _).
  - rewrite length_map. exact Hlen.
  - rewrite !length_map. reflexivity.
  - exists td. exact Htd.
Qed.

Lemma head_target_length (g : R) (theta_target : params)
    (batch : list transition) (h : list R * list R * list R -> list R)
    (td : list R) :
  head_target g theta_target batch h = Some td -> length td = length batch.
Proof.
  unfold head_target. intros H.
  destruct (max_rows _) as [nv |] eqn:Hnv; [| discriminate H].
  cbn [mbind option_bind] in H.
  apply length_mapM in Hnv. rewrite !length_map in Hnv.
  destruct (td_target_spec g nv (map t_reward batch) (map t_step_type batch))
    as (td' & Htd & Hlen & _).
  - rewrite length_map. symmetry. exact Hnv.
  - rewrite !length_map. reflexivity.
  - rewrite H in Htd. injection Htd as ->.
    rewrite Hlen, length_map. reflexivity.
Qed.

Lemma batch_loss_defined (s : agent) (batch : list transition) :
  well_formed s batch ->
  exists loss, batch_loss (gamma s) (net s) (target_net s) batch = Some loss.
Proof.
  intros [Hne Hwf]. rewrite batch_loss_heads by exact Hne.
  rewrite !head_predicted_Some
    by (intros tr Htr; destruct (Hwf tr Htr) as [(? & ? & ?) _]; assumption).
  cbn [mbind option_bind].
  destruct (head_target_defined (gamma s) (target_net s) batch head_action)
    as [ta ->]; [intros tr Htr; apply (Hwf tr Htr) |].
  destruct (head_target_defined (gamma s) (target_net s) batch head_x)
    as [tx ->]; [intros tr Htr; apply (Hwf tr Htr) |].
  destruct (head_target_defined (gamma s) (target_net s) batch head_y)
    as [ty ->]; [intros tr Htr; apply (Hwf tr Htr) |].
  cbn [mbind option_bind]. eexists. reflexivity.
Qed.

Lemma update_target_net_returns (s : agent) :
  target_update_period s <> 0 ->
  exists s', update_target_net s = Return tt s'.
Proof.
  intros Hp. unfold update_target_net, bind, get, modify. simpl.
  destruct (Z.eqb_spec (target_update_period s) 0) as [H0 | _];
    [contradiction |].
  simpl. destruct (steps s mod target_update_period s =? 0); simpl;
    eexists; reflexivity.
Qed.


(** *** The target network *)

Lemma update_target_net_final (s : agent) :
  final (update_target_net s) =
  if target_update_period s =? 0 then s
  else if steps s mod target_update_period s =? 0 then
    set_update_status (Some "Weights updated!"%string)
      (set_update_cnt (update_cnt s + 1) (set_target_net (net s) s))
  else set_update_status None s.
Proof.
  unfold update_target_net, bind, get, modify. simpl.
  destruct (target_update_period s =? 0); [reflexivity |].
  simpl. destruct (steps s mod target_update_period s =? 0); reflexivity.
Qed.

Lemma update_target_net_nets (s : agent) :
  net (final (update_target_net s)) = net s /\
  target_net (final (update_target_net s)) =
    if sync_due s then net s else target_net s.
Proof.
  rewrite update_target_net_final. unfold sync_due.
  destruct (target_update_period s =? 0); simpl; [split; reflexivity |].
  destruct (steps s mod target_update_period s =? 0); split; reflexivity.
Qed.

Lemma step_preserves_nets (obs : observation) (d : draws) :
  preserves net (step obs d) /\ preserves target_net (step obs d).
Proof.
  unfold step, choose_action, epsilon_greedy. split; preserved.
Qed.

Lemma reset_preserves_nets : preserves net reset /\ preserves target_net reset.
Proof. unfold reset. split; preserved. Qed.

Lemma exec_target_net (c : call) (s : agent) :
  target_net (exec c s) =
  if syncs c s then net (exec c s) else target_net s.
Proof.
  destruct c as [obs d | | batch |]; simpl.
  - apply step_preserves_nets.
  - apply reset_preserves_nets.
  - unfold optimize, bind, get. simpl.
    destruct (batch_loss _ _ _ _) as [loss |]; simpl; [| reflexivity].
    destruct (optimizer_step _ _ _) as [opt' theta']. unfold modify. simpl.
    set (s1 := set_net theta' (set_optimizer opt' s)).
    change (sync_due s) with (sync_due s1).
    change (target_net s) with (target_net s1).
    destruct (update_target_net_nets s1) as [Hn Ht].
    destruct (update_target_net s1) as [[] s2 | e s2]; simpl in *;
      rewrite Ht, Hn; reflexivity.
  - destruct (update_target_net_nets s) as [Hn Ht].
    rewrite Ht, Hn. reflexivity.
Qed.

Lemma run_app (cs1 cs2 : list call) (s : agent) :
  run (cs1 ++ cs2) s = run cs2 (run cs1 s).
Proof. unfold run. apply fold_left_app. Qed.

Lemma quiet_target_net (cs : list call) (s : agent) :
  quiet cs s -> target_net (run cs s) = target_net s.
Proof.
  revert s. induction cs as [| c cs IH]; intros s; simpl.
  - reflexivity.
  - intros [Hc Hq]. change (run (c :: cs) s) with (run cs (exec c s)).
    rewrite IH by exact Hq. rewrite exec_target_net, Hc. reflexivity.
Qed.

(** C4.  A call changes the target parameters only by synchronising, and
    then they are the online parameters as they stand; the optimizer's own
    step replaces the online parameters only.  So after a synchronising call
    followed by any calls that do not synchronise (optimizer steps among
    them), the target parameters are the online parameters as they were when
    that call ended. *)
Theorem target_net_is_last_snapshot :
  (forall c s,
     target_net (exec c s) =
     if syncs c s then net (exec c s) else target_net s) /\
  (forall s, sync_due s = true ->
     target_net (final (update_target_net s)) = net s /\
     net (final (update_target_net s)) = net s) /\
  (forall batch s, sync_due s = false ->
     target_net (final (optimize batch s)) = target_net s) /\
  (forall cs1 c cs2 s,
     syncs c (run cs1 s) = true ->
     quiet cs2 (run (cs1 ++ [c]) s) ->
     target_net (run (cs1 ++ c :: cs2) s) = net (run (cs1 ++ [c]) s)).
Proof.
  split; [exact exec_target_net |]. split; [| split].
  - intros s Hdue. destruct (update_target_net_nets s) as [Hn Ht].
    rewrite Ht, Hdue. split; [reflexivity | exact Hn].
  - intros batch s Hdue.
    pose proof (exec_target_net (call_optimize batch) s) as H.
    simpl in H. rewrite Hdue in H.
    destruct (batch_loss _ _ _ _); exact H.
  - intros cs1 c cs2 s Hc Hq.
    replace (cs1 ++ c :: cs2) with ((cs1 ++ [c]) ++ cs2)
      by (rewrite <- app_assoc; reflexivity).
    rewrite run_app, quiet_target_net by exact Hq.
    rewrite run_app. simpl. rewrite exec_target_net, Hc. reflexivity.
Qed.

(** *** Sequences of decisions *)

Lemma choose_action_preserves_decay (obs : observation) (d : draws) :
  preserves eps_decay (choose_action obs d).
Proof. unfold choose_action, epsilon_greedy. preserved. Qed.

Lemma decisions_steps_done (l : list (observation * draws)) (s : agent) :
  eps_decay s <> 0%R ->
  steps_done (decisions l s) = steps_done s + Z.of_nat (length l).
Proof.
  revert s. induction l as [| [obs d] l IH]; intros s Hd.
  - simpl. lia.
  - change (decisions ((obs, d) :: l) s)
      with (decisions l (final (choose_action obs d s))).
    rewrite IH.
    + destruct (choose_action_steps_done obs d s Hd) as [-> _].
      simpl length. lia.
    + rewrite choose_action_preserves_decay. exact Hd.
Qed.

(** C9.  For an action of [SMART_ACTIONS] that the observation does not
    list as available, [get_action] returns [no_op]; so, [no_op] itself
    being available in every observation pysc2 produces, whatever
    [get_action] and [choose_action] hand to the environment is available
    in the current observation. *)
Theorem get_action_never_unavailable (obs : observation) :
  (forall a x y,
     In a SMART_ACTIONS -> ~ In a (available_actions obs) ->
     get_action obs a x y = Some Pysc2.no_op) /\
  (In Pysc2.no_op_id (available_actions obs) ->
   (forall a x y,
      In a SMART_ACTIONS ->
      exists fc, get_action obs a x y = Some fc /\
                 In (Pysc2.function_id fc) (available_actions obs)) /\
   (forall d s acts ai x y s',
      choose_action obs d s = Return (acts, ai, x, y) s' ->
      exists fc, acts = [Some fc] /\
                 In (Pysc2.function_id fc) (available_actions obs))).
Proof.
  split.
  - intros a x y _ Hn. apply get_action_unavailable. exact Hn.
  - intros Hnoop. split.
    + intros a x y Ha. apply get_action_emits_available; assumption.
    + intros d s acts ai x y s' H.
      destruct (choose_action_emits _ _ _ _ _ _ _ _ H) as (a & Ha & ->).
      destruct (get_action_emits_available obs a (Z.of_nat x) (Z.of_nat y))
        as (fc & -> & Hfc); [| exact Hnoop |].
      * apply list_elem_of_lookup_2, list_elem_of_In in Ha. exact Ha.
      * exists fc. split; [reflexivity | exact Hfc].
Qed.

Lemma step_cadence (obs : observation) (d : draws) (s : agent) :
  steps (final (step obs d s)) = steps s + 1 /\
  target_update_period (final (step obs d s)) = target_update_period s.
Proof.
  split.
  - unfold step. rewrite final_bind. unfold modify at 1. cbn beta iota.
    match goal with |- context [final (?m ?s1)] =>
      assert (Hp : preserves steps m)
        by (unfold choose_action, epsilon_greedy; preserved);
      rewrite (Hp s1)
    end.
    reflexivity.
  - assert (Hp : preserves target_update_period (step obs d))
      by (unfold step, choose_action, epsilon_greedy; preserved).
    apply Hp.
Qed.

End Facts.

End BaseAgentFacts.

(** ** [CompassAgent] *)

Module CompassAgentFacts.

Import CompassAgent.

Section Facts.

Context {assets : Assets}.

Local Abbreviation method := (method agent).

(** *** Facts about action selection *)

Lemma compass_epsilon_greedy_final (u : R) (s : agent) :
  eps_decay (schedule s) <> 0%R ->
  final (epsilon_greedy u s) =
  set_schedule
    (set_steps_done (steps_done (schedule s) + 1)
       (set_epsilon
          (epsilon_at (eps_start (schedule s)) (eps_end (schedule s))
             (eps_decay (schedule s)) (steps_done (schedule s)))
          (schedule s))) s.
Proof.
  intros Hd. unfold epsilon_greedy, bind, get, modify. simpl.
  destruct (Req_dec_T (eps_decay (schedule s)) 0) as [H0 | _];
    [contradiction |].
  simpl. destruct (random_choice u _); reflexivity.
Qed.

Lemma translate_preserves {X : Type} (f : agent -> X) (action : string) :
  preserves f (translate_to_PYSC2_action action).
Proof.
  unfold translate_to_PYSC2_action, direction, move_from, can_do. preserved.
Qed.

#[local] Hint Resolve translate_preserves : preserves.

Lemma compass_choose_action_steps_done (agent_mode : string) (d : draws) (s : agent) :
  eps_decay (schedule s) <> 0%R ->
  steps_done (schedule (final (choose_action agent_mode d s))) =
    steps_done (schedule s) + 1 /\
  epsilon (schedule (final (choose_action agent_mode d s))) =
    epsilon_at (eps_start (schedule s)) (eps_end (schedule s))
      (eps_decay (schedule s)) (steps_done (schedule s)) /\
  eps_decay (schedule (final (choose_action agent_mode d s))) =
    eps_decay (schedule s).
Proof.
  intros Hd. unfold choose_action. rewrite final_bind.
  pose proof (compass_epsilon_greedy_final (u_choice d) s Hd) as Hf.
  destruct (epsilon_greedy (u_choice d) s) as [c s1 | e s1]; simpl in Hf.
  - match goal with |- context [final (?m s1)] =>
      assert (Hp : preserves
                (fun a => (steps_done (schedule a), epsilon (schedule a),
                           eps_decay (schedule a))) m) by preserved
    end.
    specialize (Hp s1). simpl in Hp. injection Hp as -> -> ->.
    rewrite Hf. repeat split; reflexivity.
  - rewrite Hf. repeat split; reflexivity.
Qed.

Lemma compass_decisions_steps_done (l : list (string * draws)) (s : agent) :
  eps_decay (schedule s) <> 0%R ->
  steps_done (schedule (decisions l s)) =
    steps_done (schedule s) + Z.of_nat (length l).
Proof.
  revert s. induction l as [| [m d] l IH]; intros s Hd.
  - simpl. lia.
  - change (decisions ((m, d) :: l) s)
      with (decisions l (final (choose_action m d s))).
    destruct (compass_choose_action_steps_done m d s Hd) as (Hsd & _ & Hdec).
    rewrite IH by (rewrite Hdec; exact Hd).
    rewrite Hsd. simpl length. lia.
Qed.

(** The greedy branch stops at [torch.no_grad()]. *)
Lemma choose_action_greedy_raises (agent_mode : string) (d : draws)
    (s s1 : agent) :
  epsilon_greedy (u_choice d) s = Return greedy s1 ->
  choose_action agent_mode d s =
    Raise NameError (set_schedule (set_choice (Some greedy) (schedule s1)) s1).
Proof.
  intros H. unfold choose_action, bind at 1. rewrite H. reflexivity.
Qed.

Lemma compass_can_do_In (a : Z) (s : agent) :
  existsb (Z.eqb a) (available_actions (now s)) = true <->
  In a (available_actions (now s)).
Proof.
  rewrite existsb_exists. split.
  - intros (b & Hb & Hab). apply Z.eqb_eq in Hab. subst b. exact Hb.
  - intros Ha. exists a. split; [exact Ha | apply Z.eqb_refl].
Qed.

(** C10.  With [Move_screen] available and the commanded direction
    crossing the screen boundary, [translate_to_PYSC2_action] returns
    Python's [None]: neither a move nor [no_op].  It returns [no_op] when
    [Move_screen] is unavailable, and only then. *)
Theorem translate_blocked_is_None (s : agent) (action : string) (x y : Z) :
  marine_center (now s) = xy x y ->
  (In Pysc2.Move_screen_id (available_actions (now s)) ->
   blocked action x y ->
   translate_to_PYSC2_action action s = Return None s) /\
  (~ In Pysc2.Move_screen_id (available_actions (now s)) ->
   translate_to_PYSC2_action action s = Return (Some Pysc2.no_op) s) /\
  (forall s',
     translate_to_PYSC2_action action s = Return (Some Pysc2.no_op) s' ->
     ~ In Pysc2.Move_screen_id (available_actions (now s))).
Proof.
  intros Hmc.
  unfold translate_to_PYSC2_action, can_do, direction, move_from,
    bind, get, try, ret, raise.
  cbn beta iota.
  split; [| split].
  - intros Hin Hb. apply compass_can_do_In in Hin. rewrite Hin.
    destruct Hb as [[-> H] | [[-> H] | [[-> H] | [-> H]]]];
      simpl; rewrite Hmc; simpl.
    + destruct (Z.leb_spec x 0); [reflexivity | lia].
    + destruct (Z.leb_spec y 0); [reflexivity | lia].
    + destruct (Z.leb_spec 83 x); [reflexivity | lia].
    + destruct (Z.leb_spec 63 y); [reflexivity | lia].
  - intros Hn.
    destruct (existsb _ _) eqn:Hc; [| reflexivity].
    apply compass_can_do_In in Hc. contradiction.
  - intros s' H Hin. apply compass_can_do_In in Hin. rewrite Hin in H.
    simpl in H.
    repeat match type of H with
      | context [if ?b then _ else _] =>
          destruct b; simpl in H; rewrite ?Hmc in H; simpl in H
      end; discriminate H.
Qed.

(** *** Facts about reward shaping *)

Lemma shaped_goal (d_next : R) : shaped 0 d_next = 100%R.
Proof. unfold shaped. destruct (Req_dec_T 0 0); [reflexivity | lra]. Qed.

Lemma shaped_delta (d d_next : R) : d <> 0%R -> shaped d d_next = (d - d_next)%R.
Proof.
  intros H. unfold shaped. destruct (Req_dec_T d 0); [contradiction | reflexivity].
Qed.

Lemma prepare_timestep_Return (obs : observation) (s : agent)
    (bc mc : center) (d : R) :
  calculate_distance (obs_player_relative obs) (obs_selected obs) =
    Some (bc, mc, d) ->
  exists s', prepare_timestep obs s = Return tt s' /\
    now s' = mkPercept (obs_available_actions obs) (obs_player_relative obs)
               (obs_selected obs) (obs_player_relative obs) bc mc d /\
    schedule s' = schedule s.
Proof.
  intros H. unfold prepare_timestep, bind, modify, get. simpl.
  rewrite H. simpl. eexists. split; [reflexivity |]. split; reflexivity.
Qed.

Lemma reward_shaping_Return (s : agent) (bc mc : center) (d_next : R) :
  calculate_distance (feature_screen_next (next s))
    (feature_screen_next2 (next s)) = Some (bc, mc, d_next) ->
  exists s', reward_shaping s =
               Return (shaped (distance (now s)) d_next) s' /\
             distance_next (next s') = d_next /\ now s' = now s.
Proof.
  intros H. unfold reward_shaping, bind, modify, get. simpl.
  rewrite H. simpl. eexists. split; [reflexivity |]. split; reflexivity.
Qed.

Lemma store_transition_Return (next_obs : observation) (s : agent)
    (bc mc : center) (d_next : R) :
  calculate_distance (obs_player_relative next_obs) (obs_selected next_obs) =
    Some (bc, mc, d_next) ->
  exists s', store_transition next_obs s = Return tt s' /\
    reward_shaped (next s') = shaped (distance (now s)) d_next /\
    distance_next (next s') = d_next.
Proof.
  intros H. unfold store_transition, reward_shaping, bind, modify, get.
  simpl. rewrite H. simpl.
  eexists. split; [reflexivity |]. split; reflexivity.
Qed.

Lemma observe_transition_Return (obs next_obs : observation) (s : agent)
    (bc mc bc' mc' : center) (d d_next : R) :
  calculate_distance (obs_player_relative obs) (obs_selected obs) =
    Some (bc, mc, d) ->
  calculate_distance (obs_player_relative next_obs) (obs_selected next_obs) =
    Some (bc', mc', d_next) ->
  exists s', observe_transition obs next_obs s = Return tt s' /\
    reward_shaped (next s') = shaped d d_next.
Proof.
  intros H H'. unfold observe_transition, bind at 1.
  destruct (prepare_timestep_Return obs s bc mc d H) as (s1 & -> & Hnow & _).
  destruct (store_transition_Return next_obs s1 bc' mc' d_next H')
    as (s' & -> & Hr & _).
  exists s'. split; [reflexivity |]. rewrite Hr, Hnow. reflexivity.
Qed.

(** C5.  For a current observation at distance [d] and a next observation
    at distance [d_next] the shaped reward is [d - d_next], except that it
    is 100 when [d] is exactly 0, whatever [d_next]; from distance 5 to
    distance 3 it is 2. *)
Theorem reward_shaping_rule (obs next_obs : observation) (s : agent)
    (bc mc bc' mc' : center) (d d_next : R) :
  calculate_distance (obs_player_relative obs) (obs_selected obs) =
    Some (bc, mc, d) ->
  calculate_distance (obs_player_relative next_obs) (obs_selected next_obs) =
    Some (bc', mc', d_next) ->
  exists s', observe_transition obs next_obs s = Return tt s' /\
    (d <> 0%R -> reward_shaped (next s') = (d - d_next)%R) /\
    (d = 0%R -> reward_shaped (next s') = 100%R) /\
    (d = 5%R -> d_next = 3%R -> reward_shaped (next s') = 2%R).
Proof.
  intros H H'.
  destruct (observe_transition_Return obs next_obs s _ _ _ _ _ _ H H')
    as (s' & Hs & Hr).
  exists s'. split; [exact Hs |]. rewrite Hr. split; [| split].
  - apply shaped_delta.
  - intros ->. apply shaped_goal.
  - intros -> ->. rewrite shaped_delta by lra. lra.
Qed.




End Facts.

End CompassAgentFacts.

(** ** The exploration schedule *)

Section Schedule.

Local Open Scope R_scope.

Variables e_start e_end e_decay : R.

Lemma epsilon_at_0 : epsilon_at e_start e_end e_decay 0 = e_start.
Proof.
  unfold epsilon_at.
  replace (-1 * 0 / e_decay) with 0 by (unfold Rdiv; ring).
  rewrite exp_0. ring.
Qed.

Lemma exp_decay_le (n m : Z) :
  0 < e_decay -> (n <= m)%Z ->
  exp (-1 * IZR m / e_decay) <= exp (-1 * IZR n / e_decay).
Proof.
  intros Hd Hnm.
  assert (Hle : -1 * IZR m / e_decay <= -1 * IZR n / e_decay).
  { apply IZR_le in Hnm. unfold Rdiv.
    apply Rmult_le_compat_r; [left; apply Rinv_0_lt_compat; exact Hd | lra]. }
  destruct Hle as [Hlt | Heq].
  - left. apply exp_increasing. exact Hlt.
  - rewrite Heq. right. reflexivity.
Qed.

Lemma epsilon_at_antitone (n m : Z) :
  e_end <= e_start -> 0 < e_decay -> (n <= m)%Z ->
  epsilon_at e_start e_end e_decay m <= epsilon_at e_start e_end e_decay n.
Proof.
  intros He Hd Hnm. unfold epsilon_at.
  apply Rplus_le_compat_l, Rmult_le_compat_l; [lra |].
  apply exp_decay_le; assumption.
Qed.



End Schedule.

(** ** Both agents *)


(** C7, as the code has it.  Every decision of [choose_action], whichever
    branch it takes and whether it returns or raises, runs [epsilon_greedy]
    once: [steps_done] grows by exactly 1 and [epsilon] is recomputed from
    the value [steps_done] had before that increment.  After [n] decisions
    [steps_done] is its initial value plus [n].  (The decay constant is not
    0.) *)
Theorem steps_done_counts_decisions :
  (forall (model : BaseAgent.AtariNet) (s : BaseAgent.agent),
     BaseAgent.eps_decay s <> 0%R ->
     (forall obs d,
        let s' := final (BaseAgent.choose_action obs d s) in
        BaseAgent.steps_done s' = BaseAgent.steps_done s + 1 /\
        BaseAgent.epsilon s' =
          epsilon_at (BaseAgent.eps_start s) (BaseAgent.eps_end s)
            (BaseAgent.eps_decay s) (BaseAgent.steps_done s)) /\
     (forall l,
        BaseAgent.steps_done (BaseAgent.decisions l s) =
        BaseAgent.steps_done s + Z.of_nat (length l))) /\
  (forall (assets : CompassAgent.Assets) (s : CompassAgent.agent),
     let e := CompassAgent.schedule s in
     CompassAgent.eps_decay e <> 0%R ->
     (forall mode d,
        let e' :=
          CompassAgent.schedule
            (final (CompassAgent.choose_action mode d s)) in
        CompassAgent.steps_done e' = CompassAgent.steps_done e + 1 /\
        CompassAgent.epsilon e' =
          epsilon_at (CompassAgent.eps_start e) (CompassAgent.eps_end e)
            (CompassAgent.eps_decay e) (CompassAgent.steps_done e)) /\
     (forall l,
        CompassAgent.steps_done
          (CompassAgent.schedule (CompassAgent.decisions l s)) =
        CompassAgent.steps_done e + Z.of_nat (length l))).
Proof.
  split.
  - intros model s Hd. split.
    + intros obs d. apply BaseAgentFacts.choose_action_steps_done. exact Hd.
    + intros l. apply BaseAgentFacts.decisions_steps_done. exact Hd.
  - intros assets s e Hd. split.
    + intros mode d.
      destruct (CompassAgentFacts.compass_choose_action_steps_done mode d s Hd)
        as (H1 & H2 & _).
      split; assumption.
    + intros l. apply CompassAgentFacts.compass_decisions_steps_done. exact Hd.
Qed.

(** The greedy branch of [BaseAgent.choose_action]: each of the three
    indices is the argmax of its own head of the online network, ties going
    to the lowest index; and the branch returns when the heads are not
    empty and the action head has at most three entries. *)
Lemma greedy_choice_is_first_argmax (model : BaseAgent.AtariNet)
    (obs : BaseAgent.observation) (d : BaseAgent.draws) (s : BaseAgent.agent) :
  let q :=
    BaseAgent.forward (BaseAgent.net s) (BaseAgent.player_relative obs) in
  (forall acts ai x y s',
     BaseAgent.choose_action obs d s = Return (acts, ai, x, y) s' ->
     BaseAgent.choice s' = Some greedy ->
     first_argmax (BaseAgent.head_action q) ai /\
     first_argmax (BaseAgent.head_x q) x /\
     first_argmax (BaseAgent.head_y q) y) /\
  (let eps :=
     epsilon_at (BaseAgent.eps_start s) (BaseAgent.eps_end s)
       (BaseAgent.eps_decay s) (BaseAgent.steps_done s) in
   BaseAgent.eps_decay s <> 0%R ->
   (0 <= eps <= 1)%R -> (eps <= BaseAgent.u_choice d)%R ->
   BaseAgent.head_action q <> [] ->
   (length (BaseAgent.head_action q) <= 3)%nat ->
   BaseAgent.head_x q <> [] -> BaseAgent.head_y q <> [] ->
   exists acts ai x y s',
     BaseAgent.choose_action obs d s = Return (acts, ai, x, y) s' /\
     BaseAgent.choice s' = Some greedy).
Proof.
  intros q. split.
  - intros acts ai x y s' H Hc.
    destruct (BaseAgentFacts.choose_action_greedy _ _ _ _ _ _ _ _ H Hc)
      as (Ha & Hx & Hy).
    repeat split; apply argmax_first_argmax; assumption.
  - intros eps Hd He Hu Ha Hlen Hx Hy.
    apply BaseAgentFacts.choose_action_greedy_returns; assumption.
Qed.

(** ** Worked instances *)

Module ExampleFacts.

Import Examples.

(** The primitives evaluated on small inputs. *)

Example argmax_ties_first : Numpy.argmax Z.gtb [1; 3; 3; 2] = Some 1%nat.
Proof. reflexivity. Qed.

Example argmax_empty : Numpy.argmax Z.gtb [] = None.
Proof. reflexivity. Qed.

Example argmax_real_ties_first :
  Numpy.argmax Rgtb [0%R; 1%R; 1%R; 0%R] = Some 1%nat.
Proof.
  unfold Numpy.argmax, Numpy.argmax_from, Rgtb.
  destruct (Rlt_dec 0 1) as [_ | H]; [| exfalso; lra].
  destruct (Rlt_dec 1 1) as [H | _]; [exfalso; lra |].
  destruct (Rlt_dec 1 0) as [H | _]; [exfalso; lra |].
  reflexivity.
Qed.

Example where_last : Numpy.where_eq Pysc2.LAST [1; 2; 0; 2] = [1; 3]%nat.
Proof. reflexivity. Qed.

Example masked_assignment :
  (vals ← Numpy.take_idx [10; 20; 30; 40] [1; 3]%nat;
   Numpy.put_idx [0; 0; 0; 0] [1; 3]%nat vals) = Some [0; 20; 0; 40].
Proof. reflexivity. Qed.

Example masked_assignment_out_of_range :
  Numpy.put_idx [0; 0] [5]%nat [1] = None.
Proof. reflexivity. Qed.

Example round_ties_to_even :
  CompassAgent.round_half_even 5 2 = 2 /\
  CompassAgent.round_half_even 7 2 = 4 /\
  CompassAgent.round_half_even 7 3 = 2 /\
  CompassAgent.round_half_even 8 3 = 3.
Proof. repeat split; reflexivity. Qed.

Example marine_locs :
  CompassAgent._xy_locs (CompassAgent.eq_mask 1 marine_at_3_4) = [(3, 4)].
Proof. reflexivity. Qed.

Example get_action_moves :
  BaseAgent.get_action
    (BaseAgent.mkObs [Pysc2.no_op_id; Pysc2.Move_screen_id] 1%R 0)
    Pysc2.Move_screen_id 3 4 = Some (Pysc2.Move_screen "now" 3 4).
Proof. reflexivity. Qed.

Example get_action_falls_back :
  BaseAgent.get_action base_obs Pysc2.Move_screen_id 3 4 = Some Pysc2.no_op.
Proof. reflexivity. Qed.

Example translate_moves_left :
  let s :=
    compass_agent 1 [Pysc2.no_op_id; Pysc2.Move_screen_id]
      (CompassAgent.xy 10 10) in
  CompassAgent.translate_to_PYSC2_action "left" s =
  Return (Some (Pysc2.Move_screen "now" 6 10)) s.
Proof. reflexivity. Qed.

Example translate_unknown_action :
  let s :=
    compass_agent 1 [Pysc2.no_op_id; Pysc2.Move_screen_id]
      (CompassAgent.xy 10 10) in
  CompassAgent.translate_to_PYSC2_action "reset" s = Return None s.
Proof. reflexivity. Qed.

Example update_target_net_copies :
  BaseAgent.target_net
    (final (BaseAgent.update_target_net
              (BaseAgent.set_net 3%R base_agent))) = 3%R.
Proof. reflexivity. Qed.

Lemma beacon_center_0_0 :
  CompassAgent.mean_round
    (CompassAgent._xy_locs (CompassAgent.eq_mask 3 beacon_layer)) =
  CompassAgent.xy 0 0.
Proof. vm_compute. reflexivity. Qed.

Lemma distance_far :
  CompassAgent.calculate_distance beacon_layer marine_at_3_4 =
  Some (CompassAgent.xy 0 0, CompassAgent.xy 3 4, 5%R).
Proof.
  unfold CompassAgent.calculate_distance. rewrite beacon_center_0_0.
  replace (CompassAgent.mean_round
             (CompassAgent._xy_locs (CompassAgent.eq_mask 1 marine_at_3_4)))
    with (CompassAgent.xy 3 4) by (vm_compute; reflexivity).
  do 2 f_equal. unfold CompassAgent.hypot. rewrite !minus_IZR.
  apply sqrt_lem_1; lra.
Qed.

Lemma distance_near :
  CompassAgent.calculate_distance beacon_layer marine_at_3_0 =
  Some (CompassAgent.xy 0 0, CompassAgent.xy 3 0, 3%R).
Proof.
  unfold CompassAgent.calculate_distance. rewrite beacon_center_0_0.
  replace (CompassAgent.mean_round
             (CompassAgent._xy_locs (CompassAgent.eq_mask 1 marine_at_3_0)))
    with (CompassAgent.xy 3 0) by (vm_compute; reflexivity).
  do 2 f_equal. unfold CompassAgent.hypot. rewrite !minus_IZR.
  apply sqrt_lem_1; lra.
Qed.



Lemma base_batch_well_formed : BaseAgent.well_formed base_agent base_batch.
Proof.
  split; [discriminate |].
  intros tr Htr.
  apply elem_of_cons in Htr as [-> | Htr];
    [| apply list_elem_of_singleton in Htr as ->];
    simpl; repeat split; (lia || discriminate).
Defined.


(** A synchronisation, then a step of the environment and an optimizer
    step: the target network still holds the parameters copied first. *)
Lemma target_net_is_last_snapshot_witness :
  let c := BaseAgent.call_update_target_net in
  let cs2 :=
    [BaseAgent.call_step base_obs base_draws;
     BaseAgent.call_optimize base_batch] in
  let run := BaseAgent.run in
  BaseAgent.syncs c (run [] base_agent) = true /\
  BaseAgent.quiet cs2
    (run ([] ++ [c]) base_agent) /\
  BaseAgent.target_net (run ([] ++ c :: cs2) base_agent) =
  BaseAgent.net (run ([] ++ [c]) base_agent).
Proof.
  intros c cs2 run.
  assert (H1 : BaseAgent.syncs c (run [] base_agent) = true)
    by reflexivity.
  assert (H2 : BaseAgent.quiet cs2
                 (run ([] ++ [c]) base_agent)).
  { split; [reflexivity |]. split; [| exact I].
    unfold BaseAgent.syncs.
    destruct (BaseAgent.batch_loss _ _ _ _); [| reflexivity].
    unfold BaseAgent.sync_due, BaseAgent.exec.
    destruct (BaseAgentFacts.step_cadence base_obs base_draws
                (run ([] ++ [c]) base_agent)) as [-> ->].
    reflexivity. }
  split; [exact H1 |]. split; [exact H2 |].
  exact (proj2 (proj2 (proj2
           BaseAgentFacts.target_net_is_last_snapshot)) [] c cs2 base_agent H1 H2).
Defined.

(** [Move_screen] is not available in [base_obs]: [no_op] is emitted, and
    it is available. *)
Lemma get_action_never_unavailable_witness :
  In Pysc2.Move_screen_id BaseAgent.SMART_ACTIONS /\
  ~ In Pysc2.Move_screen_id (BaseAgent.available_actions base_obs) /\
  In Pysc2.no_op_id (BaseAgent.available_actions base_obs) /\
  BaseAgent.get_action base_obs Pysc2.Move_screen_id 3 4 = Some Pysc2.no_op /\
  exists fc,
    BaseAgent.get_action base_obs Pysc2.select_army_id 3 4 = Some fc /\
    In (Pysc2.function_id fc) (BaseAgent.available_actions base_obs).
Proof.
  assert (Hin : In Pysc2.Move_screen_id BaseAgent.SMART_ACTIONS)
    by (simpl; tauto).
  assert (Hnot : ~ In Pysc2.Move_screen_id
                   (BaseAgent.available_actions base_obs))
    by (simpl; intros [H | [H | []]]; discriminate H).
  assert (Hnoop : In Pysc2.no_op_id (BaseAgent.available_actions base_obs))
    by (simpl; tauto).
  split; [exact Hin |]. split; [exact Hnot |]. split; [exact Hnoop |].
  pose proof (BaseAgentFacts.get_action_never_unavailable
                base_obs) as [Hun Hav].
  split.
  - apply Hun; assumption.
  - apply (proj1 (Hav Hnoop)). simpl. tauto.
Defined.


(** Two decisions of [base_agent]: [steps_done] goes from 0 to 2. *)
Lemma steps_done_counts_decisions_witness :
  BaseAgent.eps_decay base_agent <> 0%R /\
  BaseAgent.steps_done
    (BaseAgent.decisions
       [(base_obs, base_draws); (base_obs, base_draws)] base_agent) = 2.
Proof.
  assert (Hd : BaseAgent.eps_decay base_agent <> 0%R) by (simpl; lra).
  split; [exact Hd |].
  exact (proj2 (proj1 steps_done_counts_decisions toy_net
                  base_agent Hd)
           [(base_obs, base_draws); (base_obs, base_draws)]).
Defined.

(** The first call of [epsilon_greedy] on [base_agent] leaves [steps_done]
    at 1 and [epsilon] at 1, the rate for 0 decisions done; the rate for
    the updated counter, 1, is smaller. *)
Lemma epsilon_from_counter_before_increment :
  let s' := final (BaseAgent.epsilon_greedy (1 / 2)%R base_agent) in
  BaseAgent.steps_done s' = 1 /\
  BaseAgent.epsilon s' = 1%R /\
  BaseAgent.epsilon s' <>
    epsilon_at (BaseAgent.eps_start s') (BaseAgent.eps_end s')
      (BaseAgent.eps_decay s') (BaseAgent.steps_done s').
Proof.
  intros s'. unfold s'.
  rewrite BaseAgentFacts.epsilon_greedy_final by (simpl; lra).
  cbn [BaseAgent.steps_done BaseAgent.epsilon BaseAgent.eps_start
       BaseAgent.eps_end BaseAgent.eps_decay BaseAgent.set_steps_done
       BaseAgent.set_epsilon base_agent].
  rewrite epsilon_at_0.
  split; [reflexivity |]. split; [reflexivity |].
  unfold epsilon_at. change (IZR (0 + 1)) with 1%R.
  assert (Hlt : (exp (-1 * 1 / 8000) < 1)%R).
  { pose proof (exp_increasing (-1 * 1 / 8000) 0) as H.
    rewrite exp_0 in H. apply H. lra. }
  intros Heq. lra.
Qed.

(** From distance 5 to distance 3 the shaped reward is 2. *)
Lemma reward_shaping_rule_witness :
  CompassAgent.calculate_distance
    (CompassAgent.obs_player_relative obs_far)
    (CompassAgent.obs_selected obs_far) =
    Some (CompassAgent.xy 0 0, CompassAgent.xy 3 4, 5%R) /\
  CompassAgent.calculate_distance
    (CompassAgent.obs_player_relative obs_near)
    (CompassAgent.obs_selected obs_near) =
    Some (CompassAgent.xy 0 0, CompassAgent.xy 3 0, 3%R) /\
  exists s',
    CompassAgent.observe_transition obs_far obs_near
      (compass_agent 1 [] CompassAgent.nan) = Return tt s' /\
    CompassAgent.reward_shaped (CompassAgent.next s') = 2%R.
Proof.
  split; [exact distance_far |]. split; [exact distance_near |].
  destruct (CompassAgentFacts.reward_shaping_rule obs_far obs_near
              (compass_agent 1 [] CompassAgent.nan) _ _ _ _ _ _
              distance_far distance_near) as (s' & Hs & _ & _ & H2).
  exists s'. split; [exact Hs |]. apply H2; reflexivity.
Defined.



(** At the left edge with [Move_screen] available, ['left'] yields
    [None]. *)
Lemma translate_blocked_is_None_witness :
  let s :=
    compass_agent 1 [Pysc2.no_op_id; Pysc2.Move_screen_id]
      (CompassAgent.xy 0 10) in
  CompassAgent.marine_center (CompassAgent.now s) = CompassAgent.xy 0 10 /\
  In Pysc2.Move_screen_id (CompassAgent.available_actions (CompassAgent.now s))
  /\ CompassAgent.blocked "left" 0 10 /\
  CompassAgent.translate_to_PYSC2_action "left" s = Return None s.
Proof.
  intros s.
  assert (Hmc : CompassAgent.marine_center (CompassAgent.now s) =
                CompassAgent.xy 0 10) by reflexivity.
  assert (Hin : In Pysc2.Move_screen_id
                  (CompassAgent.available_actions (CompassAgent.now s)))
    by (simpl; tauto).
  assert (Hb : CompassAgent.blocked "left" 0 10)
    by (left; split; [reflexivity | lia]).
  split; [exact Hmc |]. split; [exact Hin |]. split; [exact Hb |].
  exact (proj1 (CompassAgentFacts.translate_blocked_is_None s "left" 0 10 Hmc)
           Hin Hb).
Defined.

(** C8 on [CompassAgent].  An agent whose exploration rate is 0.05 draws
    0.5 and so decides greedily: [choose_action] raises [NameError] at
    [torch.no_grad()] and yields no index, where [BaseAgent.choose_action]
    yields the argmax of each head. *)
Theorem compass_greedy_choice_raises :
  exists s',
    CompassAgent.choose_action "learn"
      (CompassAgent.mkDraws (1 / 2)%R 0)
      (compass_agent (5 / 100) [Pysc2.no_op_id; Pysc2.Move_screen_id]
         (CompassAgent.xy 3 4)) = Raise NameError s'.
Proof.
  eexists. apply CompassAgentFacts.choose_action_greedy_raises.
  unfold CompassAgent.epsilon_greedy, bind, get, modify. simpl.
  destruct (Req_dec_T 8000 0) as [H | _]; [lra |]. simpl.
  unfold random_choice, epsilon_at.
  replace (5 / 100 + (5 / 100 - 5 / 100) * exp (-1 * 0 / 8000))%R
    with (5 / 100)%R by ring.
  destruct (Rle_dec 0 (5 / 100)) as [_ | H]; [| exfalso; lra].
  destruct (Rle_dec 0 (1 - 5 / 100)) as [_ | H]; [| exfalso; lra].
  destruct (Rlt_dec (1 / 2) (5 / 100)) as [H | _]; [lra |].
  reflexivity.
Qed.

End ExampleFacts.

(** * Further properties *)

(** ** The unit helpers *)

Module UnitsFacts.

Import Units.

Section Facts.

Context {unit : Type}.
Variable unit_type : unit -> Z.

Local Abbreviation unit_type_is_selected := (unit_type_is_selected unit_type).
Local Abbreviation get_unit_by_type := (get_unit_by_type unit_type).
Local Abbreviation first_has_type := (first_has_type unit_type).

Lemma first_has_type_spec (l : list unit) (t : Z) :
  first_has_type l t = true <-> exists u, head l = Some u /\ unit_type u = t.
Proof.
  unfold Units.first_has_type. destruct l as [| u l]; simpl.
  - split; [discriminate | intros (u & Hu & _); discriminate Hu].
  - rewrite Z.eqb_eq. split.
    + intros H. exists u. split; [reflexivity | exact H].
    + intros (u' & [= <-] & H). exact H.
Qed.

(** [unit_type_is_selected] looks at the first unit of the single selection
    and at the first unit of the multi selection, and at nothing else: with
    both selections empty it is [False] for every type, and a unit of the
    type further down a selection is not found. *)
Theorem unit_type_is_selected_heads (obs : observation) (t : Z) :
  (unit_type_is_selected obs t = true <->
   (exists u, head (single_select obs) = Some u /\ unit_type u = t) \/
   (exists u, head (multi_select obs) = Some u /\ unit_type u = t)) /\
  (single_select obs = [] -> multi_select obs = [] ->
   unit_type_is_selected obs t = false) /\
  (forall u1 u2 l1 l2,
     single_select obs = u1 :: l1 -> multi_select obs = u2 :: l2 ->
     unit_type u1 <> t -> unit_type u2 <> t ->
     unit_type_is_selected obs t = false).
Proof.
  unfold Units.unit_type_is_selected.
  split; [| split].
  - rewrite <- !first_has_type_spec.
    destruct (Units.first_has_type unit_type (single_select obs) t);
      destruct (Units.first_has_type unit_type (multi_select obs) t);
      split; auto; intros [H | H]; discriminate H.
  - intros -> ->. reflexivity.
  - intros u1 u2 l1 l2 -> -> H1 H2. unfold Units.first_has_type. simpl.
    apply Z.eqb_neq in H1, H2. rewrite H1, H2. reflexivity.
Qed.

(** [get_unit_by_type] returns exactly the units of the type, in the order
    of the observation; asking the result for the same type changes
    nothing, and there is no unit of the type exactly when it is empty. *)
Theorem get_unit_by_type_exact (obs : observation) (t : Z) :
  (forall u, In u (get_unit_by_type obs t) <->
             In u (feature_units obs) /\ unit_type u = t) /\
  sublist (get_unit_by_type obs t) (feature_units obs) /\
  get_unit_by_type
    (mkObs (single_select obs) (multi_select obs) (get_unit_by_type obs t)) t
  = get_unit_by_type obs t /\
  (get_unit_by_type obs t = [] <->
   forall u, In u (feature_units obs) -> unit_type u <> t).
Proof.
  unfold Units.get_unit_by_type. simpl.
  generalize (feature_units obs). intros l.
  split; [| split; [| split]].
  - intros u. rewrite filter_In, Z.eqb_eq. reflexivity.
  - induction l as [| a l IH]; simpl; [constructor |].
    destruct (unit_type a =? t); [apply sublist_skip | apply sublist_cons];
      exact IH.
  - induction l as [| a l IH]; simpl; [reflexivity |].
    destruct (unit_type a =? t) eqn:Ha; simpl; [rewrite Ha, IH |];
      auto.
  - induction l as [| a l IH]; simpl.
    + split; [intros _ u [] | reflexivity].
    + destruct (Z.eqb_spec (unit_type a) t) as [Ha | Ha].
      * split; [discriminate |]. intros H. exfalso. apply (H a); auto.
      * rewrite IH. split.
        -- intros H u [<- | Hu]; [exact Ha | apply H; exact Hu].
        -- intros H u Hu. apply H. right. exact Hu.
Qed.

End Facts.

End UnitsFacts.

(** ** Failures and bounds of the exploration schedule *)

Lemma epsilon_at_bounds (e_start e_end e_decay : R) (n : Z) :
  (e_end <= e_start)%R -> (0 < e_decay)%R -> 0 <= n ->
  (e_end <= epsilon_at e_start e_end e_decay n <= e_start)%R.
Proof.
  intros He Hd Hn. split.
  - unfold epsilon_at.
    pose proof (exp_pos (-1 * IZR n / e_decay)) as Hpos.
    assert (0 <= (e_start - e_end) * exp (-1 * IZR n / e_decay))%R
      by (apply Rmult_le_pos; lra).
    lra.
  - pose proof (epsilon_at_antitone e_start e_end e_decay 0 n He Hd Hn) as H.
    rewrite epsilon_at_0 in H. exact H.
Qed.

Lemma random_choice_valid (u eps : R) :
  (0 <= eps <= 1)%R ->
  exists c, random_choice u eps = Some c /\ (c = random <-> (u < eps)%R).
Proof.
  intros [Hlo Hhi]. unfold random_choice.
  destruct (Rle_dec 0 eps) as [_ | Hn]; [| contradiction].
  destruct (Rle_dec 0 (1 - eps)) as [_ | Hn]; [| exfalso; apply Hn; lra].
  destruct (Rlt_dec u eps) as [Hlt | Hge].
  - exists random. split; [reflexivity |]. split; auto.
  - exists greedy. split; [reflexivity |].
    split; [discriminate | contradiction].
Qed.

Lemma random_choice_invalid (u eps : R) :
  (eps < 0 \/ 1 < eps)%R -> random_choice u eps = None.
Proof.
  intros H. unfold random_choice.
  destruct (Rle_dec 0 eps) as [Hlo | _]; [| reflexivity].
  destruct (Rle_dec 0 (1 - eps)) as [Hhi | _]; [| reflexivity].
  exfalso. lra.
Qed.

(** How [epsilon_greedy] fails, in both agents.  With [eps_decay] 0 the
    division raises [ZeroDivisionError] and the agent is untouched.  With
    the computed rate outside [[0, 1]], [np.random.choice] raises
    [ValueError], after the rate has been stored and [steps_done]
    incremented. *)
Theorem epsilon_greedy_failures :
  (forall (model : BaseAgent.AtariNet) (u : R) (s : BaseAgent.agent),
     let eps :=
       epsilon_at (BaseAgent.eps_start s) (BaseAgent.eps_end s)
         (BaseAgent.eps_decay s) (BaseAgent.steps_done s) in
     (BaseAgent.eps_decay s = 0%R ->
      BaseAgent.epsilon_greedy u s = Raise ZeroDivisionError s) /\
     (BaseAgent.eps_decay s <> 0%R -> (eps < 0 \/ 1 < eps)%R ->
      BaseAgent.epsilon_greedy u s =
      Raise ValueError
        (BaseAgent.set_steps_done (BaseAgent.steps_done s + 1)
           (BaseAgent.set_epsilon eps s)))) /\
  (forall (assets : CompassAgent.Assets) (u : R) (s : CompassAgent.agent),
     let e := CompassAgent.schedule s in
     let eps :=
       epsilon_at (CompassAgent.eps_start e) (CompassAgent.eps_end e)
         (CompassAgent.eps_decay e) (CompassAgent.steps_done e) in
     (CompassAgent.eps_decay e = 0%R ->
      CompassAgent.epsilon_greedy u s = Raise ZeroDivisionError s) /\
     (CompassAgent.eps_decay e <> 0%R -> (eps < 0 \/ 1 < eps)%R ->
      CompassAgent.epsilon_greedy u s =
      Raise ValueError
        (CompassAgent.set_schedule
           (CompassAgent.set_steps_done (CompassAgent.steps_done e + 1)
              (CompassAgent.set_epsilon eps e)) s))).
Proof.
  split.
  - intros model u s eps. split.
    + intros H0. unfold BaseAgent.epsilon_greedy, bind, get.
      destruct (Req_dec_T (BaseAgent.eps_decay s) 0); [reflexivity |].
      contradiction.
    + intros Hd Hbad.
      unfold BaseAgent.epsilon_greedy, bind, get, modify. simpl.
      destruct (Req_dec_T (BaseAgent.eps_decay s) 0); [contradiction |].
      simpl. fold eps. rewrite (random_choice_invalid u eps Hbad).
      reflexivity.
  - intros assets u s e eps. subst e. split.
    + intros H0. unfold CompassAgent.epsilon_greedy, bind, get.
      destruct (Req_dec_T _ 0); [reflexivity | contradiction].
    + intros Hd Hbad.
      unfold CompassAgent.epsilon_greedy, bind, get, modify. simpl.
      destruct (Req_dec_T _ 0); [contradiction |].
      simpl. fold eps. rewrite (random_choice_invalid u eps Hbad).
      reflexivity.
Qed.

(** On a schedule with [0 <= eps_end <= eps_start <= 1], a positive decay
    constant and a counter that is not negative, the rate stays between
    [eps_end] and [eps_start], so [epsilon_greedy] returns in both agents;
    it returns ['random'] exactly when the uniform sample is below the
    rate. *)
Theorem epsilon_greedy_returns_on_valid_schedule :
  (forall (model : BaseAgent.AtariNet) (u : R) (s : BaseAgent.agent),
     let eps :=
       epsilon_at (BaseAgent.eps_start s) (BaseAgent.eps_end s)
         (BaseAgent.eps_decay s) (BaseAgent.steps_done s) in
     (0 <= BaseAgent.eps_end s)%R ->
     (BaseAgent.eps_end s <= BaseAgent.eps_start s)%R ->
     (BaseAgent.eps_start s <= 1)%R ->
     (0 < BaseAgent.eps_decay s)%R -> 0 <= BaseAgent.steps_done s ->
     (BaseAgent.eps_end s <= eps <= BaseAgent.eps_start s)%R /\
     exists c s',
       BaseAgent.epsilon_greedy u s = Return c s' /\
       (c = random <-> (u < eps)%R)) /\
  (forall (assets : CompassAgent.Assets) (u : R) (s : CompassAgent.agent),
     let e := CompassAgent.schedule s in
     let eps :=
       epsilon_at (CompassAgent.eps_start e) (CompassAgent.eps_end e)
         (CompassAgent.eps_decay e) (CompassAgent.steps_done e) in
     (0 <= CompassAgent.eps_end e)%R ->
     (CompassAgent.eps_end e <= CompassAgent.eps_start e)%R ->
     (CompassAgent.eps_start e <= 1)%R ->
     (0 < CompassAgent.eps_decay e)%R -> 0 <= CompassAgent.steps_done e ->
     (CompassAgent.eps_end e <= eps <= CompassAgent.eps_start e)%R /\
     exists c s',
       CompassAgent.epsilon_greedy u s = Return c s' /\
       (c = random <-> (u < eps)%R)).
Proof.
  split.
  - intros model u s eps H0 He H1 Hd Hn.
    pose proof (epsilon_at_bounds _ _ _ _ He Hd Hn) as Hb. fold eps in Hb.
    split; [exact Hb |].
    destruct (random_choice_valid u eps) as (c & Hc & Hiff); [lra |].
    exists c. unfold BaseAgent.epsilon_greedy, bind, get, modify. simpl.
    destruct (Req_dec_T (BaseAgent.eps_decay s) 0); [lra |].
    simpl. fold eps. rewrite Hc. eexists. split; [reflexivity | exact Hiff].
  - intros assets u s e eps H0 He H1 Hd Hn. subst e.
    pose proof (epsilon_at_bounds _ _ _ _ He Hd Hn) as Hb. fold eps in Hb.
    split; [exact Hb |].
    destruct (random_choice_valid u eps) as (c & Hc & Hiff); [lra |].
    exists c. unfold CompassAgent.epsilon_greedy, bind, get, modify. simpl.
    destruct (Req_dec_T _ 0); [lra |].
    simpl. fold eps. rewrite Hc.
    eexists. split; [reflexivity | exact Hiff].
Qed.

(** ** More on [BaseAgent] *)

Module BaseAgentMore.

Import BaseAgent BaseAgentTraces.

Section Facts.

Context {model : AtariNet}.

Lemma randint_range (high : Z) (r k : nat) :
  randint high r = Some k -> (Z.of_nat k < high)%Z.
Proof.
  unfold randint. destruct (Z.ltb_spec 0 high) as [Hpos | _]; [| discriminate].
  intros [= <-].
  assert (Z.to_nat high <> 0%nat) by lia.
  pose proof (Nat.mod_upper_bound r (Z.to_nat high)). lia.
Qed.

(** What [choose_action] returns.  The index is an index of
    [SMART_ACTIONS], exactly one call is emitted and it is never Python's
    [None].  The call is the indexed action when the observation lists it
    as available, and then a [Move_screen] carries the returned coordinates;
    otherwise the call is [no_op], while the returned index still names the
    unavailable action.  In the random branch both coordinates are below
    [screen_dim]. *)
Theorem choose_action_result (obs : observation) (d : draws) (s s' : agent)
    (acts : list (option Pysc2.FunctionCall)) (ai x y : nat) :
  choose_action obs d s = Return (acts, ai, x, y) s' ->
  (ai < length SMART_ACTIONS)%nat /\
  (exists a fc,
     SMART_ACTIONS !! ai = Some a /\ acts = [Some fc] /\
     (In a (available_actions obs) ->
      Pysc2.function_id fc = a /\
      (a = Pysc2.Move_screen_id ->
       fc = Pysc2.Move_screen "now" (Z.of_nat x) (Z.of_nat y))) /\
     (~ In a (available_actions obs) -> fc = Pysc2.no_op)) /\
  (choice s' = Some random ->
   Z.of_nat x < screen_dim s /\ Z.of_nat y < screen_dim s).
Proof.
  intros H.
  destruct (BaseAgentFacts.choose_action_emits _ _ _ _ _ _ _ _ H)
    as (a & Ha & ->).
  split; [apply lookup_lt_Some in Ha; exact Ha |].
  split.
  - assert (Hin : In a SMART_ACTIONS)
      by (apply list_elem_of_lookup_2, list_elem_of_In in Ha; exact Ha).
    unfold get_action.
    destruct (can_do obs a) eqn:Hc.
    + apply BaseAgentFacts.can_do_In in Hc.
      destruct Hin as [<- | [<- | [<- | []]]]; simpl;
        eexists _, _; (split; [exact Ha |]); (split; [reflexivity |]);
        (split; [intros _; split; [reflexivity | try discriminate; auto]
                | intros Hn; contradiction]).
    + exists a, Pysc2.no_op. split; [exact Ha |]. split; [reflexivity |].
      split; [| reflexivity].
      intros Hav. apply BaseAgentFacts.can_do_In in Hav. congruence.
  - intros Hc. unfold choose_action in H. method_inv.
    match goal with
    | He : epsilon_greedy _ _ = Return _ _ |- _ =>
        apply BaseAgentFacts.epsilon_greedy_Return in He;
        destruct He as (Hd & Hs & _);
        rewrite (BaseAgentFacts.epsilon_greedy_final _ _ Hd) in Hs; subst
    end.
    match goal with c : policy_choice |- _ => destruct c end.
    + method_inv. simpl.
      split; eapply randint_range; eassumption.
    + method_inv. simpl in *.
      destruct (forward (net s) (player_relative obs)) as [[qa qx] qy].
      method_inv. simpl in Hc. discriminate Hc.
Qed.

(** The greedy branch of [choose_action] fails on a network that does not
    fit [SMART_ACTIONS]: an empty action head makes [np.argmax] raise
    [ValueError], and an action head whose argmax is not an index of
    [SMART_ACTIONS] makes the lookup raise [IndexError].  In both cases the
    decision has been counted: [steps_done] is one more and [choice] is
    ['greedy']. *)
Theorem choose_action_greedy_failures (obs : observation) (d : draws)
    (s s1 : agent) :
  epsilon_greedy (u_choice d) s = Return greedy s1 ->
  let q := forward (net s) (player_relative obs) in
  let s2 := set_choice (Some greedy) s1 in
  steps_done s2 = steps_done s + 1 /\
  (head_action q = [] -> choose_action obs d s = Raise ValueError s2) /\
  (forall ai, Numpy.argmax Rgtb (head_action q) = Some ai ->
              (length SMART_ACTIONS <= ai)%nat ->
              choose_action obs d s = Raise IndexError s2).
Proof.
  intros He q s2.
  destruct (BaseAgentFacts.epsilon_greedy_Return _ _ _ _ He) as (Hd & Hs & _).
  rewrite (BaseAgentFacts.epsilon_greedy_final _ _ Hd) in Hs.
  assert (Hnet : net s1 = net s) by (rewrite Hs; reflexivity).
  split; [unfold s2; rewrite Hs; reflexivity |].
  split.
  - intros Hempty. unfold choose_action, bind at 1. rewrite He.
    unfold bind, modify, get. simpl. rewrite Hnet. fold q.
    destruct q as [[qa qx] qy]. unfold head_action in Hempty.
    simpl in Hempty. subst qa. reflexivity.
  - intros ai Hai Hge. unfold choose_action, bind at 1. rewrite He.
    unfold bind, modify, get. simpl. rewrite Hnet. fold q.
    destruct q as [[qa qx] qy]. unfold head_action in Hai.
    simpl in Hai. rewrite Hai. simpl.
    rewrite (lookup_ge_None_2 SMART_ACTIONS ai) by exact Hge.
    reflexivity.
Qed.

(** *** Sequences of calls *)

Lemma reset_final (s : agent) :
  final (reset s) =
  set_update_cnt 0 (set_timesteps 0 (set_episodes (episodes s + 1) s)).
Proof. reflexivity. Qed.

Lemma step_counters (obs : observation) (d : draws) (s : agent) :
  steps (final (step obs d s)) = steps s + 1 /\
  timesteps (final (step obs d s)) = timesteps s + 1 /\
  reward (final (step obs d s)) = reward s + obs_reward obs /\
  episodes (final (step obs d s)) = episodes s /\
  update_cnt (final (step obs d s)) = update_cnt s.
Proof.
  set (s1 := set_timesteps (timesteps s + 1)
               (set_reward (reward s + obs_reward obs)
                  (set_steps (steps s + 1) s))).
  assert (Hf : final (step obs d s) = final (choose_action obs d s1))
    by reflexivity.
  assert (Hp : preserves
            (fun a => (steps a, timesteps a, reward a, episodes a,
                       update_cnt a)) (choose_action obs d))
    by (unfold choose_action, epsilon_greedy; preserved).
  specialize (Hp s1). rewrite <- Hf in Hp.
  cbn beta in Hp. injection Hp as -> -> -> -> ->.
  repeat split; reflexivity.
Qed.

Lemma optimize_frame_lemma (batch : list transition) :
  preserves
    (fun a => (steps a, timesteps a, reward a, episodes a, steps_done a,
               epsilon a, eps_start a, eps_end a, eps_decay a, gamma a,
               screen_dim a, target_update_period a, choice a))
    (optimize batch).
Proof.
  unfold optimize, update_target_net. preserved.
Qed.

Lemma update_target_net_frame :
  preserves
    (fun a => (steps a, timesteps a, reward a, episodes a, steps_done a,
               epsilon a, eps_start a, eps_end a, eps_decay a, gamma a,
               screen_dim a, target_update_period a, choice a, net a,
               optimizer a))
    update_target_net.
Proof. unfold update_target_net. preserved. Qed.

(** Whatever the calls of a sequence do, [steps] counts the [step] calls,
    [episodes] counts the [reset] calls and [reward] adds up the rewards of
    the observations passed to [step]; calls that raise count as well. *)
Theorem run_counters (cs : list call) (s : agent) :
  steps (run cs s) = steps s + count_steps cs /\
  episodes (run cs s) = episodes s + count_resets cs /\
  reward (run cs s) = reward s + step_rewards cs.
Proof.
  revert s. induction cs as [| c cs IH]; intros s.
  - unfold count_steps, count_resets. simpl. repeat split; lia.
  - change (run (c :: cs) s) with (run cs (exec c s)).
    destruct (IH (exec c s)) as (Hs & He & Hr). rewrite Hs, He, Hr.
    unfold count_steps, count_resets in *.
    destruct c as [obs d | | batch |]; simpl.
    + destruct (step_counters obs d s) as (-> & _ & -> & -> & _).
      repeat split; lia.
    + repeat split; lia.
    + pose proof (optimize_frame_lemma batch s) as Hp.
      injection Hp as -> _ -> -> _ _ _ _ _ _ _ _ _. repeat split; lia.
    + pose proof (update_target_net_frame s) as Hp.
      injection Hp as -> _ -> -> _ _ _ _ _ _ _ _ _ _ _. repeat split; lia.
Qed.

Lemma exec_update_cnt (c : call) (s : agent) :
  is_reset c = false ->
  update_cnt (exec c s) = update_cnt s + (if syncs c s then 1 else 0).
Proof.
  destruct c as [obs d | | batch |]; simpl; intros Hr; try discriminate Hr.
  - destruct (step_counters obs d s) as (_ & _ & _ & _ & ->). lia.
  - unfold optimize, bind, get. simpl.
    destruct (batch_loss _ _ _ _) as [loss |]; simpl; [| lia].
    destruct (optimizer_step _ _ _) as [opt' theta']. unfold modify. simpl.
    set (s1 := set_net theta' (set_optimizer opt' s)).
    change (sync_due s) with (sync_due s1).
    change (update_cnt s) with (update_cnt s1).
    match goal with |- update_cnt (final ?o) = _ =>
      assert (Hf : final o = final (update_target_net s1))
        by (unfold bind, ret; destruct (update_target_net s1) as [[] ? | ? ?];
            reflexivity)
    end.
    rewrite Hf, BaseAgentFacts.update_target_net_final. unfold sync_due.
    destruct (target_update_period s1 =? 0);
      [| destruct (steps s1 mod target_update_period s1 =? 0)];
      subst s1; simpl; lia.
  - rewrite BaseAgentFacts.update_target_net_final. unfold sync_due.
    destruct (target_update_period s =? 0); simpl; try lia.
    destruct (steps s mod target_update_period s =? 0); simpl; lia.
Qed.

Lemma run_update_cnt (cs : list call) (s : agent) :
  forallb (fun c => negb (is_reset c)) cs = true ->
  update_cnt (run cs s) = update_cnt s + sync_count cs s.
Proof.
  revert s. induction cs as [| c cs IH]; intros s; simpl.
  - lia.
  - intros Hall. apply andb_true_iff in Hall as [Hc Hall].
    apply negb_true_iff in Hc.
    change (run (c :: cs) s) with (run cs (exec c s)).
    rewrite IH by exact Hall. rewrite exec_update_cnt by exact Hc. lia.
Qed.

(** [update_cnt] is the number of synchronisations of the target network
    since the last [reset]: [reset] sets it to 0 and, until the next
    [reset], every call that copies the online parameters adds one and no
    other call changes it. *)
Theorem update_cnt_counts_syncs (cs1 cs2 : list call) (s : agent) :
  forallb (fun c => negb (is_reset c)) cs2 = true ->
  update_cnt (run (cs1 ++ call_reset :: cs2) s) =
  sync_count cs2 (run (cs1 ++ [call_reset]) s).
Proof.
  intros Hall.
  replace (cs1 ++ call_reset :: cs2) with ((cs1 ++ [call_reset]) ++ cs2)
    by (rewrite <- app_assoc; reflexivity).
  rewrite BaseAgentFacts.run_app, run_update_cnt by exact Hall.
  rewrite BaseAgentFacts.run_app. simpl. lia.
Qed.

(** *** Failures of [optimize] *)

Lemma gather_out_of_range {X : Type} (f : X -> list R) (ix : X -> nat)
    (l : list X) (x : X) :
  x ∈ l -> (length (f x) <= ix x)%nat ->
  gather (map f l) (map ix l) = None.
Proof.
  unfold gather. intros Hin Hge.
  induction l as [| a l IH]; [inversion Hin |].
  simpl. apply elem_of_cons in Hin as [<- | Hin].
  - rewrite (lookup_ge_None_2 (f x) (ix x)) by exact Hge. reflexivity.
  - destruct (f a !! ix a); [| reflexivity]. simpl.
    rewrite IH by exact Hin. reflexivity.
Qed.

Lemma head_predicted_out_of_range (theta : params) (batch : list transition)
    (h : list R * list R * list R -> list R) (ix : transition -> nat)
    (tr : transition) :
  tr ∈ batch -> (length (h (forward theta (t_state tr))) <= ix tr)%nat ->
  head_predicted theta batch h ix = None.
Proof.
  intros Hin Hge. unfold head_predicted. rewrite !map_map.
  apply (gather_out_of_range (fun t => h (forward theta (t_state t))) ix
           batch tr Hin Hge).
Qed.

(** [optimize] raises before it has touched the agent when no loss can be
    computed: on an empty batch, and when a transition's action, x or y
    index lies outside the corresponding head of the online network.  When
    the loss exists but [target_update_period] is 0, it raises
    [ZeroDivisionError] after the optimizer has already replaced the online
    parameters, and the target network is left as it was. *)
Theorem optimize_failures (batch : list transition) (s : agent) :
  (batch_loss (gamma s) (net s) (target_net s) batch = None ->
   optimize batch s = Raise RuntimeError s) /\
  (batch = [] -> optimize batch s = Raise RuntimeError s) /\
  (forall tr, tr ∈ batch ->
     let q := forward (net s) (t_state tr) in
     (length (head_action q) <= t_action tr)%nat \/
     (length (head_x q) <= t_x_coord tr)%nat \/
     (length (head_y q) <= t_y_coord tr)%nat ->
     optimize batch s = Raise RuntimeError s) /\
  (forall loss,
     batch_loss (gamma s) (net s) (target_net s) batch = Some loss ->
     target_update_period s = 0 ->
     let r :=
       optimizer_step (optimizer s)
         (fun th => batch_loss (gamma s) th (target_net s) batch) (net s) in
     optimize batch s =
     Raise ZeroDivisionError (set_net r.2 (set_optimizer r.1 s)) /\
     target_net (final (optimize batch s)) = target_net s).
Proof.
  assert (Hnone : batch_loss (gamma s) (net s) (target_net s) batch = None ->
                  optimize batch s = Raise RuntimeError s).
  { intros H. unfold optimize, bind, get. simpl. rewrite H. reflexivity. }
  split; [exact Hnone |]. split; [intros ->; apply Hnone; reflexivity |].
  split.
  - intros tr Hin q Hbad. apply Hnone.
    assert (Hne : batch <> []) by (intros ->; inversion Hin).
    rewrite BaseAgentFacts.batch_loss_heads by exact Hne.
    destruct Hbad as [Hbad | [Hbad | Hbad]].
    + rewrite (head_predicted_out_of_range _ _ head_action t_action tr Hin Hbad).
      reflexivity.
    + rewrite (head_predicted_out_of_range _ _ head_x t_x_coord tr Hin Hbad).
      destruct (head_predicted _ _ head_action _); reflexivity.
    + rewrite (head_predicted_out_of_range _ _ head_y t_y_coord tr Hin Hbad).
      destruct (head_predicted _ _ head_action _); [| reflexivity].
      destruct (head_predicted _ _ head_x _); reflexivity.
  - intros loss Hloss Hp r.
    assert (Ho : optimize batch s =
                 Raise ZeroDivisionError (set_net r.2 (set_optimizer r.1 s))).
    { unfold optimize, bind, get. simpl. rewrite Hloss. simpl.
      subst r. destruct (optimizer_step _ _ _) as [opt' theta'].
      unfold modify, update_target_net, bind, get. simpl.
      rewrite Hp. reflexivity. }
    split; [exact Ho |]. rewrite Ho. reflexivity.
Qed.

(** [optimize] changes the two networks, the optimizer, [update_cnt] and
    [update_status], and nothing else: the exploration schedule, the step
    and episode counters, the accumulated reward and the configuration are
    what they were, whether it returns or raises. *)
Theorem optimize_frame (batch : list transition) (s : agent) :
  let s' := final (optimize batch s) in
  steps_done s' = steps_done s /\ epsilon s' = epsilon s /\
  eps_start s' = eps_start s /\ eps_end s' = eps_end s /\
  eps_decay s' = eps_decay s /\ choice s' = choice s /\
  steps s' = steps s /\ timesteps s' = timesteps s /\
  episodes s' = episodes s /\ reward s' = reward s /\
  gamma s' = gamma s /\ screen_dim s' = screen_dim s /\
  target_update_period s' = target_update_period s.
Proof.
  intros s'. pose proof (optimize_frame_lemma batch s) as Hp.
  injection Hp as H1 H2 H3 H4 H5 H6 H7 H8 H9 H10 H11 H12 H13.
  repeat split; assumption.
Qed.

(** *** The sign of the loss *)

Lemma squares_sum (x y : list R) :
  length x = length y ->
  (0 <= Rsum (zip_with (fun a b => (a - b) * (a - b)) x y))%R /\
  (Rsum (zip_with (fun a b => ((a - b) * (a - b))%R) x y) = 0%R -> x = y).
Proof.
  revert y. induction x as [| a x IH]; intros [| b y] Hlen;
    try discriminate Hlen; simpl.
  - split; [lra | reflexivity].
  - injection Hlen as Hlen. destruct (IH y Hlen) as [Hpos Hzero].
    assert (Hsq : (0 <= (a - b) * (a - b))%R) by apply (Rle_0_sqr (a - b)).
    split; [lra |].
    intros Hsum.
    assert (Ha : ((a - b) * (a - b) = 0)%R) by lra.
    assert (Hab : a = b).
    { apply Rmult_integral in Ha. destruct Ha; lra. }
    rewrite Hab. f_equal. apply Hzero. lra.
Qed.

Lemma mse_loss_sign (x y : list R) :
  length x = length y -> x <> [] ->
  (0 <= mse_loss x y)%R /\ (mse_loss x y = 0%R <-> x = y).
Proof.
  intros Hlen Hne. unfold mse_loss.
  destruct (squares_sum x y Hlen) as [Hpos Hzero].
  assert (Hn : (0 < INR (length x))%R).
  { apply lt_0_INR. destruct x; [congruence | simpl; lia]. }
  split.
  - apply Rmult_le_pos; [exact Hpos |].
    left. apply Rinv_0_lt_compat. exact Hn.
  - split.
    + intros H. apply Hzero.
      apply Rmult_eq_compat_r with (r := INR (length x)) in H.
      unfold Rdiv in H. rewrite Rmult_assoc, Rinv_l in H by lra. lra.
    + intros <-.
      replace (zip_with (fun a b => ((a - b) * (a - b))%R) x x)
        with (map (fun _ : R => 0%R) x).
      * replace (Rsum (map (fun _ : R => 0%R) x)) with 0%R;
          [unfold Rdiv; ring |].
        clear. induction x as [| a x IH]; simpl; [reflexivity | lra].
      * clear. induction x as [| a x IH]; simpl; [reflexivity |].
        f_equal; [ring | exact IH].
Qed.

Lemma optimize_Return_loss (batch : list transition) (s s' : agent)
    (loss : R) :
  optimize batch s = Return loss s' ->
  batch_loss (gamma s) (net s) (target_net s) batch = Some loss.
Proof.
  unfold optimize, bind, get. simpl.
  destruct (batch_loss (gamma s) (net s) (target_net s) batch) as [l |];
    simpl; [| discriminate].
  destruct (optimizer_step _ _ _) as [opt' theta'].
  unfold modify. simpl.
  destruct (update_target_net _) as [[] s1 | e s1]; [| discriminate].
  unfold ret. intros [= -> _]. reflexivity.
Qed.

(** The loss [optimize] returns is never negative, and it is 0 exactly
    when, in every head, the online value at each chosen index is already
    the target of that transition. *)
Theorem optimize_loss_sign (batch : list transition) (s s' : agent)
    (loss : R) :
  optimize batch s = Return loss s' ->
  (0 <= loss)%R /\
  (loss = 0%R <->
   head_target (gamma s) (target_net s) batch head_action =
     Some (spec_predicted (net s) batch head_action t_action) /\
   head_target (gamma s) (target_net s) batch head_x =
     Some (spec_predicted (net s) batch head_x t_x_coord) /\
   head_target (gamma s) (target_net s) batch head_y =
     Some (spec_predicted (net s) batch head_y t_y_coord)).
Proof.
  intros H. apply optimize_Return_loss in H.
  assert (Hne : batch <> []) by (intros ->; discriminate H).
  rewrite BaseAgentFacts.batch_loss_heads in H by exact Hne.
  destruct (head_predicted (net s) batch head_action t_action)
    as [qa |] eqn:Hqa; [| discriminate H].
  destruct (head_predicted (net s) batch head_x t_x_coord)
    as [qx |] eqn:Hqx; [| discriminate H].
  destruct (head_predicted (net s) batch head_y t_y_coord)
    as [qy |] eqn:Hqy; [| discriminate H].
  cbn [mbind option_bind] in H.
  destruct (head_target (gamma s) (target_net s) batch head_action)
    as [ta |] eqn:Hta; [| discriminate H].
  destruct (head_target (gamma s) (target_net s) batch head_x)
    as [tx |] eqn:Htx; [| discriminate H].
  destruct (head_target (gamma s) (target_net s) batch head_y)
    as [ty |] eqn:Hty; [| discriminate H].
  cbn [mbind option_bind] in H. injection H as <-.
  apply BaseAgentFacts.head_predicted_spec in Hqa, Hqx, Hqy.
  subst qa qx qy.
  apply BaseAgentFacts.head_target_length in Hta, Htx, Hty.
  set (pa := spec_predicted (net s) batch head_action t_action) in *.
  set (px := spec_predicted (net s) batch head_x t_x_coord) in *.
  set (py := spec_predicted (net s) batch head_y t_y_coord) in *.
  assert (Hpa : length pa = length batch)
    by (unfold pa, spec_predicted; apply length_map).
  assert (Hpx : length px = length batch)
    by (unfold px, spec_predicted; apply length_map).
  assert (Hpy : length py = length batch)
    by (unfold py, spec_predicted; apply length_map).
  destruct (mse_loss_sign (pa ++ px ++ py) (ta ++ tx ++ ty)) as [Hpos Hiff].
  { rewrite !length_app. lia. }
  { destruct batch; [congruence |]. destruct pa; [discriminate Hpa |].
    discriminate. }
  split; [exact Hpos |]. rewrite Hiff. split.
  - intros Heq.
    apply app_inj_1 in Heq as [-> Heq]; [| lia].
    apply app_inj_1 in Heq as [-> ->]; [| lia].
    repeat split; reflexivity.
  - intros ([= ->] & [= ->] & [= ->]). reflexivity.
Qed.

Lemma optimize_returns (batch : list transition) (s : agent) :
  well_formed s batch -> target_update_period s <> 0 ->
  exists loss s', optimize batch s = Return loss s'.
Proof.
  intros Hwf Hp.
  destruct (BaseAgentFacts.batch_loss_defined s batch Hwf) as [loss Hloss].
  unfold optimize, bind, get. rewrite Hloss. simpl.
  destruct (optimizer_step _ _ _) as [opt' theta'].
  unfold modify. simpl.
  destruct (BaseAgentFacts.update_target_net_returns
              (set_net theta' (set_optimizer opt' s)) Hp) as [s' ->].
  exists loss, s'. reflexivity.
Qed.

End Facts.

End BaseAgentMore.

(** ** More on [CompassAgent] *)

Module CompassAgentMore.

Import CompassAgent CompassTraces.

(** *** Pixel positions *)

Lemma row_locs_spec (y x0 : Z) (row : list bool) (x' y' : Z) :
  In (x', y') (row_locs y x0 row) <->
  y' = y /\ x0 <= x' /\ row !! Z.to_nat (x' - x0) = Some true.
Proof.
  revert x0. induction row as [| b t IH]; intros x0.
  - simpl. split; [intros [] | intros (_ & _ & H); discriminate H].
  - assert (Hin : In (x', y') (row_locs y x0 (b :: t)) <->
                  (b = true /\ (x0, y) = (x', y')) \/
                  In (x', y') (row_locs y (x0 + 1) t)).
    { simpl. destruct b; simpl; split; intros H.
      - destruct H as [H | H]; [left; split; [reflexivity | exact H] |
                                right; exact H].
      - destruct H as [[_ H] | H]; [left; exact H | right; exact H].
      - right. exact H.
      - destruct H as [[H _] | H]; [discriminate H | exact H]. }
    rewrite Hin, IH. clear Hin IH.
    destruct (Z.eq_dec x' x0) as [-> | Hne].
    + rewrite Z.sub_diag. simpl. split.
      * intros [[-> H] | (_ & H & _)]; [| lia].
        inversion H. subst. repeat split; lia.
      * intros (-> & _ & H). inversion H. left. split; reflexivity.
    + split.
      * intros [[_ H] | (-> & Hle & H)]; [inversion H; lia |].
        split; [reflexivity |]. split; [lia |].
        replace (Z.to_nat (x' - x0)) with (S (Z.to_nat (x' - (x0 + 1))))
          by lia.
        exact H.
      * intros (-> & Hle & H). right.
        split; [reflexivity |]. split; [lia |].
        replace (Z.to_nat (x' - x0)) with (S (Z.to_nat (x' - (x0 + 1))))
          in H by lia.
        exact H.
Qed.

Lemma xy_locs_from_spec (y0 : Z) (mask : list (list bool)) (x y : Z) :
  In (x, y) (xy_locs_from y0 mask) <->
  y0 <= y /\ 0 <= x /\
  exists row, mask !! Z.to_nat (y - y0) = Some row /\
              row !! Z.to_nat x = Some true.
Proof.
  revert y0. induction mask as [| row t IH]; intros y0.
  - simpl. split; [intros [] | intros (_ & _ & r & H & _); discriminate H].
  - simpl xy_locs_from. rewrite in_app_iff, row_locs_spec, IH. clear IH.
    rewrite Z.sub_0_r.
    destruct (Z.eq_dec y y0) as [-> | Hne].
    + rewrite Z.sub_diag. simpl. split.
      * intros [(_ & Hx & H) | (H & _)]; [| lia].
        split; [lia |]. split; [exact Hx |]. exists row. split;
          [reflexivity | exact H].
      * intros (_ & Hx & r & Hr & H). inversion Hr. subst r.
        left. split; [reflexivity |]. split; [exact Hx | exact H].
    + split.
      * intros [(H & _) | (Hle & Hx & r & Hr & H)]; [contradiction |].
        split; [lia |]. split; [exact Hx |]. exists r.
        replace (Z.to_nat (y - y0)) with (S (Z.to_nat (y - (y0 + 1))))
          by lia.
        split; [exact Hr | exact H].
      * intros (Hle & Hx & r & Hr & H). right.
        split; [lia |]. split; [exact Hx |]. exists r.
        replace (Z.to_nat (y - y0)) with (S (Z.to_nat (y - (y0 + 1))))
          in Hr by lia.
        split; [exact Hr | exact H].
Qed.

Lemma row_locs_NoDup (y x0 : Z) (row : list bool) :
  NoDup (row_locs y x0 row).
Proof.
  revert x0. induction row as [| b t IH]; intros x0; simpl.
  - apply NoDup_nil_2.
  - destruct b; [| apply IH].
    apply NoDup_cons_2; [| apply IH].
    intros H. apply list_elem_of_In, row_locs_spec in H. lia.
Qed.

Lemma xy_locs_from_NoDup (y0 : Z) (mask : list (list bool)) :
  NoDup (xy_locs_from y0 mask).
Proof.
  revert y0. induction mask as [| row t IH]; intros y0; simpl.
  - apply NoDup_nil_2.
  - apply NoDup_app. split; [apply row_locs_NoDup |].
    split; [| apply IH].
    intros [x y] H1 H2.
    apply list_elem_of_In, row_locs_spec in H1.
    apply list_elem_of_In, xy_locs_from_spec in H2. lia.
Qed.

Lemma eq_mask_lookup (v : Z) (l : list (list Z)) (x y : nat) :
  (exists row, eq_mask v l !! y = Some row /\ row !! x = Some true) <->
  (exists row, l !! y = Some row /\ row !! x = Some v).
Proof.
  unfold eq_mask. rewrite list_lookup_fmap. split.
  - intros (row & Hr & Hx).
    destruct (l !! y) as [r |]; simpl in Hr; [| discriminate Hr].
    inversion Hr. subst row. rewrite list_lookup_fmap in Hx.
    exists r. split; [reflexivity |].
    destruct (r !! x) as [c |]; simpl in Hx; [| discriminate Hx].
    inversion Hx as [Hc]. apply Z.eqb_eq in Hc. subst c.
    reflexivity.
  - intros (r & -> & Hx). simpl. eexists. split; [reflexivity |].
    rewrite list_lookup_fmap, Hx. simpl. rewrite Z.eqb_refl. reflexivity.
Qed.

Lemma xy_locs_In (v : Z) (l : layer) (x y : Z) :
  In (x, y) (_xy_locs (eq_mask v l)) <->
  0 <= x /\ 0 <= y /\
  exists row, l !! Z.to_nat y = Some row /\ row !! Z.to_nat x = Some v.
Proof.
  unfold _xy_locs. rewrite xy_locs_from_spec, Z.sub_0_r.
  pose proof (eq_mask_lookup v l (Z.to_nat x) (Z.to_nat y)) as He.
  split; intros (H1 & H2 & H3); (split; [exact H2 |]);
    (split; [exact H1 |]); apply He; exact H3.
Qed.

(** [_xy_locs] of the comparison of a feature layer with [v] lists the
    positions [(x, y)] at which the layer holds [v], those and no others,
    and each of them once. *)
Theorem xy_locs_exact (v : Z) (l : layer) :
  (forall x y : Z,
     In (x, y) (_xy_locs (eq_mask v l)) <->
     0 <= x /\ 0 <= y /\
     exists row, l !! Z.to_nat y = Some row /\ row !! Z.to_nat x = Some v) /\
  NoDup (_xy_locs (eq_mask v l)).
Proof.
  split; [apply xy_locs_In | apply xy_locs_from_NoDup].
Qed.

(** *** Rounding and centers *)

Lemma round_half_even_spec (num den : Z) :
  0 < den ->
  2 * Z.abs (round_half_even num den * den - num) <= den /\
  (2 * Z.abs (round_half_even num den * den - num) = den ->
   Z.even (round_half_even num den) = true).
Proof.
  intros Hden. unfold round_half_even.
  pose proof (Z.div_mod num den ltac:(lia)) as Hdm.
  pose proof (Z.mod_pos_bound num den Hden) as Hb.
  set (q := num / den) in *. set (r := num mod den) in *.
  destruct (Z.ltb_spec (2 * r) den) as [H1 | H1].
  - split; [nia | intros H; nia].
  - destruct (Z.ltb_spec den (2 * r)) as [H2 | H2].
    + split; [nia | intros H; nia].
    + destruct (Z.even q) eqn:He.
      * split; [nia | intros _; exact He].
      * split; [nia |]. intros _.
        rewrite Z.add_1_r, Z.even_succ, <- Z.negb_even, He. reflexivity.
Qed.

Lemma round_half_even_between (num den lo hi : Z) :
  0 < den -> lo * den <= num <= hi * den ->
  lo <= round_half_even num den <= hi.
Proof.
  intros Hden Hn.
  destruct (round_half_even_spec num den Hden) as [H _].
  set (r := round_half_even num den) in *. nia.
Qed.

Lemma Zsum_between (l : list Z) (lo hi : Z) :
  (forall v, In v l -> lo <= v <= hi) ->
  lo * Z.of_nat (length l) <= Zsum l <= hi * Z.of_nat (length l).
Proof.
  induction l as [| a t IH]; intros H.
  - simpl. lia.
  - assert (Ha : lo <= a <= hi) by (apply H; left; reflexivity).
    assert (Ht : lo * Z.of_nat (length t) <= Zsum t <= hi * Z.of_nat (length t))
      by (apply IH; intros v Hv; apply H; right; exact Hv).
    change (Zsum (a :: t)) with (a + Zsum t).
    change (length (a :: t)) with (S (length t)). lia.
Qed.

Lemma mean_round_between (locs : list (Z * Z)) (x0 x1 y0 y1 cx cy : Z) :
  (forall x y, In (x, y) locs -> x0 <= x <= x1 /\ y0 <= y <= y1) ->
  mean_round locs = xy cx cy ->
  x0 <= cx <= x1 /\ y0 <= cy <= y1.
Proof.
  intros H Hm. destruct locs as [| p t]; [discriminate Hm |].
  remember (p :: t) as l eqn:El.
  assert (Hlen : 0 < Z.of_nat (length l)) by (subst l; simpl; lia).
  assert (Hdef : mean_round l =
                 xy (round_half_even (Zsum (map fst l)) (Z.of_nat (length l)))
                    (round_half_even (Zsum (map snd l)) (Z.of_nat (length l))))
    by (subst l; reflexivity).
  rewrite Hdef in Hm. inversion Hm. clear Hm Hdef.
  assert (Hx : x0 * Z.of_nat (length l) <= Zsum (map fst l)
               <= x1 * Z.of_nat (length l)).
  { rewrite <- (length_map fst l). apply Zsum_between.
    intros v Hv. apply in_map_iff in Hv. destruct Hv as ([x y] & <- & Hv).
    apply (H x y Hv). }
  assert (Hy : y0 * Z.of_nat (length l) <= Zsum (map snd l)
               <= y1 * Z.of_nat (length l)).
  { rewrite <- (length_map snd l). apply Zsum_between.
    intros v Hv. apply in_map_iff in Hv. destruct Hv as ([x y] & <- & Hv).
    apply (H x y Hv). }
  split; apply round_half_even_between; assumption.
Qed.

Lemma center_on_layer (v : Z) (l : layer) (w h cx cy : Z) :
  (forall row, In row l -> Z.of_nat (length row) <= w) ->
  Z.of_nat (length l) <= h ->
  mean_round (_xy_locs (eq_mask v l)) = xy cx cy ->
  0 <= cx < w /\ 0 <= cy < h.
Proof.
  intros Hw Hh Hm.
  cut (0 <= cx <= w - 1 /\ 0 <= cy <= h - 1); [lia |].
  refine (mean_round_between _ _ _ _ _ _ _ _ Hm).
  intros x y Hin. apply xy_locs_In in Hin.
  destruct Hin as (Hx & Hy & row & Hr & Hc).
  pose proof (lookup_lt_Some _ _ _ Hr) as Hly.
  pose proof (lookup_lt_Some _ _ _ Hc) as Hlx.
  assert (Hrow : In row l)
    by (apply list_elem_of_In; eapply list_elem_of_lookup_2; exact Hr).
  specialize (Hw row Hrow). lia.
Qed.

(** The center [np.mean(locs, axis=0).round()] of a non-empty list of
    positions is, in each coordinate, an integer nearest to the mean, and
    the even one when the mean lies halfway between two integers. *)
Theorem mean_round_nearest_even (p : Z * Z) (t : list (Z * Z)) :
  exists cx cy,
    mean_round (p :: t) = xy cx cy /\
    let n := Z.of_nat (length (p :: t)) in
    let sx := Zsum (map fst (p :: t)) in
    let sy := Zsum (map snd (p :: t)) in
    2 * Z.abs (cx * n - sx) <= n /\
    2 * Z.abs (cy * n - sy) <= n /\
    (2 * Z.abs (cx * n - sx) = n -> Z.even cx = true) /\
    (2 * Z.abs (cy * n - sy) = n -> Z.even cy = true).
Proof.
  eexists. eexists. split; [reflexivity |].
  cbv zeta.
  assert (Hn : 0 < Z.of_nat (length (p :: t))) by (simpl; lia).
  destruct (round_half_even_spec (Zsum (map fst (p :: t))) _ Hn) as [Hx Hxe].
  destruct (round_half_even_spec (Zsum (map snd (p :: t))) _ Hn) as [Hy Hye].
  repeat split; assumption.
Qed.

(** *** The distance *)

Lemma mean_round_nan (locs : list (Z * Z)) :
  mean_round locs = nan <-> locs = [].
Proof.
  destruct locs; simpl; split; intros H; try reflexivity; discriminate H.
Qed.

Lemma hypot_sign (a b : Z) :
  (0 <= hypot (IZR a) (IZR b))%R /\
  (hypot (IZR a) (IZR b) = 0%R <-> a = 0 /\ b = 0).
Proof.
  unfold hypot. split; [apply sqrt_pos |]. split.
  - intros H. apply sqrt_eq_0 in H.
    + pose proof (Rle_0_sqr (IZR a)) as Ha.
      pose proof (Rle_0_sqr (IZR b)) as Hb.
      unfold Rsqr in Ha, Hb.
      assert (Ha0 : (IZR a * IZR a)%R = 0%R) by lra.
      assert (Hb0 : (IZR b * IZR b)%R = 0%R) by lra.
      split; apply eq_IZR_R0.
      * destruct (Rmult_integral _ _ Ha0); assumption.
      * destruct (Rmult_integral _ _ Hb0); assumption.
    + pose proof (Rle_0_sqr (IZR a)) as Ha.
      pose proof (Rle_0_sqr (IZR b)) as Hb.
      unfold Rsqr in Ha, Hb. lra.
  - intros [-> ->]. replace (0 * 0 + 0 * 0)%R with 0%R by ring.
    apply sqrt_0.
Qed.

Lemma calculate_distance_None (pr sel : layer) :
  calculate_distance pr sel = None <-> _xy_locs (eq_mask 3 pr) = [].
Proof.
  unfold calculate_distance.
  pose proof (mean_round_nan (_xy_locs (eq_mask 3 pr))) as Hb.
  destruct (mean_round (_xy_locs (eq_mask 3 pr))) as [| bx by_];
    destruct (mean_round (_xy_locs (eq_mask 1 sel))) as [| mx my]; simpl.
  - split; [intros _; apply Hb; reflexivity | reflexivity].
  - split; [intros _; apply Hb; reflexivity | reflexivity].
  - split; [intros H; discriminate H |].
    intros H. apply Hb in H. discriminate H.
  - split; [intros H; discriminate H |].
    intros H. apply Hb in H. discriminate H.
Qed.

(** [calculate_distance] fails, on indexing the scalar [nan], exactly when
    the layer shows no beacon pixel, whatever is selected.  Otherwise the
    beacon center is the rounded mean of the beacon pixels, the marine
    center is the rounded mean of the selected pixels or, without any, the
    beacon center, and the distance is non-negative and is zero exactly
    when the two centers coincide. *)
Theorem calculate_distance_cases (pr sel : layer) :
  (calculate_distance pr sel = None <-> _xy_locs (eq_mask 3 pr) = []) /\
  (forall bc mc d,
     calculate_distance pr sel = Some (bc, mc, d) ->
     bc = mean_round (_xy_locs (eq_mask 3 pr)) /\
     (mc = mean_round (_xy_locs (eq_mask 1 sel)) \/
      _xy_locs (eq_mask 1 sel) = [] /\ mc = bc) /\
     (0 <= d)%R /\ (d = 0%R <-> mc = bc)).
Proof.
  unfold calculate_distance.
  pose proof (mean_round_nan (_xy_locs (eq_mask 3 pr))) as Hb.
  pose proof (mean_round_nan (_xy_locs (eq_mask 1 sel))) as Hm.
  destruct (mean_round (_xy_locs (eq_mask 3 pr))) as [| bx by_];
    destruct (mean_round (_xy_locs (eq_mask 1 sel))) as [| mx my]; simpl.
  - split; [split; [intros _; apply Hb; reflexivity | reflexivity] |].
    intros bc mc d H. discriminate H.
  - split; [split; [intros _; apply Hb; reflexivity | reflexivity] |].
    intros bc mc d H. discriminate H.
  - split.
    + split; [intros H; discriminate H |].
      intros H. apply Hb in H. discriminate H.
    + intros bc mc d H. inversion H. subst bc mc d. clear H.
      destruct (hypot_sign (bx - bx) (by_ - by_)) as [Hpos Hz].
      split; [reflexivity |].
      split; [right; split; [apply Hm; reflexivity | reflexivity] |].
      split; [exact Hpos |]. split; [reflexivity |].
      intros _. apply Hz. lia.
  - split.
    + split; [intros H; discriminate H |].
      intros H. apply Hb in H. discriminate H.
    + intros bc mc d H. inversion H. subst bc mc d. clear H.
      destruct (hypot_sign (bx - mx) (by_ - my)) as [Hpos Hz].
      split; [reflexivity |].
      split; [left; reflexivity |].
      split; [exact Hpos |]. split.
      * intros H. apply Hz in H. f_equal; lia.
      * intros H. apply Hz. inversion H. lia.
Qed.

(** On layers of at most [h] rows of at most [w] columns, the two centers
    that [calculate_distance] finds are positions of the screen. *)
Theorem centers_on_screen (pr sel : layer) (w h bx by_ mx my : Z) (d : R) :
  (forall row, In row pr -> Z.of_nat (length row) <= w) ->
  Z.of_nat (length pr) <= h ->
  (forall row, In row sel -> Z.of_nat (length row) <= w) ->
  Z.of_nat (length sel) <= h ->
  calculate_distance pr sel = Some (xy bx by_, xy mx my, d) ->
  (0 <= bx < w /\ 0 <= by_ < h) /\ (0 <= mx < w /\ 0 <= my < h).
Proof.
  intros Hpw Hph Hsw Hsh H. unfold calculate_distance in H.
  destruct (mean_round (_xy_locs (eq_mask 3 pr))) as [| bx' by'] eqn:Eb;
    destruct (mean_round (_xy_locs (eq_mask 1 sel))) as [| mx' my'] eqn:Em;
    simpl in H; try discriminate H; inversion H; subst.
  - pose proof (center_on_layer 3 pr w h _ _ Hpw Hph Eb). tauto.
  - split.
    + apply (center_on_layer 3 pr w h _ _ Hpw Hph Eb).
    + apply (center_on_layer 1 sel w h _ _ Hsw Hsh Em).
Qed.

Section Facts.

Context {assets : Assets}.

Lemma compass_can_do_In_more (a : Z) (s : agent) :
  In a (available_actions (now s)) ->
  existsb (Z.eqb a) (available_actions (now s)) = true.
Proof.
  intros Ha. apply existsb_exists. exists a.
  split; [exact Ha | apply Z.eqb_refl].
Qed.

(** *** [prepare_timestep] without a beacon *)

Lemma prepare_timestep_Raise (obs : observation) (s : agent) :
  _xy_locs (eq_mask 3 (obs_player_relative obs)) = [] ->
  prepare_timestep obs s =
    Raise IndexError (final (prepare_timestep obs s)) /\
  DQN (final (prepare_timestep obs s)) = DQN s /\
  episodes (final (prepare_timestep obs s)) = episodes s /\
  schedule (final (prepare_timestep obs s)) = schedule s /\
  timesteps (final (prepare_timestep obs s)) = timesteps s + 1.
Proof.
  intros H. apply (calculate_distance_None _ (obs_selected obs)) in H.
  unfold prepare_timestep, bind, modify, get. simpl. rewrite H. simpl.
  repeat split.
Qed.

(** [prepare_timestep] raises exactly when the observation shows no beacon
    pixel, and then with [IndexError].  The counters and the copies of the
    observation are updated before that point, also when it raises; the
    centers and the distance are then those of the observation before. *)
Theorem prepare_timestep_failure (obs : observation) (s : agent) :
  let s' := final (prepare_timestep obs s) in
  (steps s' = steps s + 1 /\ timesteps s' = timesteps s + 1 /\
   reward s' = reward s + obs_reward obs /\
   available_actions (now s') = obs_available_actions obs /\
   feature_screen (now s') = obs_player_relative obs /\
   feature_screen2 (now s') = obs_selected obs /\
   state (now s') = obs_player_relative obs) /\
  ((exists e, prepare_timestep obs s = Raise e s') <->
   _xy_locs (eq_mask 3 (obs_player_relative obs)) = []) /\
  (_xy_locs (eq_mask 3 (obs_player_relative obs)) = [] ->
   prepare_timestep obs s = Raise IndexError s' /\
   beacon_center (now s') = beacon_center (now s) /\
   marine_center (now s') = marine_center (now s) /\
   distance (now s') = distance (now s)).
Proof.
  pose proof (calculate_distance_None (obs_player_relative obs)
                (obs_selected obs)) as Hnone.
  unfold prepare_timestep, bind, modify, get. simpl.
  destruct (calculate_distance (obs_player_relative obs) (obs_selected obs))
    as [[[bc mc] d] |] eqn:Hc; simpl.
  - split; [repeat split |]. split.
    + split.
      * intros [e H]. discriminate H.
      * intros H. apply Hnone in H. discriminate H.
    + intros H. apply Hnone in H. discriminate H.
  - split; [repeat split |]. split.
    + split; [intros _; apply Hnone; reflexivity |].
      intros _. exists IndexError. reflexivity.
    + intros _. repeat split.
Qed.

(** *** The moves of [translate_to_PYSC2_action] *)

(** With [Move_screen] available and the commanded direction not blocked,
    the target of the move is the marine center displaced by exactly 4
    along the direction; any other action name gives Python's [None].  The
    agent is left as it was.  The target is not checked against the
    screen: from a center less than 4 away from the left edge, ['left']
    moves to a negative x. *)
Theorem translate_unblocked_moves (s : agent) (action : string) (x y : Z) :
  marine_center (now s) = xy x y ->
  In Pysc2.Move_screen_id (available_actions (now s)) ->
  (action = "left"%string -> 0 < x ->
   translate_to_PYSC2_action action s =
     Return (Some (Pysc2.Move_screen "now" (x - 4) y)) s) /\
  (action = "up"%string -> 0 < y ->
   translate_to_PYSC2_action action s =
     Return (Some (Pysc2.Move_screen "now" x (y - 4))) s) /\
  (action = "right"%string -> x < 83 ->
   translate_to_PYSC2_action action s =
     Return (Some (Pysc2.Move_screen "now" (x + 4) y)) s) /\
  (action = "down"%string -> y < 63 ->
   translate_to_PYSC2_action action s =
     Return (Some (Pysc2.Move_screen "now" x (y + 4))) s) /\
  (action <> "left"%string -> action <> "up"%string ->
   action <> "right"%string -> action <> "down"%string ->
   translate_to_PYSC2_action action s = Return None s) /\
  (action = "left"%string -> 0 < x < 4 ->
   exists tx, tx < 0 /\
     translate_to_PYSC2_action action s =
       Return (Some (Pysc2.Move_screen "now" tx y)) s).
Proof.
  intros Hmc Hin. apply compass_can_do_In_more in Hin.
  assert (Hl : action = "left"%string -> 0 < x ->
    translate_to_PYSC2_action action s =
      Return (Some (Pysc2.Move_screen "now" (x - 4) y)) s).
  { intros -> Hx.
    unfold translate_to_PYSC2_action, can_do, direction, move_from,
      bind, get, try, ret, raise. cbn beta iota. rewrite Hin. simpl.
    rewrite Hmc. simpl.
    destruct (Z.leb_spec x 0); [lia |]. simpl.
    repeat f_equal; lia. }
  split; [exact Hl |].
  split; [| split; [| split; [| split]]].
  - intros -> Hy.
    unfold translate_to_PYSC2_action, can_do, direction, move_from,
      bind, get, try, ret, raise. cbn beta iota. rewrite Hin. simpl.
    rewrite Hmc. simpl.
    destruct (Z.leb_spec y 0); [lia |]. simpl.
    repeat f_equal; lia.
  - intros -> Hx.
    unfold translate_to_PYSC2_action, can_do, direction, move_from,
      bind, get, try, ret, raise. cbn beta iota. rewrite Hin. simpl.
    rewrite Hmc. simpl.
    destruct (Z.leb_spec 83 x); [lia |]. simpl.
    repeat f_equal; lia.
  - intros -> Hy.
    unfold translate_to_PYSC2_action, can_do, direction, move_from,
      bind, get, try, ret, raise. cbn beta iota. rewrite Hin. simpl.
    rewrite Hmc. simpl.
    destruct (Z.leb_spec 63 y); [lia |]. simpl.
    repeat f_equal; lia.
  - intros H1 H2 H3 H4.
    apply String.eqb_neq in H1, H2, H3, H4.
    unfold translate_to_PYSC2_action, can_do, direction,
      bind, get, ret. cbn beta iota. rewrite Hin, H1, H2, H3, H4.
    reflexivity.
  - intros Ha Hx. exists (x - 4). split; [lia |]. apply Hl; [exact Ha | lia].
Qed.

(** *** Shaped rewards along a trajectory *)

Lemma last_cons_default (a d : R) (l : list R) :
  List.last (a :: l) d = List.last l a.
Proof.
  revert a d. induction l as [| b t IH]; intros a d; [reflexivity |].
  change (List.last (a :: b :: t) d) with (List.last (b :: t) d).
  rewrite IH. symmetry. apply IH.
Qed.

Lemma shaped_telescope (d0 : R) (ds : list R) :
  Forall (fun d => d <> 0%R) (removelast (d0 :: ds)) ->
  fold_right Rplus 0%R (zip_with shaped (d0 :: ds) ds) =
    (d0 - List.last ds d0)%R.
Proof.
  revert d0. induction ds as [| d1 t IH]; intros d0 H.
  - simpl. lra.
  - change (removelast (d0 :: d1 :: t)) with (d0 :: removelast (d1 :: t)) in H.
    inversion H as [| ? ? Hd0 Ht]. subst.
    change (zip_with shaped (d0 :: d1 :: t) (d1 :: t))
      with (shaped d0 d1 :: zip_with shaped (d1 :: t) t).
    change (fold_right Rplus 0%R (shaped d0 d1 :: zip_with shaped (d1 :: t) t))
      with (shaped d0 d1 + fold_right Rplus 0%R (zip_with shaped (d1 :: t) t))%R.
    rewrite (IH d1 Ht), last_cons_default.
    unfold shaped. destruct (Req_dec_T d0 0); [contradiction | lra].
Qed.

Lemma distance_of_Some (obs : observation) (d : R) :
  distance_of obs = Some d ->
  exists bc mc,
    calculate_distance (obs_player_relative obs) (obs_selected obs) =
      Some (bc, mc, d).
Proof.
  unfold distance_of.
  destruct (calculate_distance _ _) as [[[bc mc] d'] |]; intros H;
    [| discriminate H].
  inversion H. subst. exists bc, mc. reflexivity.
Qed.

(** Along a trajectory of observations that all show a beacon, the shaped
    rewards are those of the consecutive distances, no call raises, and as
    long as no distance but the last is zero they add up to the first
    distance minus the last one. *)
Theorem rewards_along_telescope (obs : observation)
    (rest : list observation) (s : agent) (d0 : R) (ds : list R) :
  distance_of obs = Some d0 ->
  mapM distance_of rest = Some ds ->
  rewards_along obs rest s = Some (zip_with shaped (d0 :: ds) ds) /\
  (Forall (fun d => d <> 0%R) (removelast (d0 :: ds)) ->
   fold_right Rplus 0%R (zip_with shaped (d0 :: ds) ds) =
     (d0 - List.last ds d0)%R).
Proof.
  intros H0 Hds. split; [| apply shaped_telescope].
  revert obs s d0 ds H0 Hds.
  induction rest as [| o t IH]; intros obs s d0 ds H0 Hds.
  - simpl in Hds. inversion Hds. reflexivity.
  - simpl in Hds.
    destruct (distance_of o) as [d1 |] eqn:H1; simpl in Hds;
      [| discriminate Hds].
    destruct (mapM distance_of t) as [ds' |] eqn:Ht; simpl in Hds;
      [| discriminate Hds].
    inversion Hds. subst ds. clear Hds.
    destruct (distance_of_Some obs d0 H0) as (bc & mc & Hc).
    destruct (distance_of_Some o d1 H1) as (bc' & mc' & Hc').
    destruct (CompassAgentFacts.observe_transition_Return obs o s
                _ _ _ _ _ _ Hc Hc') as (s' & Hs & Hr).
    simpl rewards_along. rewrite Hs.
    rewrite (IH o s' d1 ds' H1 eq_refl). simpl. rewrite Hr. reflexivity.
Qed.

(** *** What reaches the replay memory *)

(** One transition pushes one entry: the screen of the current
    observation, the index of the action chosen last, the shaped reward and
    the screen of the next observation.  When the next observation shows no
    beacon, [store_transition] raises before the push and the memory is as it
    was. *)
Theorem store_transition_pushes (obs next_obs : observation) (s : agent) :
  (forall bc mc d bc' mc' d',
     calculate_distance (obs_player_relative obs) (obs_selected obs) =
       Some (bc, mc, d) ->
     calculate_distance (obs_player_relative next_obs)
       (obs_selected next_obs) = Some (bc', mc', d') ->
     exists s',
       observe_transition obs next_obs s = Return tt s' /\
       DQN s' =
         memory_push (DQN s) (obs_player_relative obs) (action_idx s)
           (shaped d d') (obs_player_relative next_obs)) /\
  (_xy_locs (eq_mask 3 (obs_player_relative next_obs)) = [] ->
   exists s',
     store_transition next_obs s = Raise IndexError s' /\
     DQN s' = DQN s /\ reward_shaped (next s') = reward_shaped (next s)).
Proof.
  split.
  - intros bc mc d bc' mc' d' H H'.
    unfold observe_transition, prepare_timestep, store_transition,
      reward_shaping, bind, modify, get. simpl.
    rewrite H. simpl. rewrite H'. simpl.
    eexists. split; [reflexivity |]. reflexivity.
  - intros H. apply (calculate_distance_None _ (obs_selected next_obs)) in H.
    unfold store_transition, reward_shaping, bind, modify, get. simpl.
    rewrite H. simpl. eexists. split; [reflexivity |].
    split; reflexivity.
Qed.

(** *** The decisions that return *)

(** [choose_action] returns only from its exploring branch: the mode is
    ['learn'], the draw was ['random'], the index is the draw of [randint]
    below [action_dim], and the action is the translation of the name at
    that index.  Every other decision stops at [torch.no_grad()]. *)
Theorem compass_choose_action_returns (agent_mode : string) (d : draws)
    (s s' : agent) (acts : list (option Pysc2.FunctionCall)) (idx : nat) :
  choose_action agent_mode d s = Return (acts, idx) s' ->
  agent_mode = "learn"%string /\
  choice (schedule s') = Some random /\
  0 < action_dim s /\
  idx = (r_action d mod Z.to_nat (action_dim s))%nat /\
  exists a fc,
    SMART_ACTIONS !! idx = Some a /\
    translate_to_PYSC2_action a s' = Return fc s' /\
    acts = [fc].
Proof.
  intros H. unfold choose_action in H.
  apply bind_Return_inv in H. destruct H as (c & s1 & Heg & H).
  apply bind_Return_inv in H. destruct H as ([] & s2 & Hmod & H).
  unfold modify in Hmod. inversion Hmod. subst s2. clear Hmod.
  assert (Hdim : action_dim s1 = action_dim s).
  { assert (Hp : preserves action_dim (epsilon_greedy (u_choice d))).
    { unfold epsilon_greedy. preserved. }
    specialize (Hp s). rewrite Heg in Hp. exact Hp. }
  destruct c; simpl in H.
  - destruct (String.eqb_spec agent_mode "learn") as [-> | Hne].
    + method_inv.
      match goal with
      | Ht : translate_to_PYSC2_action ?a ?s0 = Return _ _ |- _ =>
          pose proof (CompassAgentFacts.translate_preserves
                        (fun a => a) a s0) as Hp;
          rewrite Ht in Hp; simpl in Hp; subst s'; rename Ht into Htr
      end.
      match goal with
      | Hr : randint _ _ = Some _ |- _ =>
          unfold randint in Hr; rewrite Hdim in Hr;
          destruct (Z.ltb_spec 0 (action_dim s)) as [Hpos | Hpos];
            [| discriminate Hr];
          inversion Hr; subst idx; clear Hr
      end.
      split; [reflexivity |]. split; [reflexivity |].
      split; [exact Hpos |]. split; [reflexivity |].
      eexists. eexists. split; [eassumption |].
      split; [exact Htr | reflexivity].
    + apply bind_Return_inv in H. destruct H as (? & ? & Hr & _).
      discriminate Hr.
  - apply bind_Return_inv in H. destruct H as (? & ? & Hr & _).
    discriminate Hr.
Qed.

End Facts.

End CompassAgentMore.

(** ** The policy of [CompassAgent] *)

Module CompassPolicyFacts.

Import CompassAgent CompassPolicy CompassTraces.

(** *** The forced direction *)

Lemma supervised_index_total (dx dy : Z) (action_choice : bool) (last : nat) :
  exists idx, supervised_index dx dy action_choice last = Some idx.
Proof.
  unfold supervised_index, left, up, right, down.
  destruct (Z.ltb_spec 0 dx), (Z.ltb_spec dx 0), (Z.eqb_spec dx 0),
    (Z.ltb_spec 0 dy), (Z.ltb_spec dy 0), (Z.eqb_spec dy 0);
    try lia; destruct action_choice; simpl; eexists; reflexivity.
Qed.

Lemma supervised_index_spec (dx dy : Z) (action_choice : bool)
    (last idx : nat) :
  supervised_index dx dy action_choice last = Some idx ->
  (dx = 0 /\ dy = 0 /\ idx = last) \/
  ((dx <> 0 \/ dy <> 0) /\ (idx < 4)%nat /\
   (displacement idx).1 * dx + (displacement idx).2 * dy < 0).
Proof.
  unfold supervised_index, left, up, right, down.
  destruct (Z.ltb_spec 0 dx), (Z.ltb_spec dx 0), (Z.eqb_spec dx 0),
    (Z.ltb_spec 0 dy), (Z.ltb_spec dy 0), (Z.eqb_spec dy 0);
    try lia; destruct action_choice; simpl; intros Hidx; inversion Hidx;
    subst;
    first [ left; repeat split; lia
          | right; simpl; repeat split; lia ].
Qed.

Section Facts.

Context {assets : Assets} {persistence : Persistence}.

#[local] Hint Resolve CompassAgentFacts.translate_preserves : preserves.

Lemma supervised_action_final (action_choice : bool) (s : agent) :
  final (supervised_action action_choice s) = s.
Proof.
  assert (Hp : preserves (fun a => a) (supervised_action action_choice)).
  { unfold supervised_action. preserved. }
  apply Hp.
Qed.

(** [supervised_action] never changes the agent.  With both centers
    undefined it raises [IndexError], with exactly one undefined it reads
    its unassigned local variable.  With both defined, the index it returns
    is the last index when the marine is on the beacon, and otherwise one of
    the four directions, whose displacement points from the marine towards
    the beacon: its scalar product with the vector from beacon to marine is
    negative. *)
Theorem supervised_action_direction (action_choice : bool) (s : agent) :
  final (supervised_action action_choice s) = s /\
  (marine_center (now s) = nan -> beacon_center (now s) = nan ->
   supervised_action action_choice s = Raise IndexError s) /\
  (forall x y,
     (marine_center (now s) = nan /\ beacon_center (now s) = xy x y) \/
     (marine_center (now s) = xy x y /\ beacon_center (now s) = nan) ->
     supervised_action action_choice s = Raise NameError s) /\
  (forall mx my bx by_ acts idx s',
     marine_center (now s) = xy mx my ->
     beacon_center (now s) = xy bx by_ ->
     supervised_action action_choice s = Return (acts, idx) s' ->
     (mx = bx -> my = by_ -> idx = action_idx s) /\
     (mx <> bx \/ my <> by_ ->
      (idx < 4)%nat /\
      (displacement idx).1 * (mx - bx) + (displacement idx).2 * (my - by_)
        < 0)).
Proof.
  split; [| split; [| split]].
  - apply supervised_action_final.
  - intros Hm Hb. unfold supervised_action, bind, get. simpl.
    rewrite Hm, Hb. reflexivity.
  - intros x y [[Hm Hb] | [Hm Hb]]; unfold supervised_action, bind, get;
      simpl; rewrite Hm, Hb; reflexivity.
  - intros mx my bx by_ acts idx s' Hm Hb H.
    unfold supervised_action, bind at 1 2, get in H. simpl in H.
    rewrite Hm, Hb in H. simpl in H.
    unfold bind at 1, get in H. simpl in H.
    destruct (supervised_index (mx - bx) (my - by_) action_choice
                (action_idx s)) as [i |] eqn:Hi;
      [| discriminate H].
    unfold bind at 1 in H. simpl in H.
    destruct (SMART_ACTIONS !! i) as [a |]; [| discriminate H].
    unfold bind in H. simpl in H.
    destruct (translate_to_PYSC2_action a s) as [r s1 | e s1];
      [| discriminate H].
    inversion H. subst. clear H.
    apply supervised_index_spec in Hi.
    destruct Hi as [(H1 & H2 & H3) | (H1 & H2 & H3)].
    + split; [intros _ _; exact H3 | intros; lia].
    + split; [intros; lia | intros _; split; assumption].
Qed.

(** *** One call of [policy] *)

Lemma preserves_lift {A X : Type} (f : agent -> X) (m : method agent A) :
  preserves f m -> preserves (fun t => f (core t)) (lift m).
Proof.
  intros H t. specialize (H (core t)). unfold lift.
  destruct (m (core t)); simpl in *; exact H.
Qed.

Lemma preserves_set_action {X : Type} (f : agent -> X) (v : policy_action) :
  preserves (fun t => f (core t)) (modify (set_action v)).
Proof. intros t. reflexivity. Qed.

Lemma lift_prepare_Return (obs : observation) (t : trainer)
    (bc mc : center) (dist : R) :
  calculate_distance (obs_player_relative obs) (obs_selected obs) =
    Some (bc, mc, dist) ->
  lift (prepare_timestep obs) t =
    Return tt (set_core (final (prepare_timestep obs (core t))) t) /\
  DQN (final (prepare_timestep obs (core t))) = DQN (core t) /\
  episodes (final (prepare_timestep obs (core t))) = episodes (core t) /\
  schedule (final (prepare_timestep obs (core t))) = schedule (core t) /\
  action_idx (final (prepare_timestep obs (core t))) = action_idx (core t) /\
  timesteps (final (prepare_timestep obs (core t))) =
    timesteps (core t) + 1.
Proof.
  intros H. unfold lift, prepare_timestep, bind, modify, get. simpl.
  rewrite H. simpl. repeat split.
Qed.

(** Without a beacon pixel in the observation [policy] raises
    [IndexError] at its first statement, whatever the step type: on a last
    step the model is not saved, the target network not synchronised and the
    episode not counted, and the action of the step before is kept. *)
Theorem policy_without_beacon (step_type : Z) (obs : observation)
    (d : draws) (action_choice : bool) (t : trainer) :
  _xy_locs (eq_mask 3 (obs_player_relative obs)) = [] ->
  exists t',
    policy step_type obs d action_choice t = Raise IndexError t' /\
    DQN (core t') = DQN (core t) /\
    episodes (core t') = episodes (core t) /\
    schedule (core t') = schedule (core t) /\
    timesteps (core t') = timesteps (core t) + 1 /\
    action t' = action t.
Proof.
  intros H.
  destruct (CompassAgentMore.prepare_timestep_Raise obs (core t) H)
    as (Hr & Hd & He & Hs & Ht).
  exists (set_core (final (prepare_timestep obs (core t))) t).
  split.
  - unfold policy, bind at 1, lift. rewrite Hr. reflexivity.
  - simpl. rewrite Hd, He, Hs, Ht. repeat split.
Qed.

(** On a first step that shows a beacon [policy] answers with
    [select_army("select")] and touches neither the schedule nor the DQN
    module nor the episode count. *)
Theorem policy_first_selects_army (obs : observation) (d : draws)
    (action_choice : bool) (t : trainer) (bc mc : center) (dist : R) :
  calculate_distance (obs_player_relative obs) (obs_selected obs) =
    Some (bc, mc, dist) ->
  exists t',
    policy Pysc2.FIRST obs d action_choice t =
      Return (actions [Some (Pysc2.select_army "select")]) t' /\
    schedule (core t') = schedule (core t) /\
    DQN (core t') = DQN (core t) /\
    episodes (core t') = episodes (core t) /\
    action_idx (core t') = action_idx (core t).
Proof.
  intros H.
  destruct (lift_prepare_Return obs t bc mc dist H)
    as (Hr & Hd & He & Hs & Ha & _).
  eexists. split.
  - unfold policy, bind at 1. rewrite Hr. reflexivity.
  - simpl. rewrite Hd, He, Hs, Ha. repeat split.
Qed.

(** On a last step that shows a beacon [policy] saves the model under
    [exp_path + "/model/model.pt"], then synchronises the target network
    when the number of finished episodes is a multiple of the period,
    counts the episode, restarts the step count of the episode and answers
    ['reset'].  With a period of 0 the modulo raises after the model was
    saved: the episode is not counted and the action is not replaced. *)
Theorem policy_episode_end (obs : observation) (d : draws)
    (action_choice : bool) (t : trainer) (bc mc : center) (dist : R) :
  calculate_distance (obs_player_relative obs) (obs_selected obs) =
    Some (bc, mc, dist) ->
  let saved :=
    dqn_save (DQN (core t)) (exp_path t ++ "/model/model.pt")%string in
  (target_update_period t <> 0 ->
   exists t',
     policy Pysc2.LAST obs d action_choice t = Return reset_request t' /\
     action t' = reset_request /\
     episodes (core t') = episodes (core t) + 1 /\
     timesteps (core t') = 0 /\
     schedule (core t') = schedule (core t) /\
     DQN (core t') =
       if episodes (core t) mod target_update_period t =? 0
       then dqn_update_target_net saved else saved) /\
  (target_update_period t = 0 ->
   exists t',
     policy Pysc2.LAST obs d action_choice t = Raise ZeroDivisionError t' /\
     action t' = action t /\
     episodes (core t') = episodes (core t) /\
     timesteps (core t') = timesteps (core t) + 1 /\
     DQN (core t') = saved).
Proof.
  intros H saved.
  destruct (lift_prepare_Return obs t bc mc dist H)
    as (Hr & Hd & He & Hs & _ & Ht).
  split.
  - intros Hp. apply Z.eqb_neq in Hp.
    unfold policy, bind at 1. rewrite Hr.
    unfold _save_model, update_target_network, reset, lift, bind, modify,
      get, ret, raise. simpl.
    rewrite Hp, He.
    destruct (episodes (core t) mod target_update_period t =? 0);
      simpl; eexists; (split; [reflexivity |]); simpl;
      rewrite ?Hd, ?He, ?Hs; repeat split.
  - intros Hp.
    unfold policy, bind at 1. rewrite Hr.
    unfold _save_model, update_target_network, reset, lift, bind, modify,
      get, ret, raise. simpl.
    rewrite Hp. simpl.
    eexists. split; [reflexivity |]. simpl.
    rewrite ?Hd, ?He, ?Ht. repeat split.
Qed.

Lemma policy_tail_schedule
    (m : method agent (list (option Pysc2.FunctionCall) * nat))
    (t : trainer) :
  schedule (core (final
    (((r <- lift m ;;
       modify (set_action (actions r.1)) ;;;
       lift (modify (set_action_idx r.2))) ;;;
      get action) t))) =
  schedule (final (m (core t))).
Proof.
  unfold bind, lift, modify, get. destruct (m (core t)); reflexivity.
Qed.

Lemma policy_mid (step_type : Z) (obs : observation) (d : draws)
    (action_choice : bool) (t t1 : trainer) :
  (step_type =? Pysc2.FIRST) = false ->
  (step_type =? Pysc2.LAST) = false ->
  lift (prepare_timestep obs) t = Return tt t1 ->
  policy step_type obs d action_choice t =
    ((r <- (if episodes (core t1) <? supervised_episodes t1
            then lift (supervised_action action_choice)
            else lift (choose_action "learn" d)) ;;
      modify (set_action (actions r.1)) ;;;
      lift (modify (set_action_idx r.2))) ;;;
     get action) t1.
Proof.
  intros Hf Hl Hr. unfold policy. rewrite Hf, Hl. unfold bind at 1.
  rewrite Hr. reflexivity.
Qed.

(** [policy] consumes the exploration schedule only on a step that is
    neither first nor last, shows a beacon, and belongs to an episode past
    the supervised ones: there [steps_done] grows by exactly 1.  On every
    other call, also one that raises, the schedule is left as it was; the
    supervised episodes do not decay epsilon. *)
Theorem policy_uses_schedule (step_type : Z) (obs : observation)
    (d : draws) (action_choice : bool) (t : trainer) :
  (distance_of obs <> None ->
   step_type <> Pysc2.FIRST -> step_type <> Pysc2.LAST ->
   supervised_episodes t <= episodes (core t) ->
   eps_decay (schedule (core t)) <> 0%R ->
   steps_done (schedule (core (final
     (policy step_type obs d action_choice t)))) =
     steps_done (schedule (core t)) + 1) /\
  (distance_of obs = None \/ step_type = Pysc2.FIRST \/
   step_type = Pysc2.LAST \/ episodes (core t) < supervised_episodes t ->
   schedule (core (final (policy step_type obs d action_choice t))) =
     schedule (core t)).
Proof.
  unfold distance_of.
  destruct (calculate_distance (obs_player_relative obs) (obs_selected obs))
    as [[[bc mc] dist] |] eqn:Hc.
  - destruct (lift_prepare_Return obs t bc mc dist Hc)
      as (Hr & Hd & He & Hs & _ & _).
    set (s1 := final (prepare_timestep obs (core t))) in *.
    split.
    + intros _ Hf Hl Hsup Hdec.
      apply Z.eqb_neq in Hf, Hl.
      rewrite (policy_mid _ _ _ _ _ _ Hf Hl Hr).
      cbn [core set_core supervised_episodes]. rewrite He.
      destruct (Z.ltb_spec (episodes (core t)) (supervised_episodes t));
        [lia |].
      rewrite policy_tail_schedule. cbn [core set_core].
      assert (Hdec1 : eps_decay (schedule s1) <> 0%R)
        by (rewrite Hs; exact Hdec).
      destruct (CompassAgentFacts.compass_choose_action_steps_done
                  "learn" d s1 Hdec1) as (Hsd & _ & _).
      rewrite Hsd, Hs. reflexivity.
    + intros Hcase.
      destruct (Z.eqb_spec step_type Pysc2.FIRST) as [Hf | Hf].
      * subst step_type. unfold policy, bind at 1. rewrite Hr.
        simpl. exact Hs.
      * destruct (Z.eqb_spec step_type Pysc2.LAST) as [Hl | Hl].
        -- subst step_type. unfold policy, bind at 1. rewrite Hr.
           unfold _save_model, update_target_network, reset, lift, bind,
             modify, get, ret, raise. simpl.
           destruct (target_update_period t =? 0); simpl; [exact Hs |].
           destruct (episodes s1 mod target_update_period t =? 0);
             simpl; exact Hs.
        -- destruct Hcase as [Hn | [Hn | [Hn | Hsup]]];
             [discriminate Hn | contradiction | contradiction |].
           apply Z.eqb_neq in Hf, Hl.
           rewrite (policy_mid _ _ _ _ _ _ Hf Hl Hr).
           cbn [core set_core supervised_episodes]. rewrite He.
           destruct (Z.ltb_spec (episodes (core t)) (supervised_episodes t));
             [| lia].
           rewrite policy_tail_schedule. cbn [core set_core].
           rewrite supervised_action_final. exact Hs.
  - pose proof (proj1 (CompassAgentMore.calculate_distance_None _ _) Hc)
      as Hnone.
    destruct (CompassAgentMore.prepare_timestep_Raise obs (core t) Hnone)
      as (Hr & _ & _ & Hs & _).
    split; [intros Hn; contradiction |].
    intros _. unfold policy, bind at 1, lift. rewrite Hr. simpl. exact Hs.
Qed.

End Facts.

End CompassPolicyFacts.

(** ** The sizes of [PytorchTutorialDQN] *)

Module ArchitecturesFacts.

Import Architectures.

(** [_get_filter_dimension] raises on a stride of 0.  For a positive
    stride and a kernel that fits the padded input it is the number of
    positions of the kernel, [floor((w + 2p - f) / s) + 1], which is the
    [r >= 1] with [(r - 1) * s + f <= w + 2p < r * s + f].  The four
    convolutions of [__init__] take the width 84 to 4. *)
Theorem get_filter_dimension_counts_positions (w f p s : Z) :
  (s = 0 -> _get_filter_dimension w f p s = None) /\
  (0 < s -> f <= w + 2 * p ->
   exists r,
     _get_filter_dimension w f p s = Some r /\
     r = (w + 2 * p - f) / s + 1 /\
     1 <= r /\
     (r - 1) * s + f <= w + 2 * p < r * s + f) /\
  tmp_w = Some 4.
Proof.
  split; [| split].
  - intros ->. reflexivity.
  - intros Hs Hf. unfold _get_filter_dimension.
    destruct (Z.eqb_spec s 0) as [H0 | _]; [lia |].
    eexists. split; [reflexivity |].
    rewrite Z.quot_div_nonneg by lia.
    replace (w - f + 2 * p + s) with ((w + 2 * p - f) + 1 * s) by lia.
    rewrite Z.div_add by lia.
    pose proof (Z.div_mod (w + 2 * p - f) s ltac:(lia)) as Hdm.
    pose proof (Z.mod_pos_bound (w + 2 * p - f) s Hs) as Hb.
    pose proof (Z.div_pos (w + 2 * p - f) s ltac:(lia) Hs) as Hq.
    split; [reflexivity |]. split; [lia |]. nia.
  - reflexivity.
Qed.

(** *** The grid of positions *)

Lemma tile_lookup {A : Type} (xs : list A) (m k : nat) (x : A) :
  tile xs m !! k = Some x <->
  (k < m * length xs)%nat /\ xs !! (k mod length xs)%nat = Some x.
Proof.
  revert k. induction m as [| m IH]; intros k.
  - unfold tile. simpl. split; [intros H; discriminate H | lia].
  - change (tile xs (S m)) with (xs ++ tile xs m).
    destruct (Nat.lt_ge_cases k (length xs)) as [Hk | Hk].
    + rewrite lookup_app_l by exact Hk.
      rewrite Nat.mod_small by exact Hk.
      split; [intros H; split; [lia | exact H] | intros [_ H]; exact H].
    + rewrite lookup_app_r by exact Hk. rewrite IH.
      assert (Hmod : ((k - length xs) mod length xs =
                      k mod length xs)%nat).
      { replace k with (k - length xs + 1 * length xs)%nat at 2 by lia.
        symmetry. apply Nat.Div0.mod_add. }
      rewrite Hmod. split; intros [H1 H2]; (split; [lia | exact H2]).
Qed.

Lemma repeat_each_lookup {A : Type} (ys : list A) (n k : nat) (y : A) :
  repeat_each ys n !! k = Some y <->
  (0 < n)%nat /\ ys !! (k / n)%nat = Some y.
Proof.
  revert k. induction ys as [| a t IH]; intros k.
  - unfold repeat_each. simpl.
    split; [intros H; discriminate H | intros [_ H]; discriminate H].
  - change (repeat_each (a :: t) n) with (replicate n a ++ repeat_each t n).
    destruct (Nat.lt_ge_cases k n) as [Hk | Hk].
    + rewrite lookup_app_l by (rewrite length_replicate; exact Hk).
      rewrite lookup_replicate, Nat.div_small by exact Hk. simpl.
      split.
      * intros [-> _]. split; [lia | reflexivity].
      * intros [_ H]. inversion H. split; [reflexivity | exact Hk].
    + rewrite lookup_app_r by (rewrite length_replicate; exact Hk).
      rewrite length_replicate, IH.
      split; intros [Hn H]; (split; [exact Hn |]).
      * replace k with (k - n + 1 * n)%nat by lia.
        rewrite Nat.div_add by lia.
        replace (k - n + 1 * n - n)%nat with (k - n)%nat in * by lia.
        rewrite Nat.add_1_r. exact H.
      * replace k with (k - n + 1 * n)%nat in H by lia.
        rewrite Nat.div_add in H by lia.
        rewrite Nat.add_1_r in H. exact H.
Qed.

Lemma tile_length {A : Type} (xs : list A) (m : nat) :
  length (tile xs m) = (m * length xs)%nat.
Proof.
  induction m as [| m IH]; [reflexivity |].
  change (tile xs (S m)) with (xs ++ tile xs m).
  rewrite length_app, IH. lia.
Qed.

Lemma repeat_each_length {A : Type} (ys : list A) (n : nat) :
  length (repeat_each ys n) = (length ys * n)%nat.
Proof.
  induction ys as [| a t IH]; [reflexivity |].
  change (repeat_each (a :: t) n) with (replicate n a ++ repeat_each t n).
  rewrite length_app, length_replicate, IH. simpl. lia.
Qed.

(** [xy_space] has one entry per pair of a value of [x_space] and a value
    of [y_space], which is the number of outputs of [head_actions]; entry
    [k] pairs the value of [x_space] at [k mod len(x_space)] with the value
    of [y_space] at [k // len(x_space)]. *)
Theorem xy_space_enumerates_grid (x_space y_space : list Z) :
  length (xy_space x_space y_space) =
    (length x_space * length y_space)%nat /\
  (forall (k : nat) (x y : Z),
     xy_space x_space y_space !! k = Some (x, y) <->
     x_space !! (k mod length x_space)%nat = Some x /\
     y_space !! (k / length x_space)%nat = Some y).
Proof.
  split.
  - unfold xy_space. rewrite length_zip_with, tile_length, repeat_each_length.
    lia.
  - intros k x y. unfold xy_space. rewrite lookup_zip_with_Some. split.
    + intros (x' & y' & Heq & Hx & Hy). inversion Heq. subst x' y'.
      apply tile_lookup in Hx. apply repeat_each_lookup in Hy.
      split; [apply Hx | apply Hy].
    + intros [Hx Hy]. exists x, y. split; [reflexivity |].
      pose proof (lookup_lt_Some _ _ _ Hx) as Hlx.
      pose proof (lookup_lt_Some _ _ _ Hy) as Hly.
      assert (Hn : (0 < length x_space)%nat) by lia.
      split.
      * apply tile_lookup. split; [| exact Hx].
        pose proof (Nat.div_mod_eq k (length x_space)) as Hdm.
        pose proof (Nat.mod_upper_bound k (length x_space) ltac:(lia)) as Hm.
        nia.
      * apply repeat_each_lookup. split; [exact Hn | exact Hy].
Qed.

End ArchitecturesFacts.

(** ** Further worked instances *)

Module ScenarioFacts.

Import Examples Scenarios.

(** *** [BaseAgent] *)

Lemma base_agent_explores :
  BaseAgent.epsilon_greedy (1 / 2)%R base_agent =
  Return random
    (BaseAgent.set_steps_done 1 (BaseAgent.set_epsilon 1%R base_agent)).
Proof.
  unfold BaseAgent.epsilon_greedy, bind, get, modify. simpl.
  destruct (Req_dec_T 8000 0) as [H | _]; [lra |]. simpl.
  rewrite epsilon_at_0. unfold random_choice.
  destruct (Rle_dec 0 1) as [_ | H]; [| exfalso; lra].
  destruct (Rle_dec 0 (1 - 1)) as [_ | H]; [| exfalso; lra].
  destruct (Rlt_dec (1 / 2) 1) as [_ | H]; [| exfalso; lra].
  reflexivity.
Qed.

Lemma base_choose_returns :
  BaseAgent.choose_action base_obs base_draws base_agent =
  Return ([Some Pysc2.no_op], 2%nat, 10%nat, 20%nat)
    (BaseAgent.set_choice (Some random)
       (BaseAgent.set_steps_done 1 (BaseAgent.set_epsilon 1%R base_agent))).
Proof.
  unfold BaseAgent.choose_action, bind at 1.
  change (BaseAgent.u_choice base_draws) with (1 / 2)%R.
  rewrite base_agent_explores. reflexivity.
Qed.

(** The first decision of [base_agent] explores: it draws the index of
    [Move_screen], which [base_obs] does not offer, and emits [no_op]. *)
Lemma choose_action_result_witness :
  exists s',
    BaseAgent.choose_action base_obs base_draws base_agent =
      Return ([Some Pysc2.no_op], 2%nat, 10%nat, 20%nat) s' /\
    (2 < length BaseAgent.SMART_ACTIONS)%nat /\
    Z.of_nat 10 < BaseAgent.screen_dim base_agent /\
    Z.of_nat 20 < BaseAgent.screen_dim base_agent.
Proof.
  eexists. split; [exact base_choose_returns |].
  destruct (BaseAgentMore.choose_action_result _ _ _ _ _ _ _ _
              base_choose_returns) as (H1 & _ & H3).
  split; [exact H1 |]. apply H3. reflexivity.
Defined.

Lemma greedy_agent_exploits :
  BaseAgent.epsilon_greedy (model := wide_net) (1 / 2)%R greedy_agent =
  Return greedy
    (BaseAgent.set_steps_done 1
       (BaseAgent.set_epsilon (5 / 100)%R greedy_agent)).
Proof.
  unfold BaseAgent.epsilon_greedy, bind, get, modify. simpl.
  destruct (Req_dec_T 8000 0) as [H | _]; [lra |]. simpl.
  rewrite epsilon_at_0. unfold random_choice.
  destruct (Rle_dec 0 (5 / 100)) as [_ | H]; [| exfalso; lra].
  destruct (Rle_dec 0 (1 - 5 / 100)) as [_ | H]; [| exfalso; lra].
  destruct (Rlt_dec (1 / 2) (5 / 100)) as [H | _]; [exfalso; lra |].
  reflexivity.
Qed.

Lemma wide_argmax :
  Numpy.argmax Rgtb [0%R; 0%R; 0%R; 1%R] = Some 3%nat.
Proof.
  unfold Numpy.argmax, Numpy.argmax_from, Rgtb.
  destruct (Rlt_dec 0 0) as [H | _]; [exfalso; lra |].
  destruct (Rlt_dec 0 1) as [_ | H]; [| exfalso; lra].
  reflexivity.
Qed.

(** A greedy decision over a network with four action outputs, the
    greatest being the fourth: there is no fourth action, and
    [choose_action] raises [IndexError] after the schedule moved on. *)
Lemma choose_action_greedy_failures_witness :
  exists s1,
    BaseAgent.epsilon_greedy (model := wide_net)
      (BaseAgent.u_choice base_draws) greedy_agent = Return greedy s1 /\
    BaseAgent.choose_action (model := wide_net) wide_obs base_draws
      greedy_agent =
      Raise IndexError (BaseAgent.set_choice (Some greedy) s1) /\
    BaseAgent.steps_done (BaseAgent.set_choice (Some greedy) s1) = 1.
Proof.
  eexists. split; [exact greedy_agent_exploits |].
  destruct (BaseAgentMore.choose_action_greedy_failures (model := wide_net)
              wide_obs base_draws greedy_agent _ greedy_agent_exploits)
    as (Hsd & _ & Hidx).
  split; [| exact Hsd].
  apply (Hidx 3%nat); [exact wide_argmax | simpl; lia].
Defined.

(** After a [reset], a step of the environment and a call of
    [update_target_net]: the counter holds the number of synchronisations
    since the reset. *)
Lemma update_cnt_counts_syncs_witness :
  let cs2 :=
    [BaseAgent.call_step base_obs base_draws;
     BaseAgent.call_update_target_net] in
  forallb (fun c => negb (BaseAgentTraces.is_reset c)) cs2 = true /\
  BaseAgent.update_cnt
    (BaseAgent.run ([] ++ BaseAgent.call_reset :: cs2) base_agent) =
  BaseAgentTraces.sync_count cs2
    (BaseAgent.run ([] ++ [BaseAgent.call_reset]) base_agent).
Proof.
  intros cs2.
  assert (H : forallb (fun c => negb (BaseAgentTraces.is_reset c)) cs2 = true)
    by reflexivity.
  split; [exact H |].
  exact (BaseAgentMore.update_cnt_counts_syncs [] cs2 base_agent H).
Defined.

(** [optimize] returns a loss on [base_batch], and it is not negative. *)
Lemma optimize_loss_sign_witness :
  exists loss s',
    BaseAgent.optimize base_batch base_agent = Return loss s' /\
    (0 <= loss)%R.
Proof.
  destruct (BaseAgentMore.optimize_returns base_batch base_agent
              ExampleFacts.base_batch_well_formed ltac:(discriminate))
    as (loss & s' & H).
  exists loss, s'. split; [exact H |].
  exact (proj1 (BaseAgentMore.optimize_loss_sign base_batch base_agent s'
                  loss H)).
Defined.

(** *** [CompassAgent] *)

Lemma distance_of_far : CompassTraces.distance_of obs_far = Some 5%R.
Proof.
  unfold CompassTraces.distance_of.
  change (CompassAgent.obs_player_relative obs_far) with beacon_layer.
  change (CompassAgent.obs_selected obs_far) with marine_at_3_4.
  rewrite ExampleFacts.distance_far. reflexivity.
Qed.

Lemma distance_of_near : CompassTraces.distance_of obs_near = Some 3%R.
Proof.
  unfold CompassTraces.distance_of.
  change (CompassAgent.obs_player_relative obs_near) with beacon_layer.
  change (CompassAgent.obs_selected obs_near) with marine_at_3_0.
  rewrite ExampleFacts.distance_near. reflexivity.
Qed.

Lemma small_screen (l : CompassAgent.layer) :
  l = beacon_layer \/ l = marine_at_3_4 ->
  (forall row, In row l -> Z.of_nat (length row) <= 4) /\
  Z.of_nat (length l) <= 5.
Proof.
  intros [-> | ->]; (split; [| simpl; lia]);
    intros row Hrow; simpl in Hrow;
    repeat (destruct Hrow as [<- | Hrow]; [simpl; lia |]);
    destruct Hrow.
Qed.

(** On the 4 x 5 screen of [obs_far] both centers are positions of the
    screen. *)
Lemma centers_on_screen_witness :
  ((forall row, In row beacon_layer -> Z.of_nat (length row) <= 4) /\
   Z.of_nat (length beacon_layer) <= 5) /\
  ((forall row, In row marine_at_3_4 -> Z.of_nat (length row) <= 4) /\
   Z.of_nat (length marine_at_3_4) <= 5) /\
  CompassAgent.calculate_distance beacon_layer marine_at_3_4 =
    Some (CompassAgent.xy 0 0, CompassAgent.xy 3 4, 5%R) /\
  (0 <= 0 < 4 /\ 0 <= 0 < 5) /\ (0 <= 3 < 4 /\ 0 <= 4 < 5).
Proof.
  pose proof (small_screen beacon_layer (or_introl eq_refl)) as Hb.
  pose proof (small_screen marine_at_3_4 (or_intror eq_refl)) as Hm.
  split; [exact Hb |]. split; [exact Hm |].
  split; [exact ExampleFacts.distance_far |].
  exact (CompassAgentMore.centers_on_screen beacon_layer marine_at_3_4
           4 5 0 0 3 4 5%R (proj1 Hb) (proj2 Hb) (proj1 Hm) (proj2 Hm)
           ExampleFacts.distance_far).
Defined.

(** Two pixels from the left edge, ['left'] moves to the x coordinate
    -2. *)
Lemma translate_unblocked_moves_witness :
  let s :=
    compass_agent 1 [Pysc2.no_op_id; Pysc2.Move_screen_id]
      (CompassAgent.xy 2 10) in
  CompassAgent.marine_center (CompassAgent.now s) = CompassAgent.xy 2 10 /\
  In Pysc2.Move_screen_id (CompassAgent.available_actions (CompassAgent.now s))
  /\ CompassAgent.translate_to_PYSC2_action "left" s =
       Return (Some (Pysc2.Move_screen "now" (2 - 4) 10)) s.
Proof.
  intros s.
  assert (Hmc : CompassAgent.marine_center (CompassAgent.now s) =
                CompassAgent.xy 2 10) by reflexivity.
  assert (Hin : In Pysc2.Move_screen_id
                  (CompassAgent.available_actions (CompassAgent.now s)))
    by (simpl; tauto).
  split; [exact Hmc |]. split; [exact Hin |].
  exact (proj1 (CompassAgentMore.translate_unblocked_moves s "left" 2 10
                  Hmc Hin) eq_refl ltac:(lia)).
Defined.

(** From distance 5 to distance 3 and back to distance 5: the shaped
    rewards 2 and -2 add up to 0. *)
Lemma rewards_along_telescope_witness :
  CompassTraces.distance_of obs_far = Some 5%R /\
  mapM CompassTraces.distance_of [obs_near; obs_far] = Some [3%R; 5%R] /\
  exists rs,
    CompassTraces.rewards_along obs_far [obs_near; obs_far]
      (compass_agent 1 [] CompassAgent.nan) = Some rs /\
    length rs = 2%nat /\
    fold_right Rplus 0%R rs = 0%R.
Proof.
  assert (Hds : mapM CompassTraces.distance_of [obs_near; obs_far] =
                Some [3%R; 5%R]).
  { apply mapM_Some_2. repeat constructor.
    - exact distance_of_near.
    - exact distance_of_far. }
  split; [exact distance_of_far |]. split; [exact Hds |].
  destruct (CompassAgentMore.rewards_along_telescope obs_far
              [obs_near; obs_far] (compass_agent 1 [] CompassAgent.nan)
              5%R [3%R; 5%R] distance_of_far Hds) as [Hr Hsum].
  eexists. split; [exact Hr |]. split; [reflexivity |].
  rewrite Hsum.
  - simpl. lra.
  - simpl. repeat constructor; lra.
Defined.

Lemma compass_agent_explores (avail : list Z) (mc : CompassAgent.center) :
  CompassAgent.epsilon_greedy (1 / 2)%R (compass_agent 1 avail mc) =
  Return random
    (CompassAgent.set_schedule
       (CompassAgent.mkExploration 1%R 1%R (5 / 100)%R 8000%R 1 None)
       (compass_agent 1 avail mc)).
Proof.
  unfold CompassAgent.epsilon_greedy, bind, get, modify. simpl.
  destruct (Req_dec_T 8000 0) as [H | _]; [lra |]. simpl.
  rewrite epsilon_at_0. unfold random_choice.
  destruct (Rle_dec 0 1) as [_ | H]; [| exfalso; lra].
  destruct (Rle_dec 0 (1 - 1)) as [_ | H]; [| exfalso; lra].
  destruct (Rlt_dec (1 / 2) 1) as [_ | H]; [| exfalso; lra].
  reflexivity.
Qed.

Lemma compass_choose_returns :
  CompassAgent.choose_action "learn" compass_draws
    (compass_agent 1 [Pysc2.no_op_id; Pysc2.Move_screen_id]
       (CompassAgent.xy 10 10)) =
  Return ([Some (Pysc2.Move_screen "now" 6 10)], 0%nat)
    (CompassAgent.set_schedule
       (CompassAgent.mkExploration 1%R 1%R (5 / 100)%R 8000%R 1 (Some random))
       (compass_agent 1 [Pysc2.no_op_id; Pysc2.Move_screen_id]
          (CompassAgent.xy 10 10))).
Proof.
  unfold CompassAgent.choose_action, bind at 1.
  change (CompassAgent.u_choice compass_draws) with (1 / 2)%R.
  rewrite compass_agent_explores. reflexivity.
Qed.

(** The first decision of a fresh agent explores and returns: the draw 0
    names ['left'], four pixels to the left of the marine. *)
Lemma compass_choose_action_returns_witness :
  exists s',
    CompassAgent.choose_action "learn" compass_draws
      (compass_agent 1 [Pysc2.no_op_id; Pysc2.Move_screen_id]
         (CompassAgent.xy 10 10)) =
      Return ([Some (Pysc2.Move_screen "now" 6 10)], 0%nat) s' /\
    CompassAgent.choice (CompassAgent.schedule s') = Some random /\
    exists a, CompassAgent.SMART_ACTIONS !! 0%nat = Some a.
Proof.
  eexists. split; [exact compass_choose_returns |].
  destruct (CompassAgentMore.compass_choose_action_returns _ _ _ _ _ _
              compass_choose_returns) as (_ & Hc & _ & _ & a & fc & Ha & _).
  split; [exact Hc |]. exists a. exact Ha.
Defined.

(** *** The policy *)

Lemma no_beacon_locs :
  CompassAgent._xy_locs
    (CompassAgent.eq_mask 3 (CompassAgent.obs_player_relative obs_no_beacon))
  = [].
Proof. vm_compute. reflexivity. Qed.

(** A last step without a beacon: nothing is saved and the episode is not
    counted. *)
Lemma policy_without_beacon_witness :
  CompassAgent._xy_locs
    (CompassAgent.eq_mask 3 (CompassAgent.obs_player_relative obs_no_beacon))
  = [] /\
  exists t',
    CompassPolicy.policy (persistence := logging_persistence) Pysc2.LAST
      obs_no_beacon compass_draws true (logging_trainer 2) =
      Raise IndexError t' /\
    CompassAgent.DQN (CompassPolicy.core t') = [] /\
    CompassAgent.episodes (CompassPolicy.core t') = 0.
Proof.
  split; [exact no_beacon_locs |].
  destruct (CompassPolicyFacts.policy_without_beacon
              (persistence := logging_persistence) Pysc2.LAST obs_no_beacon
              compass_draws true (logging_trainer 2) no_beacon_locs)
    as (t' & Hr & Hd & He & _).
  exists t'. split; [exact Hr |]. split; [exact Hd | exact He].
Defined.

(** The first step of an episode. *)
Lemma policy_first_selects_army_witness :
  CompassAgent.calculate_distance
    (CompassAgent.obs_player_relative obs_far)
    (CompassAgent.obs_selected obs_far) =
    Some (CompassAgent.xy 0 0, CompassAgent.xy 3 4, 5%R) /\
  exists t',
    CompassPolicy.policy (persistence := logging_persistence) Pysc2.FIRST
      obs_far compass_draws true (logging_trainer 2) =
      Return (CompassPolicy.actions [Some (Pysc2.select_army "select")]) t' /\
    CompassAgent.DQN (CompassPolicy.core t') = [].
Proof.
  split; [exact ExampleFacts.distance_far |].
  destruct (CompassPolicyFacts.policy_first_selects_army
              (persistence := logging_persistence) obs_far compass_draws true
              (logging_trainer 2) _ _ _ ExampleFacts.distance_far)
    as (t' & Hr & _ & Hd & _).
  exists t'. split; [exact Hr | exact Hd].
Defined.

(** The last step of the first episode with the period 2: the model is
    saved, then the target network is synchronised, and the episode is
    counted.  With the period 0 the model is saved and the call raises. *)
Lemma policy_episode_end_witness :
  CompassAgent.calculate_distance
    (CompassAgent.obs_player_relative obs_far)
    (CompassAgent.obs_selected obs_far) =
    Some (CompassAgent.xy 0 0, CompassAgent.xy 3 4, 5%R) /\
  (exists t',
     CompassPolicy.policy (persistence := logging_persistence) Pysc2.LAST
       obs_far compass_draws true (logging_trainer 2) =
       Return CompassPolicy.reset_request t' /\
     CompassAgent.episodes (CompassPolicy.core t') = 1 /\
     CompassAgent.DQN (CompassPolicy.core t') =
       ["update_target_net"; "save exp/model/model.pt"]%string) /\
  (exists t',
     CompassPolicy.policy (persistence := logging_persistence) Pysc2.LAST
       obs_far compass_draws true (logging_trainer 0) =
       Raise ZeroDivisionError t' /\
     CompassAgent.episodes (CompassPolicy.core t') = 0 /\
     CompassAgent.DQN (CompassPolicy.core t') =
       ["save exp/model/model.pt"]%string).
Proof.
  split; [exact ExampleFacts.distance_far |].
  split.
  - destruct (proj1 (CompassPolicyFacts.policy_episode_end
                (persistence := logging_persistence) obs_far compass_draws
                true (logging_trainer 2) _ _ _ ExampleFacts.distance_far)
                ltac:(discriminate))
      as (t' & Hr & _ & He & _ & _ & Hd).
    exists t'. split; [exact Hr |]. split; [exact He | exact Hd].
  - destruct (proj2 (CompassPolicyFacts.policy_episode_end
                (persistence := logging_persistence) obs_far compass_draws
                true (logging_trainer 0) _ _ _ ExampleFacts.distance_far)
                eq_refl)
      as (t' & Hr & _ & He & _ & Hd).
    exists t'. split; [exact Hr |]. split; [exact He | exact Hd].
Defined.

End ScenarioFacts.
